(** * Course schedule optimizer: what-if query translation, validation,
      orchestration and reason graphs

    A shallow embedding of
      - [Product/query_translator.py]  (QueryType, QueryConstraint and its
        to_dict, QueryTranslator.parse_structured_query,
        parse_natural_language, _get_lunch_periods, _find_assignment,
        _extract_course_ids, _extract_instructor_ids, _extract_days,
        _extract_times, validate_query_constraints),
      - [Product/solver_interface.py]  (SolverInterface.solve_what_if,
        _solve_what_if_julia, _julia_to_python,
        _group_consecutive_periods),
      - [Product/explanation_agent.py] (ExplanationAgent.build_graph_of_reasons,
        _constraint_to_reason, _constraints_share_scope,
        _create_graph_visualization_json, explain_what_if_result,
        _explain_feasible_what_if, _explain_infeasible_what_if,
        _build_infeasible_what_if_fallback, _format_iis_for_llm,
        _check_consecutive_availability).

    Modelling boundary.  Python values are the JSON-shaped values the API
    hands to these functions: None, bool, int, str, list and dict with string
    keys.  Floating point numbers are outside the model.  Strings are
    sequences of ASCII characters ([str.lower] and [int] are modelled on
    ASCII text).  [print] calls are dropped.  Texts of exceptions raised by
    built-in operations follow CPython's wording; where a text depends on
    the order in which [list.sort] compares, it is a parameter. *)

From Stdlib Require Import ZArith List String Ascii Bool Lia Arith DecimalString.
From Stdlib Require Import Permutation Sorted.
Import ListNotations.
Local Open Scope list_scope.
Local Open Scope string_scope.
#[local] Set Warnings "-register-all".

(* ================================================================== *)
(** ** Python values, exceptions and the built-in operations used *)
(* ================================================================== *)

Module Py.

Inductive value : Type :=
| VNone
| VBool (b : bool)
| VInt (z : Z)
| VStr (s : string)
| VList (l : list value)
| VDict (d : list (string * value)).

(** A dict keeps insertion order; a key occurs once. *)
Definition dict : Type := list (string * value).

Inductive exn : Type :=
| ValueError (msg : string)
| KeyError (key : string)
| TypeError (msg : string)
| AttributeError (msg : string)
| Exception (msg : string).

(** Outcome of running a piece of code: a value, a raised exception, or
    a loop that is still running when the fuel is used up. *)
Inductive result (A : Type) : Type :=
| Ok (a : A)
| Raise (e : exn)
| OutOfFuel.

Arguments Ok {A} a.
Arguments Raise {A} e.
Arguments OutOfFuel {A}.

Definition bind {A B : Type} (m : result A) (k : A -> result B) : result B :=
  match m with
  | Ok a => k a
  | Raise e => Raise e
  | OutOfFuel => OutOfFuel
  end.

Declare Scope py_scope.
Delimit Scope py_scope with py.
Notation "x <- m ;; k" := (bind m (fun x => k))
  (at level 61, m at next level, right associativity) : py_scope.
Notation "' p <- m ;; k" := (bind m (fun x => match x with p => k end))
  (at level 61, p pattern, m at next level, right associativity) : py_scope.
Local Open Scope py_scope.

(** [for x in xs: ...] collecting one result per element; the first
    exception aborts the loop. *)
Fixpoint map_m {A B : Type} (f : A -> result B) (xs : list A) : result (list B) :=
  match xs with
  | [] => Ok []
  | x :: rest =>
      y <- f x ;;
      ys <- map_m f rest ;;
      Ok (y :: ys)
  end.

(** [[x for x in xs if p(x)]] where the test may raise. *)
Fixpoint filter_m {A : Type} (p : A -> result bool) (xs : list A) : result (list A) :=
  match xs with
  | [] => Ok []
  | x :: rest =>
      b <- p x ;;
      ys <- filter_m p rest ;;
      Ok (if b then x :: ys else ys)
  end.

Definition type_name (v : value) : string :=
  match v with
  | VNone => "NoneType"
  | VBool _ => "bool"
  | VInt _ => "int"
  | VStr _ => "str"
  | VList _ => "list"
  | VDict _ => "dict"
  end.

Fixpoint lookup (k : string) (d : dict) : option value :=
  match d with
  | [] => None
  | (k', v) :: rest => if String.eqb k k' then Some v else lookup k rest
  end.

(** [d.get(k, dflt)] on a dict. *)
Definition get (d : dict) (k : string) (dflt : value) : value :=
  match lookup k d with
  | Some v => v
  | None => dflt
  end.

(** [v.get(k, dflt)] on any value: only dicts have [get]. *)
Definition dict_get (v : value) (k : string) (dflt : value) : result value :=
  match v with
  | VDict d => Ok (get d k dflt)
  | _ => Raise (AttributeError
                  ("'" ++ type_name v ++ "' object has no attribute 'get'"))
  end.

(** [v[k]] with a string key. *)
Definition subscript (v : value) (k : string) : result value :=
  match v with
  | VDict d =>
      match lookup k d with
      | Some x => Ok x
      | None => Raise (KeyError k)
      end
  | VList _ => Raise (TypeError "list indices must be integers or slices, not str")
  | VStr _ => Raise (TypeError "string indices must be integers, not 'str'")
  | _ => Raise (TypeError ("'" ++ type_name v ++ "' object is not subscriptable"))
  end.

(** Truth value testing: [if v], [not v]. *)
Definition truthy (v : value) : bool :=
  match v with
  | VNone => false
  | VBool b => b
  | VInt z => negb (Z.eqb z 0)
  | VStr s => negb (String.eqb s EmptyString)
  | VList l => match l with [] => false | _ => true end
  | VDict d => match d with [] => false | _ => true end
  end.

(** bool is a subclass of int: True is 1 and False is 0. *)
Definition as_int (v : value) : option Z :=
  match v with
  | VBool b => Some (if b then 1%Z else 0%Z)
  | VInt z => Some z
  | _ => None
  end.

(** [a == b]. *)
Fixpoint py_eq (a b : value) : bool :=
  match a, b with
  | VNone, VNone => true
  | VBool x, VBool y => Bool.eqb x y
  | VBool x, VInt y => Z.eqb (if x then 1 else 0) y
  | VInt x, VBool y => Z.eqb x (if y then 1 else 0)
  | VInt x, VInt y => Z.eqb x y
  | VStr x, VStr y => String.eqb x y
  | VList xs, VList ys =>
      (fix go (xs ys : list value) {struct xs} : bool :=
         match xs, ys with
         | [], [] => true
         | x :: xs', y :: ys' => py_eq x y && go xs' ys'
         | _, _ => false
         end) xs ys
  | VDict d1, VDict d2 =>
      Nat.eqb (List.length d1) (List.length d2) &&
      (fix all (d : list (string * value)) : bool :=
         match d with
         | [] => true
         | (k, v) :: rest =>
             match lookup k d2 with
             | Some v' => py_eq v v'
             | None => false
             end && all rest
         end) d1
  | _, _ => false
  end.

(** Objects that can be dict keys or set members. *)
Definition hashable (v : value) : bool :=
  match v with
  | VList _ | VDict _ => false
  | _ => true
  end.

Definition unhashable (v : value) : exn :=
  TypeError ("unhashable type: '" ++ type_name v ++ "'").

Fixpoint chars (s : string) : list value :=
  match s with
  | EmptyString => []
  | String c rest => VStr (String c EmptyString) :: chars rest
  end.

(** [for x in v]. *)
Definition iterate (v : value) : result (list value) :=
  match v with
  | VList l => Ok l
  | VStr s => Ok (chars s)
  | VDict d => Ok (map (fun kv => VStr (fst kv)) d)
  | _ => Raise (TypeError ("'" ++ type_name v ++ "' object is not iterable"))
  end.

(** [len(v)]. *)
Definition len (v : value) : result Z :=
  match v with
  | VList l => Ok (Z.of_nat (List.length l))
  | VStr s => Ok (Z.of_nat (String.length s))
  | VDict d => Ok (Z.of_nat (List.length d))
  | _ => Raise (TypeError ("object of type '" ++ type_name v ++ "' has no len()"))
  end.

(** *** Strings *)

Fixpoint contains_char (c : ascii) (s : string) : bool :=
  match s with
  | EmptyString => false
  | String c' rest => Ascii.eqb c c' || contains_char c rest
  end.

(** [needle in hay] for strings. *)
Fixpoint contains (needle hay : string) : bool :=
  prefix needle hay ||
  match hay with
  | EmptyString => false
  | String _ rest => contains needle rest
  end.

(** [s.startswith(p)]. *)
Definition startswith (s p : string) : bool := prefix p s.

Definition lower_char (c : ascii) : ascii :=
  let n := nat_of_ascii c in
  if (65 <=? n)%nat && (n <=? 90)%nat then ascii_of_nat (n + 32) else c.

(** [s.lower()]. *)
Fixpoint lower (s : string) : string :=
  match s with
  | EmptyString => EmptyString
  | String c rest => String (lower_char c) (lower rest)
  end.

(** [s.split(sep)] for a one-character separator. *)
Fixpoint split_on (sep : ascii) (s : string) : list string :=
  match s with
  | EmptyString => [EmptyString]
  | String c rest =>
      if Ascii.eqb c sep then EmptyString :: split_on sep rest
      else match split_on sep rest with
           | [] => [String c EmptyString]
           | p :: ps => String c p :: ps
           end
  end.

Definition backslash : ascii := ascii_of_nat 92.

Definition hex_digit (n : nat) : ascii :=
  if (n <? 10)%nat then ascii_of_nat (48 + n) else ascii_of_nat (87 + n).

Definition escape_char (quote c : ascii) : string :=
  let n := nat_of_ascii c in
  if Ascii.eqb c backslash then String backslash (String backslash EmptyString)
  else if Ascii.eqb c quote then String backslash (String c EmptyString)
  else if (n =? 9)%nat then "\t"
  else if (n =? 10)%nat then "\n"
  else if (n =? 13)%nat then "\r"
  else if (n <? 32)%nat || (n =? 127)%nat
       then String backslash (String "x"%char
              (String (hex_digit (n / 16)) (String (hex_digit (n mod 16)) EmptyString)))
  else String c EmptyString.

Fixpoint escape (quote : ascii) (s : string) : string :=
  match s with
  | EmptyString => EmptyString
  | String c rest => escape_char quote c ++ escape quote rest
  end.

Definition double_quote : ascii := ascii_of_nat 34.

(** [repr(s)] for a string: single quotes unless the text has a single
    quote and no double quote. *)
Definition repr_str (s : string) : string :=
  let quote : ascii :=
    if contains_char "'"%char s && negb (contains_char double_quote s)
    then double_quote else "'"%char in
  String quote (escape quote s ++ String quote EmptyString).

Definition str_of_Z (z : Z) : string := NilZero.string_of_int (Z.to_int z).
Definition str_of_nat (n : nat) : string := NilZero.string_of_uint (Nat.to_uint n).

Fixpoint join (sep : string) (parts : list string) : string :=
  match parts with
  | [] => EmptyString
  | [p] => p
  | p :: rest => p ++ sep ++ join sep rest
  end.

(** [repr(v)]. *)
Fixpoint py_repr (v : value) : string :=
  match v with
  | VNone => "None"
  | VBool true => "True"
  | VBool false => "False"
  | VInt z => str_of_Z z
  | VStr s => repr_str s
  | VList l => "[" ++ join ", " (map py_repr l) ++ "]"
  | VDict d =>
      "{" ++ join ", "
        ((fix items (d : list (string * value)) : list string :=
            match d with
            | [] => []
            | (k, x) :: rest => (repr_str k ++ ": " ++ py_repr x) :: items rest
            end) d) ++ "}"
  end.

(** [str(v)], also what an f-string placeholder [{v}] renders. *)
Definition py_str (v : value) : string :=
  match v with
  | VStr s => s
  | _ => py_repr v
  end.

(** [str(e)] for an exception. *)
Definition exn_str (e : exn) : string :=
  match e with
  | ValueError m | TypeError m | AttributeError m | Exception m => m
  | KeyError k => repr_str k
  end.

(** *** [int(s)] on text *)

Definition is_space (c : ascii) : bool :=
  let n := nat_of_ascii c in
  (n =? 32)%nat || ((9 <=? n)%nat && (n <=? 13)%nat).

Definition is_digit (c : ascii) : bool :=
  let n := nat_of_ascii c in (48 <=? n)%nat && (n <=? 57)%nat.

Fixpoint lstrip (s : string) : string :=
  match s with
  | EmptyString => EmptyString
  | String c rest => if is_space c then lstrip rest else s
  end.

Fixpoint rev_append (s acc : string) : string :=
  match s with
  | EmptyString => acc
  | String c rest => rev_append rest (String c acc)
  end.

Definition strip (s : string) : string :=
  rev_append (lstrip (rev_append (lstrip s) EmptyString)) EmptyString.

Inductive digit_state : Type := AtStart | AfterDigit | AfterUnderscore.

(** Decimal digits, with single underscores allowed between digits. *)
Fixpoint digits (acc : Z) (st : digit_state) (s : string) : option Z :=
  match s with
  | EmptyString =>
      match st with
      | AfterDigit => Some acc
      | _ => None
      end
  | String c rest =>
      if is_digit c
      then digits (acc * 10 + Z.of_nat (nat_of_ascii c - 48)) AfterDigit rest
      else if Ascii.eqb c "_"%char
      then match st with
           | AfterDigit => digits acc AfterUnderscore rest
           | _ => None
           end
      else None
  end.

Definition py_int (s : string) : result Z :=
  let parsed :=
    match strip s with
    | String "+" rest => digits 0 AtStart rest
    | String "-" rest => option_map Z.opp (digits 0 AtStart rest)
    | body => digits 0 AtStart body
    end in
  match parsed with
  | Some z => Ok z
  | None => Raise (ValueError
                     ("invalid literal for int() with base 10: " ++ repr_str s))
  end.

End Py.

Import Py.
Local Open Scope py_scope.

(* ================================================================== *)
(** ** query_translator.py *)
(* ================================================================== *)

(** class QueryType(str, Enum) *)
Inductive QueryType : Type :=
| ENFORCE_TIME_SLOT
| ENFORCE_DAY
| ENFORCE_ROOM
| ENFORCE_BEFORE_TIME
| ENFORCE_AFTER_TIME
| ENFORCE_NO_LUNCH
| ENFORCE_CONSECUTIVE
| VETO_TIME_SLOT
| VETO_DAY
| VETO_ROOM
| VETO_LUNCH
| VETO_INSTRUCTOR_DAY
| SWAP_TIME_SLOTS
| SWAP_ROOMS.

Definition QueryType_members : list QueryType :=
  [ENFORCE_TIME_SLOT; ENFORCE_DAY; ENFORCE_ROOM; ENFORCE_BEFORE_TIME;
   ENFORCE_AFTER_TIME; ENFORCE_NO_LUNCH; ENFORCE_CONSECUTIVE;
   VETO_TIME_SLOT; VETO_DAY; VETO_ROOM; VETO_LUNCH; VETO_INSTRUCTOR_DAY;
   SWAP_TIME_SLOTS; SWAP_ROOMS].

(** The [.value] of a member. *)
Definition QueryType_value (q : QueryType) : string :=
  match q with
  | ENFORCE_TIME_SLOT => "enforce_time_slot"
  | ENFORCE_DAY => "enforce_day"
  | ENFORCE_ROOM => "enforce_room"
  | ENFORCE_BEFORE_TIME => "enforce_before_time"
  | ENFORCE_AFTER_TIME => "enforce_after_time"
  | ENFORCE_NO_LUNCH => "enforce_no_lunch"
  | ENFORCE_CONSECUTIVE => "enforce_consecutive"
  | VETO_TIME_SLOT => "veto_time_slot"
  | VETO_DAY => "veto_day"
  | VETO_ROOM => "veto_room"
  | VETO_LUNCH => "veto_lunch"
  | VETO_INSTRUCTOR_DAY => "veto_instructor_day"
  | SWAP_TIME_SLOTS => "swap_time_slots"
  | SWAP_ROOMS => "swap_rooms"
  end.

(** [QueryType(s)]: look a member up by value; [None] stands for the
    ValueError the Enum raises. *)
Definition QueryType_of (s : string) : option QueryType :=
  find (fun q => String.eqb (QueryType_value q) s) QueryType_members.

Definition QueryType_eqb (a b : QueryType) : bool :=
  String.eqb (QueryType_value a) (QueryType_value b).

(** class QueryConstraint; every field but the kind defaults to None and
    [extra_params] collects the keyword arguments left over. *)
Record QueryConstraint : Type := mkQueryConstraint {
  query_type : QueryType;
  course_id : value;
  instructor_id : value;
  week : value;
  day : value;
  period_start : value;
  period_end : value;
  room_id : value;
  course_id_2 : value;
  extra_params : dict
}.

(** [QueryConstraint(query_type=qt)] with every optional argument left out. *)
Definition QueryConstraint_init (qt : QueryType) : QueryConstraint :=
  mkQueryConstraint qt VNone VNone VNone VNone VNone VNone VNone VNone [].

Definition with_course_id (v : value) (c : QueryConstraint) : QueryConstraint :=
  mkQueryConstraint (query_type c) v (instructor_id c) (week c) (day c)
    (period_start c) (period_end c) (room_id c) (course_id_2 c) (extra_params c).
Definition with_week (v : value) (c : QueryConstraint) : QueryConstraint :=
  mkQueryConstraint (query_type c) (course_id c) (instructor_id c) v (day c)
    (period_start c) (period_end c) (room_id c) (course_id_2 c) (extra_params c).
Definition with_day (v : value) (c : QueryConstraint) : QueryConstraint :=
  mkQueryConstraint (query_type c) (course_id c) (instructor_id c) (week c) v
    (period_start c) (period_end c) (room_id c) (course_id_2 c) (extra_params c).
Definition with_period_start (v : value) (c : QueryConstraint) : QueryConstraint :=
  mkQueryConstraint (query_type c) (course_id c) (instructor_id c) (week c) (day c)
    v (period_end c) (room_id c) (course_id_2 c) (extra_params c).
Definition with_period_end (v : value) (c : QueryConstraint) : QueryConstraint :=
  mkQueryConstraint (query_type c) (course_id c) (instructor_id c) (week c) (day c)
    (period_start c) v (room_id c) (course_id_2 c) (extra_params c).
Definition with_room_id (v : value) (c : QueryConstraint) : QueryConstraint :=
  mkQueryConstraint (query_type c) (course_id c) (instructor_id c) (week c) (day c)
    (period_start c) (period_end c) v (course_id_2 c) (extra_params c).

(** The four call shapes the translator uses. *)
Definition slot_constraint (qt : QueryType) (course wk dy period : value)
  : QueryConstraint :=
  with_period_start period
    (with_day dy (with_week wk (with_course_id course (QueryConstraint_init qt)))).

Definition day_constraint (qt : QueryType) (course dy : value) : QueryConstraint :=
  with_day dy (with_course_id course (QueryConstraint_init qt)).

(** The ValueErrors of the translator, under the names of the error
    taxonomy. *)
Definition UnknownQueryKind (query_type : string) : exn :=
  ValueError ("Unknown query type: " ++ query_type).
Definition NoMatchingEntity (instructor : value) : exn :=
  ValueError ("No courses found for instructor " ++ py_str instructor).
Definition NoCurrentAssignment : exn :=
  ValueError "Cannot find current assignments for swap".
Definition MissingParameter_veto_day : exn :=
  ValueError "Either course_id or instructor_id required for veto_day".
Definition MissingParameter_no_lunch : exn :=
  ValueError "course_id required for enforce_no_lunch".
Definition MissingParameter_swap : exn :=
  ValueError "Both course_id_1 and course_id_2 required for swap".
Definition MissingParameter_instructor_day : exn :=
  ValueError "instructor_id and day required".

Definition is_MissingParameter (e : exn) : Prop :=
  In e [MissingParameter_veto_day; MissingParameter_no_lunch;
        MissingParameter_swap; MissingParameter_instructor_day].

(** *** _get_lunch_periods *)

(** [h, m = map(int, text.split(":"))]: the map is consumed lazily by the
    unpacking, which asks for a third item to see that there is none. *)
Definition unpack_hour_minute (text : value) : result (Z * Z) :=
  match text with
  | VStr s =>
      match split_on ":"%char s with
      | [] => Raise (ValueError "not enough values to unpack (expected 2, got 0)")
      | [a] =>
          _ <- py_int a ;;
          Raise (ValueError "not enough values to unpack (expected 2, got 1)")
      | [a; b] =>
          h <- py_int a ;;
          m <- py_int b ;;
          Ok (h, m)
      | a :: b :: c :: _ =>
          _ <- py_int a ;;
          _ <- py_int b ;;
          _ <- py_int c ;;
          Raise (ValueError "too many values to unpack (expected 2)")
      end
  | _ => Raise (AttributeError
                  ("'" ++ type_name text ++ "' object has no attribute 'split'"))
  end.

(** Lines 375-386: the reads of the term configuration and the minute
    arithmetic.  Returns (start_minutes, lunch_start_minutes,
    lunch_end_minutes, period_length). *)
Definition lunch_window (term_config : value) : result (Z * Z * Z * value) :=
  day_start <- dict_get term_config "day_start_time" (VStr "08:00") ;;
  lunch_start <- dict_get term_config "lunch_start_time" (VStr "12:00") ;;
  lunch_end <- dict_get term_config "lunch_end_time" (VStr "12:30") ;;
  period_length <- dict_get term_config "period_length_minutes" (VInt 30) ;;
  '(start_hour, start_min) <- unpack_hour_minute day_start ;;
  '(lunch_start_hour, lunch_start_min) <- unpack_hour_minute lunch_start ;;
  '(lunch_end_hour, lunch_end_min) <- unpack_hour_minute lunch_end ;;
  let start_minutes := (start_hour * 60 + start_min)%Z in
  let lunch_start_minutes := (lunch_start_hour * 60 + lunch_start_min)%Z in
  let lunch_end_minutes := (lunch_end_hour * 60 + lunch_end_min)%Z in
  Ok (start_minutes, lunch_start_minutes, lunch_end_minutes, period_length).

(** [a + b] with an int on the left. *)
Definition int_add (a : Z) (b : value) : result Z :=
  match as_int b with
  | Some n => Ok (a + n)%Z
  | None => Raise (TypeError ("unsupported operand type(s) for +: 'int' and '"
                              ++ type_name b ++ "'"))
  end.

(** Lines 392-398: the while loop, one unit of fuel per test of its
    condition. *)
Fixpoint lunch_loop (fuel : nat) (period_length : value)
    (lunch_start_minutes lunch_end_minutes : Z)
    (current_time period_index : Z) (lunch_periods : list Z) : result (list Z) :=
  match fuel with
  | O => OutOfFuel
  | S fuel' =>
      if (current_time <? lunch_end_minutes)%Z then
        period_end <- int_add current_time period_length ;;
        let lunch_periods' :=
          if (period_end >? lunch_start_minutes)%Z
             && (current_time <? lunch_end_minutes)%Z
          then (lunch_periods ++ [period_index])%list
          else lunch_periods in
        lunch_loop fuel' period_length lunch_start_minutes lunch_end_minutes
          period_end (period_index + 1)%Z lunch_periods'
      else Ok lunch_periods
  end.

Definition _get_lunch_periods (fuel : nat) (term_config : value) : result (list Z) :=
  '(start_minutes, lunch_start_minutes, lunch_end_minutes, period_length)
     <- lunch_window term_config ;;
  lunch_loop fuel period_length lunch_start_minutes lunch_end_minutes
    start_minutes 0%Z [].

(** *** _find_assignment *)

Fixpoint find_assignment_loop (course_id : value) (assignments : list value)
  : result value :=
  match assignments with
  | [] => Ok VNone
  | assignment :: rest =>
      c <- dict_get assignment "course_id" VNone ;;
      if py_eq c course_id then Ok assignment
      else find_assignment_loop course_id rest
  end.

Definition _find_assignment (course_id : value) (schedule : value) : result value :=
  assignments <- dict_get schedule "assignments" (VList []) ;;
  items <- iterate assignments ;;
  find_assignment_loop course_id items.

(** *** parse_structured_query *)

(** [[c for c in input_data.get("courses", []) if c.get("instructor_id") == instructor_id]] *)
Definition courses_of_instructor (input_data : dict) (instructor_id : value)
  : result (list value) :=
  items <- iterate (get input_data "courses" (VList [])) ;;
  filter_m (fun c =>
              i <- dict_get c "instructor_id" VNone ;;
              Ok (py_eq i instructor_id)) items.

(** The loop [for course in courses: constraints.append(QueryConstraint(
    query_type=VETO_DAY, course_id=course["id"], day=day))]. *)
Definition veto_day_per_course (courses : list value) (day : value)
  : result (list QueryConstraint) :=
  map_m (fun course =>
           cid <- subscript course "id" ;;
           Ok (day_constraint VETO_DAY cid day)) courses.

(** The translator object; [parse_structured_query] does not read it. *)
Record QueryTranslator : Type := mkQueryTranslator {
  query_patterns : list (string * string)
}.

Definition parse_structured_query (self : QueryTranslator) (fuel : nat)
    (query_type : string) (params : dict) (input_data : dict)
  : result (list QueryConstraint) :=
  match QueryType_of query_type with
  | None => Raise (UnknownQueryKind query_type)
  | Some qtype =>
      if QueryType_eqb qtype ENFORCE_TIME_SLOT then
        Ok [slot_constraint qtype (get params "course_id" VNone)
              (get params "week" VNone) (get params "day" VNone)
              (get params "period_start" VNone)]
      else if QueryType_eqb qtype VETO_DAY then
        if truthy (get params "course_id" VNone) then
          Ok [day_constraint qtype (get params "course_id" VNone)
                (get params "day" VNone)]
        else if truthy (get params "instructor_id" VNone) then
          let instructor_id := get params "instructor_id" VNone in
          let day := get params "day" VNone in
          courses <- courses_of_instructor input_data instructor_id ;;
          match courses with
          | [] => Raise (NoMatchingEntity instructor_id)
          | _ => veto_day_per_course courses day
          end
        else Raise MissingParameter_veto_day
      else if QueryType_eqb qtype ENFORCE_NO_LUNCH then
        let term_config := get input_data "term_config" (VDict []) in
        lunch_periods <- _get_lunch_periods fuel term_config ;;
        let course_id := get params "course_id" VNone in
        if negb (truthy course_id) then Raise MissingParameter_no_lunch
        else
          days_value <- dict_get term_config "days" (VList []) ;;
          days <- iterate days_value ;;
          Ok (flat_map (fun day =>
                map (fun period =>
                       slot_constraint VETO_TIME_SLOT course_id VNone day (VInt period))
                    lunch_periods) days)
      else if QueryType_eqb qtype VETO_TIME_SLOT then
        Ok [slot_constraint qtype (get params "course_id" VNone)
              (get params "week" VNone) (get params "day" VNone)
              (get params "period_start" VNone)]
      else if QueryType_eqb qtype ENFORCE_ROOM then
        Ok [with_room_id (get params "room_id" VNone)
              (with_course_id (get params "course_id" VNone)
                 (QueryConstraint_init qtype))]
      else if QueryType_eqb qtype ENFORCE_BEFORE_TIME then
        Ok [with_period_end (get params "period_before" VNone)
              (with_course_id (get params "course_id" VNone)
                 (QueryConstraint_init qtype))]
      else if QueryType_eqb qtype ENFORCE_AFTER_TIME then
        Ok [with_period_start (get params "period_after" VNone)
              (with_course_id (get params "course_id" VNone)
                 (QueryConstraint_init qtype))]
      else if QueryType_eqb qtype SWAP_TIME_SLOTS then
        let c1 := get params "course_id_1" VNone in
        let c2 := get params "course_id_2" VNone in
        if negb (truthy c1) || negb (truthy c2) then Raise MissingParameter_swap
        else
          let current_schedule := get params "current_schedule" (VDict []) in
          c1_assignment <- _find_assignment c1 current_schedule ;;
          c2_assignment <- _find_assignment c2 current_schedule ;;
          if negb (truthy c1_assignment) || negb (truthy c2_assignment)
          then Raise NoCurrentAssignment
          else
            w2 <- subscript c2_assignment "week" ;;
            d2 <- subscript c2_assignment "day" ;;
            p2 <- subscript c2_assignment "period_start" ;;
            let k1 := slot_constraint ENFORCE_TIME_SLOT c1 w2 d2 p2 in
            w1 <- subscript c1_assignment "week" ;;
            d1 <- subscript c1_assignment "day" ;;
            p1 <- subscript c1_assignment "period_start" ;;
            let k2 := slot_constraint VETO_TIME_SLOT c1 w1 d1 p1 in
            w1' <- subscript c1_assignment "week" ;;
            d1' <- subscript c1_assignment "day" ;;
            p1' <- subscript c1_assignment "period_start" ;;
            let k3 := slot_constraint ENFORCE_TIME_SLOT c2 w1' d1' p1' in
            w2' <- subscript c2_assignment "week" ;;
            d2' <- subscript c2_assignment "day" ;;
            p2' <- subscript c2_assignment "period_start" ;;
            let k4 := slot_constraint VETO_TIME_SLOT c2 w2' d2' p2' in
            Ok [k1; k2; k3; k4]
      else if QueryType_eqb qtype VETO_INSTRUCTOR_DAY then
        let instructor_id := get params "instructor_id" VNone in
        let day := get params "day" VNone in
        if negb (truthy instructor_id) || negb (truthy day)
        then Raise MissingParameter_instructor_day
        else
          courses <- courses_of_instructor input_data instructor_id ;;
          veto_day_per_course courses day
      else Ok []
  end.

(** *** validate_query_constraints *)

(** The dict key [(course_id, week, day, period_start)]. *)
Definition slot_key : Type := value * value * value * value.

Definition key_of (c : QueryConstraint) : slot_key :=
  (course_id c, week c, day c, period_start c).

Definition key_eq (a b : slot_key) : bool :=
  let '(a0, a1, a2, a3) := a in
  let '(b0, b1, b2, b3) := b in
  py_eq a0 b0 && py_eq a1 b1 && py_eq a2 b2 && py_eq a3 b3.

(** Hashing a tuple hashes its items in order. *)
Definition hash_value (v : value) : result unit :=
  if hashable v then Ok tt else Raise (unhashable v).

Definition hash_key (k : slot_key) : result unit :=
  let '(k0, k1, k2, k3) := k in
  _ <- hash_value k0 ;;
  _ <- hash_value k1 ;;
  _ <- hash_value k2 ;;
  hash_value k3.

(** A dict from slot keys to constraints, in insertion order.  Storing
    under a key equal to one already there keeps the old key object and
    replaces the value. *)
Definition slot_map : Type := list (slot_key * QueryConstraint).

Fixpoint slot_map_set (k : slot_key) (c : QueryConstraint) (m : slot_map) : slot_map :=
  match m with
  | [] => [(k, c)]
  | (k', c') :: rest =>
      if key_eq k' k then (k', c) :: rest
      else (k', c') :: slot_map_set k c rest
  end.

Definition slot_map_mem (k : slot_key) (m : slot_map) : bool :=
  existsb (fun e => key_eq (fst e) k) m.

Definition QueryType_in (q : QueryType) (qs : list QueryType) : bool :=
  existsb (QueryType_eqb q) qs.

(** Lines 498-504. *)
Fixpoint collect_slots (constraints : list QueryConstraint)
    (enforce_slots veto_slots : slot_map) : result (slot_map * slot_map) :=
  match constraints with
  | [] => Ok (enforce_slots, veto_slots)
  | constraint :: rest =>
      let key := key_of constraint in
      if QueryType_in (query_type constraint) [ENFORCE_TIME_SLOT; ENFORCE_DAY] then
        _ <- hash_key key ;;
        collect_slots rest (slot_map_set key constraint enforce_slots) veto_slots
      else if QueryType_in (query_type constraint) [VETO_TIME_SLOT; VETO_DAY] then
        _ <- hash_key key ;;
        collect_slots rest enforce_slots (slot_map_set key constraint veto_slots)
      else collect_slots rest enforce_slots veto_slots
  end.

Definition contradiction_message (key : slot_key) : string :=
  let '(k0, _, k2, k3) := key in
  "Contradictory constraints: Cannot both enforce and veto " ++ py_str k0 ++ " "
  ++ "on " ++ py_str k2 ++ " at period " ++ py_str k3.

(** Lines 507-512. *)
Definition conflicts (enforce_slots veto_slots : slot_map) : list string :=
  flat_map (fun e =>
              if slot_map_mem (fst e) veto_slots
              then [contradiction_message (fst e)] else [])
           enforce_slots.

(** [{c["id"] for c in input_data.get(field, [])}] *)
Definition id_set (input_data : dict) (field : string) : result (list value) :=
  items <- iterate (get input_data field (VList [])) ;;
  map_m (fun c =>
           i <- subscript c "id" ;;
           _ <- hash_value i ;;
           Ok i) items.

(** [x in ids] for a set. *)
Definition set_mem (x : value) (ids : list value) : result bool :=
  _ <- hash_value x ;;
  Ok (existsb (fun i => py_eq i x) ids).

Definition unknown_course (c : value) : string := "Unknown course ID: " ++ py_str c.
Definition unknown_instructor (i : value) : string :=
  "Unknown instructor ID: " ++ py_str i.

(** Lines 518-522. *)
Fixpoint check_ids (constraints : list QueryConstraint)
    (valid_course_ids valid_instructor_ids : list value) (errors : list string)
  : result (list string) :=
  match constraints with
  | [] => Ok errors
  | constraint :: rest =>
      errors1 <-
        (if truthy (course_id constraint) then
           known <- set_mem (course_id constraint) valid_course_ids ;;
           Ok (if negb known
               then (errors ++ [unknown_course (course_id constraint)])%list
               else errors)
         else Ok errors) ;;
      errors2 <-
        (if truthy (instructor_id constraint) then
           known <- set_mem (instructor_id constraint) valid_instructor_ids ;;
           Ok (if negb known
               then (errors1 ++ [unknown_instructor (instructor_id constraint)])%list
               else errors1)
         else Ok errors1) ;;
      check_ids rest valid_course_ids valid_instructor_ids errors2
  end.

Definition validate_query_constraints (constraints : list QueryConstraint)
    (input_data : dict) : result (bool * list string) :=
  '(enforce_slots, veto_slots) <- collect_slots constraints [] [] ;;
  let errors := conflicts enforce_slots veto_slots in
  valid_course_ids <- id_set input_data "courses" ;;
  valid_instructor_ids <- id_set input_data "instructors" ;;
  errors' <- check_ids constraints valid_course_ids valid_instructor_ids errors ;;
  Ok (Nat.eqb (List.length errors') 0, errors').

(* ================================================================== *)
(** ** solver_interface.py: the what-if path *)
(* ================================================================== *)

Module SolverInterface.

(** One invocation of [Main.solve_what_if_query]. *)
Record oracle_call : Type := mkCall {
  call_input : dict;
  call_constraints : list value;
  call_objective : value
}.

(** The Julia runtime behind [self.julia].  A call answers with the value
    PyJulia converts the Julia result to, raises, or does not come back;
    the answer may depend on the calls made before (transient failures). *)
Record Julia : Type := mkJulia {
  solve_what_if_query : list oracle_call -> oracle_call -> result value
}.

Record t : Type := mkSolverInterface {
  use_julia_solver : bool;
  julia : Julia
}.

(** Code that talks to the oracle threads the log of calls made so far. *)
Definition M (A : Type) : Type := list oracle_call -> A * list oracle_call.

Definition call_oracle (self : t) (c : oracle_call) : M (result value) :=
  fun log => (solve_what_if_query (julia self) log c, (log ++ [c])%list).

(** _julia_to_python on values PyJulia has already converted: dicts and
    lists are rebuilt item by item ([str(k)] of a string key is the key),
    None and primitive values are returned as they are. *)
Fixpoint _julia_to_python (julia_obj : value) : value :=
  match julia_obj with
  | VNone => VNone
  | VDict d =>
      VDict ((fix items (d : list (string * value)) : list (string * value) :=
                match d with
                | [] => []
                | (k, v) :: rest => (k, _julia_to_python v) :: items rest
                end) d)
  | VList l => VList (map _julia_to_python l)
  | _ => julia_obj
  end.

(** The dict built in the [except Exception as e] handler. *)
Definition what_if_error (error_msg traceback : string) : value :=
  VDict [("status", VStr "error");
         ("query_feasible", VBool false);
         ("explanation", VStr ("What-if analysis error: " ++ error_msg));
         ("diagnostics", VDict [("error", VStr error_msg);
                                ("traceback", VStr traceback)])].

(** Lines 565-577, after the oracle has answered. *)
Definition after_oracle (result : value) : Py.result value :=
  let python_result := _julia_to_python result in
  status <- dict_get python_result "status" (VStr "unknown") ;;
  if py_eq status (VStr "feasible_query") then
    _ <- dict_get python_result "alternative_objective" VNone ;;
    Ok python_result
  else if py_eq status (VStr "infeasible_query") then
    iis <- dict_get python_result "iis" (VList []) ;;
    _ <- len iis ;;
    Ok python_result
  else Ok python_result.

(** [traceback_format_exc] stands for [traceback.format_exc()] in the
    handler. *)
Definition _solve_what_if_julia (traceback_format_exc : exn -> string) (self : t)
    (input_json : dict) (query_constraints : list value) (original_objective : value)
  : M (Py.result value) :=
  fun log =>
    let julia_query_constraints := map (fun qc => qc) query_constraints in
    let '(answer, log') :=
      call_oracle self
        (mkCall input_json julia_query_constraints original_objective) log in
    let outcome := (result <- answer ;; after_oracle result) in
    match outcome with
    | Ok python_result => (Ok python_result, log')
    | Raise e => (Ok (what_if_error (exn_str e) (traceback_format_exc e)), log')
    | OutOfFuel => (OutOfFuel, log')
    end.

Definition not_supported : value :=
  VDict [("status", VStr "not_supported");
         ("query_feasible", VBool false);
         ("explanation", VStr "What-if analysis not supported in mock mode")].

Definition solve_what_if (traceback_format_exc : exn -> string) (self : t)
    (input_json : dict) (query_constraints : list value) (original_objective : value)
  : M (Py.result value) :=
  if use_julia_solver self then
    _solve_what_if_julia traceback_format_exc self input_json query_constraints
      original_objective
  else fun log => (Ok not_supported, log).

End SolverInterface.

(* ================================================================== *)
(** ** explanation_agent.py: the graph of reasons *)
(* ================================================================== *)

Module ExplanationAgent.

Record reason : Type := mkReason {
  reason_id : value;
  reason_type : value;
  reason_text : value;
  reason_in_iis : value
}.

Record edge : Type := mkEdge {
  edge_from : value;
  edge_to : value;
  relationship : string
}.

Record vis_node : Type := mkVisNode {
  node_id : value;
  node_label : value;
  node_type : value;
  node_group : string
}.

Record vis_edge : Type := mkVisEdge {
  source : value;
  target : value;
  label : string
}.

Record visualization : Type := mkVisualization {
  nodes : list vis_node;
  vis_edges : list vis_edge
}.

Record graph : Type := mkGraph {
  query : value;
  reasons : list reason;
  edges : list edge;
  num_reasons : Z;
  is_connected : bool;
  visualization_data : visualization
}.

(** [v.startswith(p)]: only text has the method. *)
Definition value_startswith (v : value) (p : string) : result bool :=
  match v with
  | VStr s => Ok (startswith s p)
  | _ => Raise (AttributeError
                  ("'" ++ type_name v ++ "' object has no attribute 'startswith'"))
  end.

(** [v.lower()]. *)
Definition value_lower (v : value) : result string :=
  match v with
  | VStr s => Ok (lower s)
  | _ => Raise (AttributeError
                  ("'" ++ type_name v ++ "' object has no attribute 'lower'"))
  end.

Definition minimality_text : string :=
  "The new schedule must achieve at least the same objective value as the original optimal schedule".

Definition _constraint_to_reason (constraint : dict) (input_context : dict)
  : result value :=
  let constraint_type := get constraint "type" (VStr EmptyString) in
  let description := get constraint "description" (VStr EmptyString) in
  if py_eq constraint_type (VStr "minimality") then Ok (VStr minimality_text)
  else
    is_query <- value_startswith constraint_type "query_" ;;
    if is_query then Ok (VStr ("Your requested change: " ++ py_str description))
    else if py_eq constraint_type (VStr "enforce_time_slot")
    then Ok (VStr ("Required: " ++ py_str description))
    else if py_eq constraint_type (VStr "veto_time_slot")
    then Ok (VStr ("Forbidden: " ++ py_str description))
    else if py_eq constraint_type (VStr "veto_day")
    then Ok (VStr ("Cannot schedule on requested day: " ++ py_str description))
    else Ok description.

Definition common_keywords : list string :=
  ["course"; "instructor"; "room"; "time"; "week"; "day"].

Definition _constraints_share_scope (c1 c2 : dict) : result bool :=
  desc1 <- value_lower (get c1 "description" (VStr EmptyString)) ;;
  desc2 <- value_lower (get c2 "description" (VStr EmptyString)) ;;
  Ok (existsb (fun keyword => contains keyword desc1 && contains keyword desc2)
        common_keywords).

Definition default_id (i : nat) : value := VStr ("c" ++ str_of_nat i).

(** The inner loop [for j, other_constraint in enumerate(iis_constraints[i+1:], start=i+1)]. *)
Fixpoint edges_from (constraint : dict) (constraint_id : value) (j : nat)
    (others : list dict) (edges : list edge) : result (list edge) :=
  match others with
  | [] => Ok edges
  | other_constraint :: rest =>
      shares <- _constraints_share_scope constraint other_constraint ;;
      let edges' :=
        if shares
        then (edges ++ [mkEdge constraint_id
                          (get other_constraint "id" (default_id j))
                          "shares_variables"])%list
        else edges in
      edges_from constraint constraint_id (S j) rest edges'
  end.

(** The outer loop [for i, constraint in enumerate(iis_constraints)];
    [rest] is the slice [iis_constraints[i+1:]]. *)
Fixpoint reasons_loop (input_context : dict) (i : nat) (iis_constraints : list dict)
    (reasons : list reason) (edges : list edge)
  : result (list reason * list edge) :=
  match iis_constraints with
  | [] => Ok (reasons, edges)
  | constraint :: rest =>
      let constraint_id := get constraint "id" (default_id i) in
      let constraint_type := get constraint "type" (VStr "unknown") in
      text <- _constraint_to_reason constraint input_context ;;
      let reason :=
        mkReason constraint_id constraint_type text
          (get constraint "in_iis" (VBool true)) in
      edges' <- edges_from constraint constraint_id (S i) rest edges ;;
      reasons_loop input_context (S i) rest (reasons ++ [reason])%list edges'
  end.

Definition node_of_reason (r : reason) : result vis_node :=
  is_query <- value_startswith (reason_type r) "query" ;;
  let group :=
    if is_query then "query"
    else if py_eq (reason_type r) (VStr "minimality") then "minimality"
    else "constraint" in
  Ok (mkVisNode (reason_id r) (reason_text r) (reason_type r) group).

Definition _create_graph_visualization_json (reasons : list reason)
    (edges : list edge) : result visualization :=
  nodes <- map_m node_of_reason reasons ;;
  Ok (mkVisualization nodes
        (map (fun e => mkVisEdge (edge_from e) (edge_to e) (relationship e)) edges)).

Definition build_graph_of_reasons (iis_constraints : list dict) (query : value)
    (input_context : dict) : result graph :=
  '(reasons, edges) <- reasons_loop input_context 0 iis_constraints [] [] ;;
  vis <- _create_graph_visualization_json reasons edges ;;
  Ok (mkGraph query reasons edges (Z.of_nat (List.length reasons))
        (Nat.ltb 0 (List.length edges)) vis).

End ExplanationAgent.

(* ================================================================== *)
(** ** query_translator.py: serialization and the free-text path *)
(* ================================================================== *)

(** [d[k] = v]: an existing key keeps its place. *)
Fixpoint dict_set (k : string) (v : value) (d : dict) : dict :=
  match d with
  | [] => [(k, v)]
  | (k', v') :: rest =>
      if String.eqb k' k then (k', v) :: rest
      else (k', v') :: dict_set k v rest
  end.

(** [{**d, **extra}]. *)
Definition dict_merge (d extra : dict) : dict :=
  fold_left (fun acc kv => dict_set (fst kv) (snd kv) acc) extra d.

(** QueryConstraint.to_dict *)
Definition to_dict (self : QueryConstraint) : dict :=
  dict_merge
    [("type", VStr (QueryType_value (query_type self)));
     ("course_id", course_id self);
     ("instructor_id", instructor_id self);
     ("week", week self);
     ("day", day self);
     ("period_start", period_start self);
     ("period_end", period_end self);
     ("room_id", room_id self);
     ("course_id_2", course_id_2 self)]
    (extra_params self).

Definition with_instructor_id (v : value) (c : QueryConstraint) : QueryConstraint :=
  mkQueryConstraint (query_type c) (course_id c) v (week c) (day c)
    (period_start c) (period_end c) (room_id c) (course_id_2 c) (extra_params c).

(** The test [entity_id.lower() in text.lower() or entity_name.lower() in
    text.lower()]; the name is only looked at when the id is not found. *)
Definition mentioned (text : string) (entity_id entity_name : value) : result bool :=
  id_lower <- ExplanationAgent.value_lower entity_id ;;
  if contains id_lower (lower text) then Ok true
  else
    name_lower <- ExplanationAgent.value_lower entity_name ;;
    Ok (contains name_lower (lower text)).

(** The loop shared by _extract_course_ids and _extract_instructor_ids. *)
Fixpoint extract_ids_loop (text : string) (entities : list value) : result (list value) :=
  match entities with
  | [] => Ok []
  | entity :: rest =>
      entity_id <- dict_get entity "id" (VStr EmptyString) ;;
      entity_name <- dict_get entity "name" (VStr EmptyString) ;;
      hit <- mentioned text entity_id entity_name ;;
      more <- extract_ids_loop text rest ;;
      Ok (if hit then entity_id :: more else more)
  end.

Definition _extract_course_ids (text : string) (input_data : dict) : result (list value) :=
  courses <- iterate (get input_data "courses" (VList [])) ;;
  extract_ids_loop text courses.

Definition _extract_instructor_ids (text : string) (input_data : dict)
  : result (list value) :=
  instructors <- iterate (get input_data "instructors" (VList [])) ;;
  extract_ids_loop text instructors.

(** [days] zipped with [short_days]. *)
Definition day_names : list (string * string) :=
  [("Monday", "Mon"); ("Tuesday", "Tue"); ("Wednesday", "Wed");
   ("Thursday", "Thu"); ("Friday", "Fri"); ("Saturday", "Sat"); ("Sunday", "Sun")].

Definition _extract_days (text : string) : list string :=
  let text_lower := lower text in
  map snd
    (filter (fun d => contains (lower (fst d)) text_lower
                      || contains (lower (snd d)) text_lower)
            day_names).

(** The whitespace class of the regular expression. *)
Definition re_space (c : ascii) : bool :=
  let n := nat_of_ascii c in
  (n =? 32)%nat || ((9 <=? n)%nat && (n <=? 13)%nat)
  || ((28 <=? n)%nat && (n <=? 31)%nat).

Fixpoint skip_spaces (s : string) : nat * string :=
  match s with
  | EmptyString => (0%nat, EmptyString)
  | String c rest =>
      if re_space c then let '(n, r) := skip_spaces rest in (S n, r)
      else (0%nat, s)
  end.

(** One match of [(\d{1,2})(?::(\d{2}))?\s*(am|pm)?] at the head of [s]:
    the three groups and the number of characters matched.  Every part
    after the first digit is optional, so each greedy choice stands. *)
Definition match_time (s : string) : option (string * string * string * nat) :=
  match s with
  | EmptyString => None
  | String c1 r1 =>
      if is_digit c1 then
        let '(hour, n1, r2) :=
          match r1 with
          | String c2 r2 =>
              if is_digit c2
              then (String c1 (String c2 EmptyString), 2%nat, r2)
              else (String c1 EmptyString, 1%nat, r1)
          | EmptyString => (String c1 EmptyString, 1%nat, r1)
          end in
        let '(minute, n2, r3) :=
          match r2 with
          | String colon (String m1 (String m2 r3)) =>
              if Ascii.eqb colon ":"%char && is_digit m1 && is_digit m2
              then (String m1 (String m2 EmptyString), 3%nat, r3)
              else (EmptyString, 0%nat, r2)
          | _ => (EmptyString, 0%nat, r2)
          end in
        let '(n3, r4) := skip_spaces r3 in
        let '(meridiem, n4) :=
          if prefix "am" r4 then ("am", 2%nat)
          else if prefix "pm" r4 then ("pm", 2%nat)
          else (EmptyString, 0%nat) in
        Some (hour, minute, meridiem, (n1 + n2 + n3 + n4)%nat)
      else None
  end.

(** [re.findall]: matches are taken left to right and do not overlap;
    [skip] counts the characters of the last match still to pass. *)
Fixpoint findall_times (skip : nat) (s : string) : list (string * string * string) :=
  match s with
  | EmptyString => []
  | String _ rest =>
      match skip with
      | S k => findall_times k rest
      | O =>
          match match_time s with
          | Some (hour, minute, meridiem, n) =>
              (hour, minute, meridiem) :: findall_times (n - 1) rest
          | None => findall_times 0 rest
          end
      end
  end.

(** The body of the loop over the matches. *)
Definition period_of_match (m : string * string * string) : result (option Z) :=
  let '(g0, g1, meridiem) := m in
  hour <- py_int g0 ;;
  minute <- (if String.eqb g1 EmptyString then Ok 0%Z else py_int g1) ;;
  let hour :=
    if String.eqb meridiem "pm" && (hour <? 12)%Z then (hour + 12)%Z
    else if String.eqb meridiem "am" && (hour =? 12)%Z then 0%Z
    else hour in
  let start_minutes := (8 * 60)%Z in
  let time_minutes := (hour * 60 + minute)%Z in
  let period_index := ((time_minutes - start_minutes) / 30)%Z in
  Ok (if (period_index >=? 0)%Z then Some period_index else None).

Fixpoint periods_loop (matches : list (string * string * string)) : result (list Z) :=
  match matches with
  | [] => Ok []
  | m :: rest =>
      p <- period_of_match m ;;
      more <- periods_loop rest ;;
      Ok (match p with Some i => i :: more | None => more end)
  end.

Definition _extract_times (text : string) : result (list Z) :=
  periods_loop (findall_times 0 (lower text)).

Definition parse_natural_language (self : QueryTranslator) (fuel : nat)
    (question : string) (input_data : dict) : result (list QueryConstraint) :=
  let question_lower := lower question in
  course_ids <- _extract_course_ids question input_data ;;
  instructor_ids <- _extract_instructor_ids question input_data ;;
  let days := _extract_days question in
  times <- _extract_times question ;;
  if contains "avoid" question_lower || contains "not on" question_lower then
    match days, course_ids, instructor_ids with
    | _ :: _, _ :: _, _ =>
        Ok (flat_map (fun course_id =>
              map (fun day => day_constraint VETO_DAY course_id (VStr day)) days)
            course_ids)
    | _ :: _, [], _ :: _ =>
        Ok (flat_map (fun instructor_id =>
              map (fun day =>
                     with_day (VStr day)
                       (with_instructor_id instructor_id
                          (QueryConstraint_init VETO_INSTRUCTOR_DAY))) days)
            instructor_ids)
    | _, _, _ => Ok []
    end
  else if contains "lunch" question_lower then
    let term_config := get input_data "term_config" (VDict []) in
    lunch_periods <- _get_lunch_periods fuel term_config ;;
    match course_ids with
    | [] => Ok []
    | _ :: _ =>
        days_value <- dict_get term_config "days" (VList []) ;;
        term_days <- iterate days_value ;;
        Ok (flat_map (fun course_id =>
              flat_map (fun day =>
                map (fun period =>
                       slot_constraint VETO_TIME_SLOT course_id VNone day (VInt period))
                    lunch_periods) term_days)
            course_ids)
    end
  else if contains "before" question_lower then
    match times with
    | [] => Ok []
    | first :: _ =>
        Ok (map (fun course_id =>
                   with_period_end (VInt first)
                     (with_course_id course_id
                        (QueryConstraint_init ENFORCE_BEFORE_TIME)))
                course_ids)
    end
  else Ok [].

(* ================================================================== *)
(** ** explanation_agent.py: explaining a what-if result *)
(* ================================================================== *)

Module Explain.

Import ExplanationAgent.

Definition nl : string := String (ascii_of_nat 10) EmptyString.

(** [v > n] for an int [n]. *)
Definition gt_int (v : value) (n : Z) : result bool :=
  match as_int v with
  | Some z => Ok (z >? n)%Z
  | None => Raise (TypeError ("'>' not supported between instances of '"
                              ++ type_name v ++ "' and 'int'"))
  end.

(** [f"{v:.1f}"]; the model has no fractions, so a number prints with one
    zero decimal. *)
Definition format_1f (v : value) : result string :=
  match v with
  | VInt z => Ok (str_of_Z z ++ ".0")
  | VBool b => Ok (if b then "1.0" else "0.0")
  | VStr _ => Raise (ValueError "Unknown format code 'f' for object of type 'str'")
  | _ => Raise (TypeError ("unsupported format string passed to "
                           ++ type_name v ++ ".__format__"))
  end.

(** [abs(v)]. *)
Definition py_abs (v : value) : result value :=
  match as_int v with
  | Some z => Ok (VInt (Z.abs z))
  | None => Raise (TypeError ("bad operand type for abs(): '" ++ type_name v ++ "'"))
  end.

(** [v[:5]], ready to be iterated. *)
Definition first_five (v : value) : result (list value) :=
  match v with
  | VList l => Ok (firstn 5 l)
  | VStr s => Ok (firstn 5 (chars s))
  | VDict _ => Raise (TypeError "unhashable type: 'slice'")
  | _ => Raise (TypeError ("'" ++ type_name v ++ "' object is not subscriptable"))
  end.

(** The graph of reasons over whatever [result.get("iis", [])] holds:
    build_graph_of_reasons as above, with the failures of items that are
    no records. *)
Definition no_get (v : value) : exn :=
  AttributeError ("'" ++ type_name v ++ "' object has no attribute 'get'").

Fixpoint edges_from_any (constraint : dict) (constraint_id : value) (j : nat)
    (others : list value) (edges : list edge) : result (list edge) :=
  match others with
  | [] => Ok edges
  | other :: rest =>
      match other with
      | VDict other_constraint =>
          shares <- _constraints_share_scope constraint other_constraint ;;
          let edges' :=
            if shares
            then (edges ++ [mkEdge constraint_id
                              (get other_constraint "id" (default_id j))
                              "shares_variables"])%list
            else edges in
          edges_from_any constraint constraint_id (S j) rest edges'
      | _ =>
          _ <- value_lower (get constraint "description" (VStr EmptyString)) ;;
          Raise (no_get other)
      end
  end.

Fixpoint reasons_loop_any (input_context : dict) (i : nat) (items : list value)
    (reasons : list reason) (edges : list edge)
  : result (list reason * list edge) :=
  match items with
  | [] => Ok (reasons, edges)
  | VDict constraint :: rest =>
      let constraint_id := get constraint "id" (default_id i) in
      let constraint_type := get constraint "type" (VStr "unknown") in
      text <- _constraint_to_reason constraint input_context ;;
      let reason :=
        mkReason constraint_id constraint_type text
          (get constraint "in_iis" (VBool true)) in
      edges' <- edges_from_any constraint constraint_id (S i) rest edges ;;
      reasons_loop_any input_context (S i) rest (reasons ++ [reason])%list edges'
  | item :: _ => Raise (no_get item)
  end.

Definition build_graph_of_reasons_any (iis_constraints : value) (query : value)
    (input_context : dict) : result graph :=
  items <- iterate iis_constraints ;;
  '(reasons, edges) <- reasons_loop_any input_context 0 items [] [] ;;
  vis <- _create_graph_visualization_json reasons edges ;;
  Ok (mkGraph query reasons edges (Z.of_nat (List.length reasons))
        (Nat.ltb 0 (List.length edges)) vis).

(** _format_iis_for_llm *)
Fixpoint iis_lines (i : nat) (items : list value) : result (list string) :=
  match items with
  | [] => Ok []
  | constraint :: rest =>
      constraint_type <- dict_get constraint "type" (VStr "unknown") ;;
      description <- dict_get constraint "description" (VStr "No description") ;;
      more <- iis_lines (S i) rest ;;
      Ok ((str_of_nat i ++ ". [" ++ py_str constraint_type ++ "] "
           ++ py_str description) :: more)
  end.

Definition _format_iis_for_llm (iis_constraints iis_summary : value) : result string :=
  n <- len iis_constraints ;;
  minimality <- dict_get iis_summary "minimality_in_iis" (VBool false) ;;
  num_query <- dict_get iis_summary "num_query_constraints_in_iis" (VInt 0) ;;
  items <- iterate iis_constraints ;;
  lines <- iis_lines 1 items ;;
  let head :=
    ["Number of constraints in IIS: " ++ str_of_Z n;
     "Minimality constraint in IIS: " ++ py_str minimality;
     "Query constraints in IIS: " ++ py_str num_query;
     nl ++ "Constraints:"] in
  Ok (join nl (head ++ lines)%list).

(** The bullet lines of the fallback. *)
Fixpoint description_bullets (items : list value) : result (list string) :=
  match items with
  | [] => Ok []
  | constraint :: rest =>
      desc <- dict_get constraint "description" (VStr "Unknown constraint") ;;
      more <- description_bullets rest ;;
      Ok (("- " ++ py_str desc) :: more)
  end.

Definition why_text : string :=
  nl ++ "**Why:** The minimality constraint (requiring objective ≤ original) conflicts with your scenario. "
  ++ "This means your desired changes would make the schedule worse in terms of soft constraint penalties.".

Definition conflicting_text (num_query : value) : string :=
  nl ++ "**Conflicting Constraints:** " ++ py_str num_query
  ++ " of your query constraints directly conflict with "
  ++ "existing hard constraints (like instructor availability, room capacity, or scheduling patterns).".

Definition _build_infeasible_what_if_fallback (result : dict) (query : string)
    (iis_constraints iis_summary : value) : Py.result string :=
  let explanation_parts :=
    ["❌ **Infeasible Scenario**" ++ nl;
     "Your scenario: *" ++ query ++ "*" ++ nl;
     "This scenario cannot achieve an objective value ≤ "
     ++ py_str (get result "original_objective" (VStr "N/A")) ++ "." ++ nl] in
  has_minimality <- dict_get iis_summary "minimality_in_iis" (VBool false) ;;
  num_query <- dict_get iis_summary "num_query_constraints_in_iis" (VInt 0) ;;
  let parts1 :=
    if truthy has_minimality then (explanation_parts ++ [why_text])%list
    else explanation_parts in
  many <- gt_int num_query 0 ;;
  let parts2 :=
    if many then (parts1 ++ [conflicting_text num_query])%list else parts1 in
  parts3 <-
    (if truthy iis_constraints then
       shown <- first_five iis_constraints ;;
       bullets <- description_bullets shown ;;
       n <- len iis_constraints ;;
       let heading := nl ++ "**Minimal Conflicting Set (IIS):**" in
       let omitted := "- ... and " ++ str_of_Z (n - 5) ++ " more constraints" in
       Ok (parts2 ++ [heading] ++ bullets
           ++ (if (n >? 5)%Z then [omitted] else []))%list
     else Ok parts2) ;;
  Ok (join nl parts3).

(** The narrative model behind [self.model].  A call gives back nothing
    (a response that is None), or a response whose [text] holds a value
    or raises when read; the call itself may raise or not come back. *)
Record Model : Type := mkModel {
  generate_content : string -> result (option (result value))
}.

Definition infeasible_prompt (result : dict) (query : string)
    (iis_constraints iis_summary : value) : Py.result string :=
  iis_text <- _format_iis_for_llm iis_constraints iis_summary ;;
  n <- len iis_constraints ;;
  Ok ("You are explaining why a scheduling change is infeasible.

USER'S DESIRED SCENARIO: " ++ query ++ "

WHY IT'S INFEASIBLE:
The optimizer found the minimal set of conflicting constraints (IIS - Irreducible Infeasible Subsystem):

" ++ iis_text ++ "

CONTEXT:
- Original optimal objective: "
      ++ py_str (get result "original_objective" (VStr "N/A"))
      ++ "
- The scenario requires the new schedule to be at least as good as the original
- The IIS shows the " ++ str_of_Z n ++ " constraints that make this infeasible

YOUR TASK:
Write a clear, conversational explanation (2-3 short paragraphs) explaining:
1. What the user wants to change
2. Why it's infeasible (causally - show the chain of constraints)
3. Which constraints are the root cause

RULES:
- Use the actual constraint descriptions provided
- Explain cause-and-effect relationships between constraints
- Be specific and concrete - no generic platitudes
- NO SUGGESTIONS for fixes - only explain what's blocking
- Write in flowing paragraphs, NOT bullet points

Explain why this scenario is infeasible:").

Definition _explain_infeasible_what_if (model : Model) (result : dict)
    (query : string) (input_context : dict) : Py.result value :=
  let iis_constraints := get result "iis" (VList []) in
  let iis_summary := get result "iis_summary" (VDict []) in
  _ <- build_graph_of_reasons_any iis_constraints (VStr query) input_context ;;
  let fallback :=
    text <- _build_infeasible_what_if_fallback result query iis_constraints
              iis_summary ;;
    Ok (VStr text) in
  let attempt :=
    prompt <- infeasible_prompt result query iis_constraints iis_summary ;;
    response <- generate_content model prompt ;;
    match response with
    | None => fallback
    | Some response_text =>
        text <- response_text ;;
        if negb (truthy text) then fallback else Ok text
    end in
  match attempt with
  | Ok text => Ok text
  | Raise _ => fallback
  | OutOfFuel => OutOfFuel
  end.

Definition _explain_feasible_what_if (result : dict) (query : string)
    (input_context : dict) : Py.result value :=
  let original_obj := get result "original_objective" (VInt 0) in
  let alternative_obj := get result "alternative_objective" (VInt 0) in
  let diff := get result "objective_difference" (VInt 0) in
  if py_eq diff (VInt 0) then
    alternative <- format_1f alternative_obj ;;
    Ok (VStr ("✅ **Alternative Found (No Cost)**" ++ nl ++ nl
              ++ "Your scenario: *" ++ query ++ "*" ++ nl ++ nl
              ++ "This change is possible without any increase in soft constraint penalties! "
              ++ "The alternative schedule achieves the same objective value ("
              ++ alternative ++ ")."))
  else
    magnitude <- py_abs diff ;;
    increase <- format_1f magnitude ;;
    original <- format_1f original_obj ;;
    alternative <- format_1f alternative_obj ;;
    Ok (VStr ("✅ **Alternative Found (With Trade-offs)**" ++ nl ++ nl
              ++ "Your scenario: *" ++ query ++ "*" ++ nl ++ nl
              ++ "This change is possible, but increases soft constraint penalties by "
              ++ increase ++ " (from " ++ original ++ " to " ++ alternative ++ "). "
              ++ "Check the alternative schedule to see what changed.")).

Definition explain_what_if_result (model : Model) (what_if_result : value)
    (query_description : string) (input_context : dict) : Py.result value :=
  match what_if_result with
  | VDict result =>
      let status := get result "status" VNone in
      if py_eq status (VStr "feasible_query") then
        _explain_feasible_what_if result query_description input_context
      else if py_eq status (VStr "infeasible_query") then
        _explain_infeasible_what_if model result query_description input_context
      else
        Ok (VStr ("What-if analysis status: " ++ py_str status ++ ". "
                  ++ py_str (get result "explanation" (VStr EmptyString))))
  | _ => Raise (no_get what_if_result)
  end.

End Explain.

(* ================================================================== *)
(** ** solver_interface.py: grouping consecutive periods *)
(* ================================================================== *)

Module Grouping.

(** [a + b]. *)
Definition py_add (a b : value) : result value :=
  match as_int a, as_int b with
  | Some x, Some y => Ok (VInt (x + y))
  | _, _ =>
      match a, b with
      | VStr x, VStr y => Ok (VStr (x ++ y))
      | VList x, VList y => Ok (VList (x ++ y)%list)
      | VStr _, _ =>
          Raise (TypeError ("can only concatenate str (not "
                            ++ String double_quote (type_name b)
                            ++ String double_quote ") to str"))
      | VList _, _ =>
          Raise (TypeError ("can only concatenate list (not "
                            ++ String double_quote (type_name b)
                            ++ String double_quote ") to list"))
      | _, _ =>
          Raise (TypeError ("unsupported operand type(s) for +: '" ++ type_name a
                            ++ "' and '" ++ type_name b ++ "'"))
      end
  end.

(** [a - b]. *)
Definition py_sub (a b : value) : result value :=
  match as_int a, as_int b with
  | Some x, Some y => Ok (VInt (x - y))
  | _, _ =>
      Raise (TypeError ("unsupported operand type(s) for -: '" ++ type_name a
                        ++ "' and '" ++ type_name b ++ "'"))
  end.

(** A tuple of subscripts [(a[f1], a[f2], ...)], read in order. *)
Definition fields_of (a : value) (fields : list string) : result (list value) :=
  map_m (subscript a) fields.

(** Hashing a tuple hashes its items in order. *)
Definition hash_tuple (k : list value) : result unit :=
  _ <- map_m hash_value k ;;
  Ok tt.

Fixpoint tuple_eq (a b : list value) : bool :=
  match a, b with
  | [], [] => true
  | x :: a', y :: b' => py_eq x y && tuple_eq a' b'
  | _, _ => false
  end.

(** [any(a.get("period_length", 1) > 1 for a in assignments)] *)
Fixpoint has_multi_period (assignments : list value) : result bool :=
  match assignments with
  | [] => Ok false
  | a :: rest =>
      period_length <- dict_get a "period_length" (VInt 1) ;;
      multi <- Explain.gt_int period_length 1 ;;
      if multi then Ok true else has_multi_period rest
  end.

(** Lines 452-465: keep the first assignment of each
    (course_id, week, day, room_id, period_start). *)
Fixpoint dedupe_loop (assignments : list value) (seen : list (list value))
    (deduplicated : list value) : result (list value) :=
  match assignments with
  | [] => Ok deduplicated
  | assignment :: rest =>
      key <- fields_of assignment
               ["course_id"; "week"; "day"; "room_id"; "period_start"] ;;
      _ <- hash_tuple key ;;
      if existsb (fun k => tuple_eq k key) seen
      then dedupe_loop rest seen deduplicated
      else dedupe_loop rest (seen ++ [key])%list (deduplicated ++ [assignment])%list
  end.

(** The dict [grouped], in insertion order. *)
Definition groups : Type := list (list value * list value).

Fixpoint group_add (key : list value) (assignment : value) (grouped : groups) : groups :=
  match grouped with
  | [] => [(key, [assignment])]
  | (k, group) :: rest =>
      if tuple_eq k key then (k, (group ++ [assignment])%list) :: rest
      else (k, group) :: group_add key assignment rest
  end.

(** Lines 469-481. *)
Fixpoint group_loop (assignments : list value) (grouped : groups) : result groups :=
  match assignments with
  | [] => Ok grouped
  | assignment :: rest =>
      key <- fields_of assignment ["course_id"; "week"; "day"; "room_id"] ;;
      _ <- hash_tuple key ;;
      group_loop rest (group_add key assignment grouped)
  end.

(** Insertion into a list sorted by key, after the entries that are not
    greater: the sort is stable. *)
Fixpoint insert_by_key (x : Z * value) (sorted : list (Z * value)) : list (Z * value) :=
  match sorted with
  | [] => [x]
  | y :: rest =>
      if (fst x <? fst y)%Z then x :: sorted else y :: insert_by_key x rest
  end.

Definition stable_sort (keyed : list (Z * value)) : list (Z * value) :=
  fold_left (fun sorted x => insert_by_key x sorted) keyed [].

Fixpoint numbers (keys : list value) : option (list Z) :=
  match keys with
  | [] => Some []
  | k :: rest =>
      match as_int k, numbers rest with
      | Some z, Some zs => Some (z :: zs)
      | _, _ => None
      end
  end.

(** [group.sort(key=lambda x: x["period_start"])].  The keys are read
    first.  One item needs no comparison.  Numbers are put in stable
    increasing order.  With two or more keys that are not all numbers
    the sort, or else the addition that follows it, raises a TypeError
    whose text depends on the order in which list.sort compares;
    [type_error_text] stands for that text. *)
Definition sort_group (type_error_text : list value -> string) (group : list value)
  : result (list value) :=
  keys <- map_m (fun x => subscript x "period_start") group ;;
  match group with
  | [] | [_] => Ok group
  | _ =>
      match numbers keys with
      | Some zs => Ok (map snd (stable_sort (combine zs group)))
      | None => Raise (TypeError (type_error_text keys))
      end
  end.

(** [x.copy()] of a record. *)
Definition copy (x : value) : dict :=
  match x with
  | VDict d => d
  | _ => []
  end.

Definition close_assignment (current_assignment : dict) (current_start current_end : value)
  : result value :=
  period_length <- py_sub current_end current_start ;;
  Ok (VDict (dict_set "period_length" period_length current_assignment)).

(** Lines 494-506: the loop [for i in range(1, len(group))]. *)
Fixpoint merge_loop (rest : list value) (current_start current_end : value)
    (current_assignment : dict) (merged_assignments : list value)
  : result (list value * value * value * dict) :=
  match rest with
  | [] => Ok (merged_assignments, current_start, current_end, current_assignment)
  | item :: rest' =>
      next_start <- subscript item "period_start" ;;
      next_length <- dict_get item "period_length" (VInt 1) ;;
      if py_eq next_start current_end then
        current_end' <- py_add next_start next_length ;;
        period_length <- py_sub current_end' current_start ;;
        merge_loop rest' current_start current_end'
          (dict_set "period_length" period_length current_assignment)
          merged_assignments
      else
        closed <- close_assignment current_assignment current_start current_end ;;
        current_end' <- py_add next_start next_length ;;
        merge_loop rest' next_start current_end' (copy item)
          (merged_assignments ++ [closed])%list
  end.

(** Lines 485-510: one group. *)
Definition merge_group (type_error_text : list value -> string) (group : list value)
    (merged_assignments : list value) : result (list value) :=
  sorted <- sort_group type_error_text group ;;
  match sorted with
  | [] => Raise (Exception "list index out of range")
  | first :: rest =>
      current_start <- subscript first "period_start" ;;
      first_length <- dict_get first "period_length" (VInt 1) ;;
      current_end <- py_add current_start first_length ;;
      '(merged, current_start', current_end', current_assignment)
         <- merge_loop rest current_start current_end (copy first)
              merged_assignments ;;
      closed <- close_assignment current_assignment current_start' current_end' ;;
      Ok (merged ++ [closed])%list
  end.

Fixpoint merge_groups (type_error_text : list value -> string) (grouped : groups)
    (merged_assignments : list value) : result (list value) :=
  match grouped with
  | [] => Ok merged_assignments
  | (_, group) :: rest =>
      merged <- merge_group type_error_text group merged_assignments ;;
      merge_groups type_error_text rest merged
  end.

Definition _group_consecutive_periods (type_error_text : list value -> string)
    (assignments : list value) (input_json : dict) : result (list value) :=
  match assignments with
  | [] => Ok assignments
  | _ =>
      multi <- has_multi_period assignments ;;
      if multi then dedupe_loop assignments [] []
      else
        grouped <- group_loop assignments [] ;;
        merge_groups type_error_text grouped []
  end.

End Grouping.

(* ================================================================== *)
(** ** explanation_agent.py: blocks of consecutive free periods *)
(* ================================================================== *)

Module Availability.

(** The dict [by_day], in insertion order. *)
Definition days : Type := list (value * list value).

(** [by_day[day].append(period)], after [by_day[day] = []] for a new day. *)
Fixpoint day_add (day period : value) (by_day : days) : days :=
  match by_day with
  | [] => [(day, [period])]
  | (k, periods) :: rest =>
      if py_eq k day then (k, (periods ++ [period])%list) :: rest
      else (k, periods) :: day_add day period rest
  end.

(** Lines 315-321. *)
Fixpoint by_day_loop (available_slots : list value) (by_day : days) : result days :=
  match available_slots with
  | [] => Ok by_day
  | slot :: rest =>
      day <- subscript slot "day" ;;
      period <- subscript slot "period" ;;
      _ <- hash_value day ;;
      by_day_loop rest (day_add day period by_day)
  end.

(** [sorted(periods)].  No item or one item needs no comparison.  Numbers
    are put in stable increasing order.  Two or more items that are not
    all numbers make the sort, or else the first addition of the loop
    that follows it, raise a TypeError whose text depends on the order
    in which the sort compares; [type_error_text] stands for that
    text. *)
Definition sorted (type_error_text : list value -> string) (periods : list value)
  : result (list value) :=
  match periods with
  | [] | [_] => Ok periods
  | _ =>
      match Grouping.numbers periods with
      | Some zs => Ok (map snd (Grouping.stable_sort (combine zs periods)))
      | None => Raise (TypeError (type_error_text periods))
      end
  end.

(** Lines 328-334: the loop [for i in range(1, len(sorted_periods))];
    [previous] is [sorted_periods[i-1]].  [Ok true] is the [return True]
    inside the loop. *)
Fixpoint scan (previous : value) (rest : list value)
    (consecutive_count required_periods : Z) : result bool :=
  match rest with
  | [] => Ok false
  | current :: rest' =>
      expected <- Grouping.py_add previous (VInt 1) ;;
      if py_eq current expected then
        let consecutive_count := (consecutive_count + 1)%Z in
        if (consecutive_count >=? required_periods)%Z then Ok true
        else scan current rest' consecutive_count required_periods
      else scan current rest' 1%Z required_periods
  end.

(** Lines 324-334. *)
Fixpoint days_loop (type_error_text : list value -> string) (by_day : days)
    (required_periods : Z) : result bool :=
  match by_day with
  | [] => Ok false
  | (_, periods) :: rest =>
      sorted_periods <- sorted type_error_text periods ;;
      found <- match sorted_periods with
               | [] => Ok false
               | first :: others => scan first others 1%Z required_periods
               end ;;
      if found then Ok true
      else days_loop type_error_text rest required_periods
  end.

Definition _check_consecutive_availability (type_error_text : list value -> string)
    (available_slots : value) (required_periods : Z) : result bool :=
  slots <- iterate available_slots ;;
  by_day <- by_day_loop slots [] ;;
  days_loop type_error_text by_day required_periods.

End Availability.

(* ================================================================== *)
(** ** Vocabulary of the statements *)
(* ================================================================== *)

(** Minutes from midnight. *)
Definition minutes (hour minute : Z) : Z := (hour * 60 + minute)%Z.

(** The half-open minute intervals [a, b) and [c, d) have a minute in
    common. *)
Definition intervals_overlap (a b c d : Z) : Prop :=
  exists t, (a <= t < b)%Z /\ (c <= t < d)%Z.

(** A time of day written HH:MM. *)
Definition digit (d : Z) : ascii := ascii_of_nat (48 + Z.to_nat d).

Definition two_digits (n : Z) : string :=
  String (digit (n / 10)) (String (digit (n mod 10)) EmptyString).

Definition clock (hour minute : Z) : string :=
  two_digits hour ++ ":" ++ two_digits minute.

Definition valid_clock (hour minute : Z) : Prop :=
  (0 <= hour < 24)%Z /\ (0 <= minute < 60)%Z.

(** [unpack_hour_minute] reads the text of a time back as its hour and
    its minute. *)
Definition clock_reads (hour minute : Z) : bool :=
  match unpack_hour_minute (VStr (clock hour minute)) with
  | Ok (h, m) => (h =? hour)%Z && (m =? minute)%Z
  | _ => false
  end.

(** The term configuration of the lunch-window example: day start 08:00,
    30-minute periods, lunch from 12:00 to 12:30. *)
Definition example_term_config : value :=
  VDict [("day_start_time", VStr "08:00");
         ("period_length_minutes", VInt 30);
         ("lunch_start_time", VStr "12:00");
         ("lunch_end_time", VStr "12:30");
         ("days", VList [VStr "Mon"; VStr "Tue"])].

(** An instance with two courses, each with its instructor. *)
Definition example_instance : dict :=
  [("courses", VList [VDict [("id", VStr "C1"); ("instructor_id", VStr "P1")];
                      VDict [("id", VStr "C2"); ("instructor_id", VStr "P2")]]);
   ("instructors", VList [VDict [("id", VStr "P1")]; VDict [("id", VStr "P2")]]);
   ("term_config", example_term_config)].

(** The fields hold what the class annotates them with: Optional[str]
    and Optional[int]. *)
Definition optional_str (v : value) : bool :=
  match v with
  | VNone | VStr _ => true
  | _ => false
  end.

Definition optional_int (v : value) : bool :=
  match v with
  | VNone | VInt _ => true
  | _ => false
  end.

Definition typed_key (k : slot_key) : bool :=
  let '(k0, k1, k2, k3) := k in
  optional_str k0 && optional_int k1 && optional_str k2 && optional_int k3.

Definition well_typed (c : QueryConstraint) : bool :=
  typed_key (key_of c) && optional_str (instructor_id c).

(** The keys of a slot mapping, in insertion order. *)
Definition keys (m : slot_map) : list slot_key := map fst m.

(** The enforce class and the veto class of the validator's first loop. *)
Definition is_enforce (c : QueryConstraint) : bool :=
  QueryType_in (query_type c) [ENFORCE_TIME_SLOT; ENFORCE_DAY].

Definition is_veto (c : QueryConstraint) : bool :=
  negb (is_enforce c) && QueryType_in (query_type c) [VETO_TIME_SLOT; VETO_DAY].

(** Enforce and veto of the same course, day and period in different
    weeks. *)
Definition example_enforce_week_1 : QueryConstraint :=
  slot_constraint ENFORCE_TIME_SLOT (VStr "C1") (VInt 1) (VStr "Mon") (VInt 3).

Definition example_veto_week_2 : QueryConstraint :=
  slot_constraint VETO_TIME_SLOT (VStr "C1") (VInt 2) (VStr "Mon") (VInt 3).

Definition example_veto_week_1 : QueryConstraint :=
  slot_constraint VETO_TIME_SLOT (VStr "C1") (VInt 1) (VStr "Mon") (VInt 3).

(** *** Reason graphs *)

Definition is_str (v : value) : bool :=
  match v with
  | VStr _ => true
  | _ => false
  end.

(** A well-formed IIS record: its type tag and its description, when
    present, are text.  The id and the in_iis flag may hold anything, and
    any of the four may be missing. *)
Definition well_formed_record (c : dict) : bool :=
  is_str (get c "type" (VStr EmptyString)) && is_str (get c "description" (VStr EmptyString)).

(** The lowercased description of a record, empty when it has none. *)
Definition lowered_description (c : dict) : string :=
  match get c "description" (VStr EmptyString) with
  | VStr s => lower s
  | _ => EmptyString
  end.

(** Both lowercased descriptions contain one and the same keyword of the
    fixed vocabulary. *)
Definition share_keyword (c1 c2 : dict) : Prop :=
  exists keyword,
    In keyword ["course"; "instructor"; "room"; "time"; "week"; "day"]
    /\ contains keyword (lowered_description c1) = true
    /\ contains keyword (lowered_description c2) = true.

Definition share_keywordb (c1 c2 : dict) : bool :=
  existsb (fun keyword => contains keyword (lowered_description c1)
                          && contains keyword (lowered_description c2))
    ["course"; "instructor"; "room"; "time"; "week"; "day"].

(** The unordered pairs of a list, each once, earlier element first. *)
Fixpoint ordered_pairs {A : Type} (l : list A) : list (A * A) :=
  match l with
  | [] => []
  | x :: rest => (map (pair x) rest ++ ordered_pairs rest)%list
  end.

(** The node of the [i]-th record. *)
Definition reason_of (input_context : dict) (i : nat) (c : dict)
  : ExplanationAgent.reason :=
  ExplanationAgent.mkReason
    (get c "id" (ExplanationAgent.default_id i))
    (get c "type" (VStr "unknown"))
    (match ExplanationAgent._constraint_to_reason c input_context with
     | Ok text => text
     | _ => VNone
     end)
    (get c "in_iis" (VBool true)).

(** The edge between the [i]-th and the [j]-th record. *)
Definition edge_of (i : nat) (ci : dict) (j : nat) (cj : dict)
  : ExplanationAgent.edge :=
  ExplanationAgent.mkEdge
    (get ci "id" (ExplanationAgent.default_id i))
    (get cj "id" (ExplanationAgent.default_id j))
    "shares_variables".

(** The edges from record [i] to the records [others] that follow it,
    the first of them at index [j]. *)
Fixpoint edges_to (i : nat) (ci : dict) (j : nat) (others : list dict)
  : list ExplanationAgent.edge :=
  match others with
  | [] => []
  | cj :: rest =>
      ((if share_keywordb ci cj then [edge_of i ci j cj] else [])
       ++ edges_to i ci (S j) rest)%list
  end.

(** All edges among [records], the first of which has index [i]. *)
Fixpoint edges_among (i : nat) (records : list dict) : list ExplanationAgent.edge :=
  match records with
  | [] => []
  | c :: rest => (edges_to i c (S i) rest ++ edges_among (S i) rest)%list
  end.

(** The nodes of [records], the first of which has index [i]. *)
Fixpoint reasons_among (input_context : dict) (i : nat) (records : list dict)
  : list ExplanationAgent.reason :=
  match records with
  | [] => []
  | c :: rest => reason_of input_context i c :: reasons_among input_context (S i) rest
  end.

(** *** What-if orchestration *)

(** An oracle answer whose status is neither feasible_query nor
    infeasible_query, and a solver whose oracle always gives it. *)
Definition example_time_limit_answer : value :=
  VDict [("status", VStr "time_limit");
         ("diagnostics", VDict [("message", VStr "no schedule within the time limit")])].

Definition example_solver : SolverInterface.t :=
  SolverInterface.mkSolverInterface true
    (SolverInterface.mkJulia (fun _ _ => Ok example_time_limit_answer)).

Definition no_traceback (e : exn) : string := EmptyString.

(** *** Sample inputs *)

Definition example_translator : QueryTranslator :=
  mkQueryTranslator
    [("veto_day", "(avoid|not on|no classes on)\s+(\w+day)");
     ("before_time", "before\s+(\d+)")].

Definition other_translator : QueryTranslator := mkQueryTranslator [].

Definition example_assignment_C1 : value :=
  VDict [("course_id", VStr "C1"); ("room_id", VStr "Rm101"); ("week", VInt 1);
         ("day", VStr "Mon"); ("period_start", VInt 3)].

Definition example_assignment_C2 : value :=
  VDict [("course_id", VStr "C2"); ("room_id", VStr "Rm102"); ("week", VInt 2);
         ("day", VStr "Tue"); ("period_start", VInt 5)].

Definition example_schedule : value :=
  VDict [("assignments", VList [example_assignment_C1; example_assignment_C2])].

Definition example_swap_params : dict :=
  [("course_id_1", VStr "C1"); ("course_id_2", VStr "C2");
   ("current_schedule", example_schedule)].

(** A constraint that names a course and an instructor the instance does
    not have. *)
Definition example_unknown_references : QueryConstraint :=
  mkQueryConstraint VETO_INSTRUCTOR_DAY (VStr "does-not-exist") (VStr "P9")
    VNone (VStr "Mon") VNone VNone VNone VNone [].

(** IIS records with missing fields: an empty record and one that has
    only a description. *)
Definition example_iis_with_gaps : list dict :=
  [[("id", VStr "c1"); ("type", VStr "minimality");
    ("description", VStr "obj<=100"); ("in_iis", VBool true)];
   [];
   [("description", VStr "Room capacity in week 2")]].

(** The IIS of the end-to-end scenario. *)
Definition example_iis : list dict :=
  [[("id", VStr "c1"); ("type", VStr "minimality");
    ("description", VStr "obj<=100"); ("in_iis", VBool true)];
   [("id", VStr "c2"); ("type", VStr "query_enforce");
    ("description", VStr "course X on Monday period 3"); ("in_iis", VBool true)]].

(** *** Shapes of translated constraints *)

(** The kinds that reach the validator and the oracle from the structured
    path. *)
Definition atomic_kinds : list QueryType :=
  [ENFORCE_TIME_SLOT; VETO_TIME_SLOT; VETO_DAY; ENFORCE_ROOM;
   ENFORCE_BEFORE_TIME; ENFORCE_AFTER_TIME].

(** A constraint as the structured path builds it: an atomic kind, no
    instructor, no second course, no extra parameters. *)
Definition emitted_shape (c : QueryConstraint) : Prop :=
  In (query_type c) atomic_kinds
  /\ instructor_id c = VNone /\ course_id_2 c = VNone /\ extra_params c = [].

(** The nine declared fields of a serialized constraint, in order. *)
Definition declared_fields (c : QueryConstraint) : dict :=
  [("type", VStr (QueryType_value (query_type c)));
   ("course_id", course_id c);
   ("instructor_id", instructor_id c);
   ("week", week c);
   ("day", day c);
   ("period_start", period_start c);
   ("period_end", period_end c);
   ("room_id", room_id c);
   ("course_id_2", course_id_2 c)].

(** A term configuration whose periods have no length. *)
Definition example_zero_length_config : value :=
  VDict [("day_start_time", VStr "08:00");
         ("period_length_minutes", VInt 0);
         ("days", VList [VStr "Mon"])].

(** [count] consecutive integers, the first of them [first]. *)
Definition consecutive_from (first : Z) (count : nat) : list Z :=
  map (fun k => (first + Z.of_nat k)%Z) (seq 0 count).

(** The errors the last loop of the validator adds for one constraint:
    its course identifier when set and unknown, then its instructor
    identifier when set and unknown. *)
Definition unknown_errors (valid_courses valid_instructors : list value)
    (c : QueryConstraint) : list string :=
  ((if truthy (course_id c)
       && negb (existsb (fun i => py_eq i (course_id c)) valid_courses)
    then [unknown_course (course_id c)] else [])
   ++ (if truthy (instructor_id c)
          && negb (existsb (fun i => py_eq i (instructor_id c)) valid_instructors)
       then [unknown_instructor (instructor_id c)] else []))%list.

(** Two courses that sit in the same slot of the schedule, in different
    rooms. *)
Definition example_shared_slot_schedule : value :=
  VDict [("assignments",
          VList [VDict [("course_id", VStr "C1"); ("room_id", VStr "Rm101");
                        ("week", VInt 1); ("day", VStr "Mon"); ("period_start", VInt 3)];
                 VDict [("course_id", VStr "C2"); ("room_id", VStr "Rm102");
                        ("week", VInt 1); ("day", VStr "Mon"); ("period_start", VInt 3)]])].

Definition example_shared_slot_params : dict :=
  [("course_id_1", VStr "C1"); ("course_id_2", VStr "C2");
   ("current_schedule", example_shared_slot_schedule)].

(** The test of the loop of _find_assignment on one assignment. *)
Definition assigned_to (course : value) (assignment : value) : bool :=
  match assignment with
  | VDict d => py_eq (get d "course_id" VNone) course
  | _ => false
  end.

Definition is_dict (v : value) : bool :=
  match v with
  | VDict _ => true
  | _ => false
  end.

(** *** The free-text path *)

(** One or two decimal digits. *)
Definition one_or_two_digits (g : string) : Prop :=
  (exists c, is_digit c = true /\ g = String c EmptyString)
  \/ (exists c1 c2, is_digit c1 = true /\ is_digit c2 = true
                    /\ g = String c1 (String c2 EmptyString)).

(** The groups of a match of the time pattern: one or two digits, then
    nothing or two digits; the third group is not constrained here. *)
Definition time_groups (m : string * string * string) : Prop :=
  let '(g0, g1, _) := m in
  one_or_two_digits g0
  /\ (g1 = EmptyString
      \/ exists c1 c2, is_digit c1 = true /\ is_digit c2 = true
                       /\ g1 = String c1 (String c2 EmptyString)).

Definition short_day_names : list string :=
  ["Mon"; "Tue"; "Wed"; "Thu"; "Fri"; "Sat"; "Sun"].

(** The id the extraction loops read from an entity. *)
Definition entity_id (entity : value) : value :=
  match entity with
  | VDict d => get d "id" (VStr EmptyString)
  | _ => VNone
  end.

(** An entity record with a text id and no name. *)
Definition nameless_entity (entity : value) : Prop :=
  exists d s, entity = VDict d
              /\ get d "id" (VStr EmptyString) = VStr s
              /\ lookup "name" d = None.

(** A constraint that adds no error of its own: well typed, not of the
    enforce class, and naming only courses and instructors of the
    instance. *)
Definition passes_alone (valid_courses valid_instructors : list value)
    (c : QueryConstraint) : Prop :=
  well_typed c = true
  /\ is_enforce c = false
  /\ (truthy (course_id c) = true -> In (course_id c) valid_courses)
  /\ (truthy (instructor_id c) = true -> In (instructor_id c) valid_instructors).

(** The days of the term configuration of an instance are texts. *)
Definition term_days_are_text (input_data : dict) : Prop :=
  forall days_value days,
    dict_get (get input_data "term_config" (VDict [])) "days" (VList [])
    = Ok days_value ->
    iterate days_value = Ok days ->
    Forall (fun d => is_str d = true) days.

(** *** Explanations *)

(** A well-formed infeasible result: its iis is a list of well-formed
    records and its summary is a record whose count of query constraints,
    when present, is a number. *)
Definition well_formed_infeasible (result : dict) (records : list dict)
    (summary : dict) : Prop :=
  get result "iis" (VList []) = VList (map VDict records)
  /\ Forall (fun c => well_formed_record c = true) records
  /\ get result "iis_summary" (VDict []) = VDict summary
  /\ as_int (get summary "num_query_constraints_in_iis" (VInt 0)) <> None.

(** A narrative model that always fails. *)
Definition failing_model : Explain.Model :=
  Explain.mkModel (fun _ => Raise (Exception "503 service unavailable")).

Definition example_infeasible_result : dict :=
  [("status", VStr "infeasible_query");
   ("iis", VList (map VDict example_iis));
   ("iis_summary", VDict [("minimality_in_iis", VBool true);
                          ("num_query_constraints_in_iis", VInt 1)]);
   ("original_objective", VInt 100)].

(** *** More sample inputs *)

(** A constraint built with keyword arguments beyond the declared ones,
    one of them named like a declared field. *)
Definition example_with_extras : QueryConstraint :=
  mkQueryConstraint VETO_DAY (VStr "C1") VNone VNone (VStr "Mon") VNone VNone VNone
    VNone [("type", VStr "custom"); ("note", VStr "asked by the dean")].

Definition example_zero_length_instance : dict :=
  [("courses", VList [VDict [("id", VStr "C1")]]);
   ("term_config", example_zero_length_config)].

(** That instance reads as: day from 08:00 (480), lunch 12:00-12:30 by
    default, period length 0. *)
Definition example_question : string := "Can C1 avoid Monday and lunch?".

(** *** Grouping of periods *)

(** The number of periods an assignment stands for: its period_length,
    one when it has none. *)
Definition periods_of (a : value) : Z :=
  match a with
  | VDict d =>
      match as_int (get d "period_length" (VInt 1)) with
      | Some z => z
      | None => 0%Z
      end
  | _ => 0%Z
  end.

Definition total_periods (assignments : list value) : Z :=
  fold_right (fun a n => (periods_of a + n)%Z) 0%Z assignments.

(** The first period of an assignment. *)
Definition starts_at (a : value) : option Z :=
  match subscript a "period_start" with
  | Ok v => as_int v
  | _ => None
  end.

(** The fields that tell exact duplicates, and the fields that tell the
    groups in which periods are merged. *)
Definition slot_fields : list string :=
  ["course_id"; "week"; "day"; "room_id"; "period_start"].

Definition group_fields : list string := ["course_id"; "week"; "day"; "room_id"].

Definition same_slot (a b : value) : bool :=
  match Grouping.fields_of a slot_fields, Grouping.fields_of b slot_fields with
  | Ok x, Ok y => Grouping.tuple_eq x y
  | _, _ => false
  end.

Definition same_group (a b : value) : bool :=
  match Grouping.fields_of a group_fields, Grouping.fields_of b group_fields with
  | Ok x, Ok y => Grouping.tuple_eq x y
  | _, _ => false
  end.

(** [subsequence l1 l2]: [l1] is [l2] with some items left out. *)
Inductive subsequence {A : Type} : list A -> list A -> Prop :=
| subsequence_nil : subsequence [] []
| subsequence_skip (x : A) (l1 l2 : list A) :
    subsequence l1 l2 -> subsequence l1 (x :: l2)
| subsequence_keep (x : A) (l1 l2 : list A) :
    subsequence l1 l2 -> subsequence (x :: l1) (x :: l2).

(** [o] is one of the assignments with its period_length written anew. *)
Definition relabels (assignments : list value) (o : value) : Prop :=
  exists d l, In (VDict d) assignments
              /\ o = VDict (dict_set "period_length" (VInt l) d).

(** [y] does not start before [x], and not where [x] ends. *)
Definition separated (x y : value) : Prop :=
  exists sx sy,
    starts_at x = Some sx /\ starts_at y = Some sy /\
    (sx <= sy)%Z /\ sy <> (sx + periods_of x)%Z.

(** An assignment as the solver writes it: a record whose course, week,
    day and room can be hashed and whose first period and length (when
    given) are numbers. *)
Definition is_number (v : value) : bool :=
  match as_int v with
  | Some _ => true
  | None => false
  end.

Definition well_formed_assignment (a : value) : bool :=
  match a with
  | VDict d =>
      match lookup "course_id" d, lookup "week" d, lookup "day" d,
            lookup "room_id" d, lookup "period_start" d with
      | Some c, Some w, Some dy, Some r, Some p =>
          hashable c && hashable w && hashable dy && hashable r
          && is_number p && is_number (get d "period_length" (VInt 1))
      | _, _, _, _, _ => false
      end
  | _ => false
  end.

(** What the loops rely on, in the terms of the code. *)
Definition counted (a : value) : Prop :=
  exists d z, a = VDict d /\ as_int (get d "period_length" (VInt 1)) = Some z.

Definition placed (a : value) : Prop :=
  counted a /\
  (exists key, Grouping.fields_of a slot_fields = Ok key
               /\ Grouping.hash_tuple key = Ok tt) /\
  (exists key, Grouping.fields_of a group_fields = Ok key
               /\ Grouping.hash_tuple key = Ok tt) /\
  (exists p z, subscript a "period_start" = Ok p /\ as_int p = Some z).

Definition members (grouped : Grouping.groups) : list value :=
  List.concat (map snd grouped).

(** [seen] holds the keys of [deduplicated], in order. *)
Definition keyed_by (seen : list (list value)) (deduplicated : list value) : Prop :=
  Forall2 (fun x k => Grouping.fields_of x slot_fields = Ok k) deduplicated seen.

Definition relabelled (d ca : dict) : Prop :=
  ca = d \/ exists l, ca = dict_set "period_length" (VInt l) d.

(** Keys that are equal for Python have one normal form: [True] and [1]
    are the same key. *)
Definition norm (v : value) : value :=
  match v with
  | VBool b => VInt (if b then 1 else 0)
  | _ => v
  end.

Definition keyed (n : list value) (a : value) : Prop :=
  exists key,
    Grouping.fields_of a group_fields = Ok key /\
    Grouping.hash_tuple key = Ok tt /\
    map norm key = n.

Definition apart (x y : value) : Prop :=
  same_group x y = true -> separated x y.

Definition chained (l : list value) : Prop :=
  forall l1 x y l2, l = (l1 ++ x :: y :: l2)%list -> apart x y.

Definition ends_with (l : list value) (x : value) : Prop :=
  exists l1, l = (l1 ++ [x])%list.

Definition key_le (a b : Z * value) : Prop := (fst a <= fst b)%Z.

Definition start_le (a b : value) : Prop :=
  exists za zb, starts_at a = Some za /\ starts_at b = Some zb /\ (za <= zb)%Z.

Definition group_keys (grouped : Grouping.groups) : list (list value) :=
  map (fun kg => map norm (fst kg)) grouped.

Definition well_grouped (grouped : Grouping.groups) : Prop :=
  Forall (fun kg => Forall (keyed (map norm (fst kg))) (snd kg)) grouped /\
  NoDup (group_keys grouped).

Definition example_period (course : string) (start length : Z) : value :=
  VDict [("course_id", VStr course); ("week", VInt 1); ("day", VStr "Mon");
         ("room_id", VStr "R1"); ("period_start", VInt start);
         ("period_length", VInt length)].

(** Single periods of two courses, out of order, one of them twice. *)
Definition example_single_periods : list value :=
  [example_period "C1" 4 1; example_period "C2" 7 1; example_period "C1" 3 1;
   example_period "C1" 6 1; example_period "C1" 5 1; example_period "C1" 9 1;
   example_period "C1" 3 1].

(** Assignments that already span their periods, one of them twice. *)
Definition example_long_periods : list value :=
  [example_period "C1" 3 2; example_period "C2" 5 1; example_period "C1" 3 2].

(** *** Consecutive availability *)

(** [slot] offers period [p] on [day]. *)
Definition slot_on (day : value) (p : Z) (slot : value) : Prop :=
  exists d v,
    subscript slot "day" = Ok d /\ py_eq day d = true /\
    subscript slot "period" = Ok v /\ as_int v = Some p.

(** The periods [p], [p+1], ..., [p+m-1] of [day] are all offered. *)
Definition free_block (available_slots : list value) (day : value) (p m : Z) : Prop :=
  forall j, (0 <= j < m)%Z ->
    exists slot, In slot available_slots /\ slot_on day (p + j) slot.

(** A slot with a day that can be hashed and a number as period. *)
Definition well_formed_slot (slot : value) : bool :=
  match subscript slot "day", subscript slot "period" with
  | Ok d, Ok v => hashable d && is_number v
  | _, _ => false
  end.

(** The day, up to Python's equality of keys, and the period of a slot. *)
Definition slot_pair (slot : value) : option (value * Z) :=
  match subscript slot "day", subscript slot "period" with
  | Ok d, Ok v =>
      match as_int v with
      | Some z => Some (norm d, z)
      | None => None
      end
  | _, _ => None
  end.

(** The periods filed under the key [k], in the order of the slots. *)
Fixpoint periods_on (k : value) (slots : list value) : list value :=
  match slots with
  | [] => []
  | slot :: rest =>
      match subscript slot "day", subscript slot "period" with
      | Ok d, Ok v => if py_eq k d then v :: periods_on k rest else periods_on k rest
      | _, _ => periods_on k rest
      end
  end.

Definition readable (slot : value) : Prop :=
  exists d v,
    subscript slot "day" = Ok d /\ subscript slot "period" = Ok v /\
    hashable d = true.

Definition day_keys (by_day : Availability.days) : list value :=
  map (fun kp => norm (fst kp)) by_day.

Definition filed (done : list value) (by_day : Availability.days) : Prop :=
  Forall (fun kp => hashable (fst kp) = true
                    /\ snd kp = periods_on (fst kp) done) by_day.

Definition covered (done : list value) (by_day : Availability.days) : Prop :=
  forall slot d,
    In slot done -> subscript slot "day" = Ok d ->
    exists kp, In kp by_day /\ py_eq (fst kp) d = true.

(** The loop of [Availability.scan] on numbers. *)
Fixpoint scan_numbers (previous : Z) (rest : list Z)
    (consecutive_count required_periods : Z) : bool :=
  match rest with
  | [] => false
  | current :: rest' =>
      if (current =? previous + 1)%Z then
        if (consecutive_count + 1 >=? required_periods)%Z then true
        else scan_numbers current rest' (consecutive_count + 1) required_periods
      else scan_numbers current rest' 1 required_periods
  end.

Definition number_of (v : value) (z : Z) : Prop := as_int v = Some z.

(** One day of [Availability.days_loop]. *)
Definition day_result (type_error_text : list value -> string)
    (required_periods : Z) (periods : list value) : result bool :=
  sorted_periods <- Availability.sorted type_error_text periods ;;
  match sorted_periods with
  | [] => Ok false
  | first :: others => Availability.scan first others 1%Z required_periods
  end.

Definition example_slot (day : string) (period : Z) : value :=
  VDict [("day", VStr day); ("period", VInt period)].

(** Monday 3, 4 and 5, given out of order, and one period on Tuesday. *)
Definition example_slots : list value :=
  [example_slot "Mon" 3; example_slot "Tue" 4; example_slot "Mon" 5;
   example_slot "Mon" 4].

(** *** Members of a dict and exact error lists *)

(** Two dicts with the same members: under every key the same value, or
    nothing in both.  The order of the members does not count. *)
Definition same_members (d d' : dict) : Prop :=
  forall k, lookup k d = lookup k d'.

(** The parameters of a veto_day query, and the sample instance, with
    their members in another order. *)
Definition example_veto_day_params : dict :=
  [("instructor_id", VStr "P1"); ("day", VStr "Mon")].

Definition example_veto_day_params_reordered : dict :=
  [("day", VStr "Mon"); ("instructor_id", VStr "P1")].

Definition example_instance_reordered : dict :=
  [("term_config", example_term_config);
   ("instructors", VList [VDict [("id", VStr "P1")]; VDict [("id", VStr "P2")]]);
   ("courses", VList [VDict [("id", VStr "C1"); ("instructor_id", VStr "P1")];
                      VDict [("id", VStr "C2"); ("instructor_id", VStr "P2")]])].

(** The keys of a sequence without repeats, each at the place where it
    comes first; [seen] holds the keys met so far. *)
Fixpoint distinct_keys (keys seen : list slot_key) : list slot_key :=
  match keys with
  | [] => []
  | k :: rest =>
      if existsb (fun s => key_eq s k) seen then distinct_keys rest seen
      else k :: distinct_keys rest (seen ++ [k])%list
  end.

(** The contradiction errors of a constraint sequence: one message for
    each distinct key of an enforce-class constraint, in the order in
    which these keys come first, that is also the key of a veto-class
    constraint. *)
Definition expected_contradictions (cs : list QueryConstraint) : list string :=
  let enforce_keys := map key_of (filter is_enforce cs) in
  let veto_keys := map key_of (filter is_veto cs) in
  map contradiction_message
    (filter (fun k => existsb (fun v => key_eq v k) veto_keys)
            (distinct_keys enforce_keys [])).

(* ================================================================== *)
(** ** Properties of the translator *)
(* ================================================================== *)

Lemma QueryType_of_value (q : QueryType) : QueryType_of (QueryType_value q) = Some q.
Proof. destruct q; reflexivity. Qed.

Lemma QueryType_eqb_eq (a b : QueryType) : QueryType_eqb a b = true <-> a = b.
Proof.
  split.
  - destruct a, b; simpl; intros H; try reflexivity; discriminate H.
  - intros ->. destruct b; reflexivity.
Qed.

(** Reduce the dispatch of [parse_structured_query] on a known kind. *)
Ltac dispatch q :=
  unfold parse_structured_query;
  change (QueryType_of _) with (QueryType_of (QueryType_value q));
  rewrite (QueryType_of_value q);
  cbv [QueryType_eqb QueryType_value String.eqb Ascii.eqb Bool.eqb].

(** C10: the kinds of the enumeration that have no expansion branch
    (enforce_day, enforce_consecutive, veto_room, veto_lunch, swap_rooms)
    translate to the empty constraint sequence, without raising, for any
    parameters and any instance. *)
Theorem unexpanded_kinds_translate_to_nothing :
  forall (self : QueryTranslator) (fuel : nat) (params input_data : dict),
    parse_structured_query self fuel "enforce_day" params input_data = Ok []
    /\ parse_structured_query self fuel "enforce_consecutive" params input_data = Ok []
    /\ parse_structured_query self fuel "veto_room" params input_data = Ok []
    /\ parse_structured_query self fuel "veto_lunch" params input_data = Ok []
    /\ parse_structured_query self fuel "swap_rooms" params input_data = Ok [].
Proof.
  intros self fuel params input_data.
  repeat apply conj; reflexivity.
Qed.

(** *** Swaps *)

Lemma py_eq_None_l (v : value) : py_eq VNone v = true -> v = VNone.
Proof. destruct v; simpl; intros H; try discriminate H; reflexivity. Qed.

(** [_find_assignment] answers None, or the first assignment of the
    schedule whose course_id equals the one asked for; that assignment is
    a non-empty dict. *)
Lemma find_assignment_loop_result (c : value) (items : list value) (a : value) :
  truthy c = true ->
  find_assignment_loop c items = Ok a ->
  a = VNone \/
  (truthy a = true /\
   exists before after x,
     items = (before ++ a :: after)%list /\
     dict_get a "course_id" VNone = Ok x /\ py_eq x c = true /\
     Forall (fun b => exists y, dict_get b "course_id" VNone = Ok y
                                /\ py_eq y c = false) before).
Proof.
  intros Hc. induction items as [|b rest IH]; simpl.
  - intros [= <-]. now left.
  - destruct (dict_get b "course_id" VNone) as [x| |] eqn:Hx; simpl; try discriminate.
    destruct (py_eq x c) eqn:Heq.
    + intros [= <-]. right. split.
      * destruct b; simpl in Hx; try discriminate Hx.
        destruct d as [|kv d]; [|reflexivity].
        injection Hx as <-. apply py_eq_None_l in Heq. subst c. discriminate Hc.
      * exists [], rest, x. repeat split; auto.
    + intros H. destruct (IH H) as [->|[Ht (before & after & y & -> & Hy & Hyc & Hall)]].
      * now left.
      * right. split; [exact Ht|].
        exists (b :: before), after, y. repeat split; auto.
        constructor; [exists x; auto | exact Hall].
Qed.

Lemma find_assignment_truthy (c schedule a : value) :
  truthy c = true -> _find_assignment c schedule = Ok a ->
  a <> VNone -> truthy a = true.
Proof.
  unfold _find_assignment. intros Hc H Hne.
  destruct (dict_get schedule "assignments" (VList [])) as [v| |]; simpl in H;
    try discriminate H.
  destruct (iterate v) as [items| |]; simpl in H; try discriminate H.
  destruct (find_assignment_loop_result c items a Hc H) as [->|[Ht _]];
    [contradiction | exact Ht].
Qed.

Lemma find_assignment_loop_find (course : value) (items : list value) :
  Forall (fun a => is_dict a = true) items ->
  find_assignment_loop course items
  = Ok (match find (assigned_to course) items with
        | Some a => a
        | None => VNone
        end).
Proof.
  induction 1 as [|a rest Ha _ IH]; simpl; [reflexivity|].
  destruct a; try discriminate Ha. simpl.
  destruct (py_eq (get d "course_id" VNone) course); [reflexivity|exact IH].
Qed.

Lemma find_assignment_in_schedule (course : value) (schedule : dict)
    (items : list value) :
  get schedule "assignments" (VList []) = VList items ->
  Forall (fun a => is_dict a = true) items ->
  _find_assignment course (VDict schedule)
  = Ok (match find (assigned_to course) items with
        | Some a => a
        | None => VNone
        end).
Proof.
  intros Hitems Hall. unfold _find_assignment. cbn [dict_get bind].
  rewrite Hitems. cbn [iterate bind]. now apply find_assignment_loop_find.
Qed.

Lemma swap_from_schedule :
  forall (self : QueryTranslator) (fuel : nat) (params input_data : dict)
         (A B : value) (schedule : dict) (items : list value),
    get params "course_id_1" VNone = A ->
    get params "course_id_2" VNone = B ->
    truthy A = true -> truthy B = true ->
    get params "current_schedule" (VDict []) = VDict schedule ->
    get schedule "assignments" (VList []) = VList items ->
    Forall (fun a => is_dict a = true) items ->
    (forall (a1 a2 : dict) (wA dA pA wB dB pB : value),
        find (assigned_to A) items = Some (VDict a1) ->
        find (assigned_to B) items = Some (VDict a2) ->
        lookup "week" a1 = Some wA -> lookup "day" a1 = Some dA ->
        lookup "period_start" a1 = Some pA ->
        lookup "week" a2 = Some wB -> lookup "day" a2 = Some dB ->
        lookup "period_start" a2 = Some pB ->
        parse_structured_query self fuel "swap_time_slots" params input_data
        = Ok [mkQueryConstraint ENFORCE_TIME_SLOT A VNone wB dB pB
                VNone VNone VNone [];
              mkQueryConstraint VETO_TIME_SLOT A VNone wA dA pA
                VNone VNone VNone [];
              mkQueryConstraint ENFORCE_TIME_SLOT B VNone wA dA pA
                VNone VNone VNone [];
              mkQueryConstraint VETO_TIME_SLOT B VNone wB dB pB
                VNone VNone VNone []])
    /\ (find (assigned_to A) items = None \/ find (assigned_to B) items = None ->
        parse_structured_query self fuel "swap_time_slots" params input_data
        = Raise NoCurrentAssignment).
Proof.
  intros self fuel params input_data A B schedule items HA HB HtA HtB Hs Hitems Hall.
  pose proof (find_assignment_in_schedule A schedule items Hitems Hall) as H1.
  pose proof (find_assignment_in_schedule B schedule items Hitems Hall) as H2.
  rewrite <- Hs in H1, H2.
  split.
  - intros a1 a2 wA dA pA wB dB pB F1 F2 HwA HdA HpA HwB HdB HpB.
    rewrite F1 in H1. rewrite F2 in H2.
    dispatch SWAP_TIME_SLOTS.
    rewrite HA, HB, HtA, HtB. simpl negb. simpl orb. cbv iota.
    rewrite H1, H2. unfold bind at 1 2.
    rewrite (find_assignment_truthy A _ (VDict a1) HtA H1) by discriminate.
    rewrite (find_assignment_truthy B _ (VDict a2) HtB H2) by discriminate.
    simpl negb. simpl orb. cbv iota.
    unfold subscript. rewrite HwA, HdA, HpA, HwB, HdB, HpB. reflexivity.
  - intros Hnone.
    dispatch SWAP_TIME_SLOTS.
    rewrite HA, HB, HtA, HtB. simpl negb. simpl orb. cbv iota.
    rewrite H1, H2. unfold bind at 1 2.
    destruct Hnone as [-> | ->]; simpl truthy; simpl negb.
    + reflexivity.
    + rewrite orb_true_r. reflexivity.
Qed.

(** C1: a swap_time_slots query for courses A and B yields exactly four
    constraints, in this order: enforce A into B's current
    (week, day, period_start), veto A from its own current slot, enforce B
    into A's current slot, veto B from its own current slot; every other
    field of the four is None.  The current slot of a course is that of
    the first assignment of the caller-supplied current schedule whose
    course_id equals the course; when the schedule has no such assignment
    for A or for B the translation fails with NoCurrentAssignment. *)
Theorem swap_time_slots_decomposition :
  forall (self : QueryTranslator) (fuel : nat) (params input_data : dict)
         (A B : value) (schedule : dict) (items : list value),
    get params "course_id_1" VNone = A ->
    get params "course_id_2" VNone = B ->
    truthy A = true -> truthy B = true ->
    get params "current_schedule" (VDict []) = VDict schedule ->
    get schedule "assignments" (VList []) = VList items ->
    Forall (fun a => is_dict a = true) items ->
    (forall (a1 a2 : dict) (wA dA pA wB dB pB : value),
        find (assigned_to A) items = Some (VDict a1) ->
        find (assigned_to B) items = Some (VDict a2) ->
        lookup "week" a1 = Some wA -> lookup "day" a1 = Some dA ->
        lookup "period_start" a1 = Some pA ->
        lookup "week" a2 = Some wB -> lookup "day" a2 = Some dB ->
        lookup "period_start" a2 = Some pB ->
        parse_structured_query self fuel "swap_time_slots" params input_data
        = Ok [mkQueryConstraint ENFORCE_TIME_SLOT A VNone wB dB pB
                VNone VNone VNone [];
              mkQueryConstraint VETO_TIME_SLOT A VNone wA dA pA
                VNone VNone VNone [];
              mkQueryConstraint ENFORCE_TIME_SLOT B VNone wA dA pA
                VNone VNone VNone [];
              mkQueryConstraint VETO_TIME_SLOT B VNone wB dB pB
                VNone VNone VNone []])
    /\ (find (assigned_to A) items = None \/ find (assigned_to B) items = None ->
        parse_structured_query self fuel "swap_time_slots" params input_data
        = Raise NoCurrentAssignment).
Proof. exact swap_from_schedule. Qed.

(** *** Fuel *)

Lemma lunch_loop_more_fuel :
  forall fuel period_length ls le cur idx acc,
    lunch_loop fuel period_length ls le cur idx acc <> OutOfFuel ->
    forall fuel', (fuel <= fuel')%nat ->
      lunch_loop fuel' period_length ls le cur idx acc
      = lunch_loop fuel period_length ls le cur idx acc.
Proof.
  induction fuel as [|fuel IH]; intros pl ls le cur idx acc Hne fuel' Hle.
  - exfalso. apply Hne. reflexivity.
  - destruct fuel' as [|fuel']; [lia|].
    simpl in *.
    destruct (cur <? le)%Z; [|reflexivity].
    destruct (int_add cur pl) as [pe| |]; simpl in *; try reflexivity.
    apply IH; [exact Hne | lia].
Qed.

Lemma get_lunch_periods_more_fuel :
  forall fuel term_config,
    _get_lunch_periods fuel term_config <> OutOfFuel ->
    forall fuel', (fuel <= fuel')%nat ->
      _get_lunch_periods fuel' term_config = _get_lunch_periods fuel term_config.
Proof.
  unfold _get_lunch_periods. intros fuel cfg Hne fuel' Hle.
  destruct (lunch_window cfg) as [[[[start ls] le] pl]| |]; simpl in *;
    try reflexivity.
  apply lunch_loop_more_fuel; assumption.
Qed.

Lemma parse_more_fuel :
  forall self self' fuel query_type params input_data,
    parse_structured_query self fuel query_type params input_data <> OutOfFuel ->
    forall fuel', (fuel <= fuel')%nat ->
      parse_structured_query self' fuel' query_type params input_data
      = parse_structured_query self fuel query_type params input_data.
Proof.
  intros self self' fuel qt params input_data Hne fuel' Hle.
  unfold parse_structured_query in *.
  destruct (QueryType_of qt) as [q|]; [|reflexivity].
  destruct q;
    cbv [QueryType_eqb QueryType_value String.eqb Ascii.eqb Bool.eqb] in *;
    try reflexivity.
  destruct (_get_lunch_periods fuel (get input_data "term_config" (VDict [])))
    as [ps| |] eqn:Hps.
  - assert (Hn : _get_lunch_periods fuel (get input_data "term_config" (VDict []))
                 <> OutOfFuel) by (rewrite Hps; discriminate).
    rewrite (get_lunch_periods_more_fuel fuel _ Hn fuel' Hle), Hps. reflexivity.
  - assert (Hn : _get_lunch_periods fuel (get input_data "term_config" (VDict []))
                 <> OutOfFuel) by (rewrite Hps; discriminate).
    rewrite (get_lunch_periods_more_fuel fuel _ Hn fuel' Hle), Hps. reflexivity.
  - exfalso. apply Hne. reflexivity.
Qed.

Lemma same_members_get (d d' : dict) :
  same_members d d' -> forall k dflt, get d k dflt = get d' k dflt.
Proof. intros H k dflt. unfold get. now rewrite (H k). Qed.

Lemma parse_reads_members :
  forall (self : QueryTranslator) (fuel : nat) (query_type : string)
         (params params' input_data input_data' : dict),
    same_members params params' ->
    same_members input_data input_data' ->
    parse_structured_query self fuel query_type params input_data
    = parse_structured_query self fuel query_type params' input_data'.
Proof.
  intros self fuel qt params params' input_data input_data' Hp Hi.
  pose proof (same_members_get _ _ Hp) as Gp.
  pose proof (same_members_get _ _ Hi) as Gi.
  unfold parse_structured_query, courses_of_instructor.
  repeat rewrite Gp. repeat rewrite Gi. reflexivity.
Qed.

Lemma parse_outcome_of_members :
  forall (self1 self2 : QueryTranslator) (fuel1 fuel2 : nat)
         (query_type : string) (params1 params2 input_data1 input_data2 : dict),
    same_members params1 params2 ->
    same_members input_data1 input_data2 ->
    parse_structured_query self1 fuel1 query_type params1 input_data1 <> OutOfFuel ->
    parse_structured_query self2 fuel2 query_type params2 input_data2 <> OutOfFuel ->
    parse_structured_query self1 fuel1 query_type params1 input_data1
    = parse_structured_query self2 fuel2 query_type params2 input_data2.
Proof.
  intros self1 self2 fuel1 fuel2 qt p1 p2 i1 i2 Hp Hi H1 H2.
  rewrite <- (parse_more_fuel self1 self1 fuel1 qt p1 i1 H1
                (Nat.max fuel1 fuel2)) by lia.
  rewrite <- (parse_more_fuel self2 self1 fuel2 qt p2 i2 H2
                (Nat.max fuel1 fuel2)) by lia.
  now apply parse_reads_members.
Qed.

Lemma reordered_same_members (d d' : dict) :
  Permutation d d' -> NoDup (map fst d) -> same_members d d'.
Proof.
  induction 1 as [|[k v] l l' Hperm IH|[k1 v1] [k2 v2] l|l l' l'' H1 IH1 H2 IH2];
    intros Hnd key.
  - reflexivity.
  - simpl in *. inversion Hnd as [|? ? Hn Hnd']; subst. now rewrite (IH Hnd' key).
  - simpl in *. inversion Hnd as [|? ? Hnotin Hnd']; subst.
    destruct (String.eqb key k1) eqn:E1; destruct (String.eqb key k2) eqn:E2;
      try reflexivity.
    apply String.eqb_eq in E1, E2. subst. exfalso. apply Hnotin. now left.
  - rewrite (IH1 Hnd key). apply IH2.
    apply (Permutation_NoDup (Permutation_map fst H1) Hnd).
Qed.

(** X26: a structured-query translation reads its parameters and the
    instance only through the value stored under each top-level key.
    Two runs whose parameters, and whose instances, hold the same value
    under every key (for instance the same JSON object with its members
    in another order), on whatever translator object and however long
    each run is allowed to take, end the same way once both end: the
    same ordered constraint sequence, kind by kind and field by field,
    or the same exception. *)
Theorem translation_reads_only_members :
  forall (self1 self2 : QueryTranslator) (fuel1 fuel2 : nat)
         (query_type : string) (params1 params2 input_data1 input_data2 : dict),
    same_members params1 params2 ->
    same_members input_data1 input_data2 ->
    parse_structured_query self1 fuel1 query_type params1 input_data1 <> OutOfFuel ->
    parse_structured_query self2 fuel2 query_type params2 input_data2 <> OutOfFuel ->
    parse_structured_query self1 fuel1 query_type params1 input_data1
    = parse_structured_query self2 fuel2 query_type params2 input_data2.
Proof. exact parse_outcome_of_members. Qed.

(** *** Lunch periods *)

Lemma lunch_loop_spec :
  forall fuel period_length n ls le cur idx acc,
    as_int period_length = Some n -> (0 < n)%Z ->
    (Z.to_nat (le - cur) < fuel)%nat ->
    exists tail,
      lunch_loop fuel period_length ls le cur idx acc = Ok (acc ++ tail)%list
      /\ (forall i, In i tail <->
                    (idx <= i /\ cur + (i - idx) * n < le
                     /\ cur + (i - idx + 1) * n > ls)%Z)
      /\ NoDup tail.
Proof.
  induction fuel as [|fuel IH]; intros pl n ls le cur idx acc Hpl Hn Hfuel; [lia|].
  simpl. destruct (cur <? le)%Z eqn:Hlt.
  - apply Z.ltb_lt in Hlt.
    unfold int_add. rewrite Hpl. simpl.
    destruct (IH pl n ls le (cur + n)%Z (idx + 1)%Z
                (if (cur + n >? ls)%Z && true then (acc ++ [idx])%list else acc)
                Hpl Hn ltac:(lia)) as (tail & Hrun & Hin & Hnd).
    rewrite Hrun. rewrite andb_true_r in *.
    destruct (cur + n >? ls)%Z eqn:Hov.
    + exists (idx :: tail). split; [|split].
      * rewrite <- app_assoc. reflexivity.
      * intros i. simpl. rewrite Hin. apply Z.gtb_lt in Hov. split.
        -- intros [<- | (H1 & H2 & H3)].
           ++ split; [lia|]. split; nia.
           ++ replace (i - idx)%Z with (i - (idx + 1) + 1)%Z by lia.
              split; [lia|]. split; nia.
        -- intros (H1 & H2 & H3).
           destruct (Z.eq_dec idx i) as [->|Hne]; [now left|right].
           split; [lia|]. split; nia.
      * constructor; [|exact Hnd]. rewrite Hin. lia.
    + exists tail. split; [reflexivity|]. split; [|exact Hnd].
      intros i. rewrite Hin.
      assert (Hov' : (cur + n <= ls)%Z).
      { destruct (Z.gtb_spec (cur + n) ls); [discriminate|lia]. }
      split.
      * intros (H1 & H2 & H3). split; [lia|]. split; nia.
      * intros (H1 & H2 & H3).
        destruct (Z.eq_dec idx i) as [->|Hne].
        -- nia.
        -- split; [lia|]. split; nia.
  - exists []. rewrite app_nil_r. split; [reflexivity|]. split; [|constructor].
    apply Z.ltb_ge in Hlt. intros i. simpl. split; [tauto|].
    intros (H1 & H2 & H3). nia.
Qed.

(** With a period length of zero or less the loop never leaves a day
    that starts before the end of lunch. *)
Lemma lunch_loop_never_ends :
  forall fuel period_length n ls le cur idx acc,
    as_int period_length = Some n -> (n <= 0)%Z -> (cur < le)%Z ->
    lunch_loop fuel period_length ls le cur idx acc = OutOfFuel.
Proof.
  induction fuel as [|fuel IH]; intros pl n ls le cur idx acc Hpl Hn Hlt;
    [reflexivity|].
  simpl. destruct (Z.ltb_spec cur le) as [_|Hge]; [|lia].
  unfold int_add. rewrite Hpl. simpl.
  apply (IH pl n); [exact Hpl | exact Hn | lia].
Qed.

Lemma consecutive_from_S (first : Z) (count : nat) :
  consecutive_from first (S count) = first :: consecutive_from (first + 1) count.
Proof.
  unfold consecutive_from. simpl. rewrite Z.add_0_r. f_equal.
  rewrite <- seq_shift, map_map. apply map_ext. intros k. lia.
Qed.

Lemma length_consecutive_from (first : Z) (count : nat) :
  List.length (consecutive_from first count) = count.
Proof. unfold consecutive_from. now rewrite length_map, length_seq. Qed.

(** Once a period reaches past the start of lunch, every later period of
    the loop is a lunch period. *)
Lemma lunch_loop_block_after_start :
  forall fuel period_length n ls le cur idx acc out,
    as_int period_length = Some n -> (0 < n)%Z -> (cur + n > ls)%Z ->
    lunch_loop fuel period_length ls le cur idx acc = Ok out ->
    exists count, out = (acc ++ consecutive_from idx count)%list.
Proof.
  induction fuel as [|fuel IH]; intros pl n ls le cur idx acc out Hpl Hn Hpast H;
    [discriminate H|].
  simpl in H. destruct (cur <? le)%Z eqn:Hlt.
  - unfold int_add in H. rewrite Hpl in H. simpl in H.
    assert (Hgt : (cur + n >? ls)%Z = true) by (apply Z.gtb_lt; lia).
    rewrite Hgt in H. simpl in H.
    destruct (IH pl n ls le (cur + n)%Z (idx + 1)%Z (acc ++ [idx])%list out
                Hpl Hn ltac:(lia) H) as (count & ->).
    exists (S count). rewrite consecutive_from_S, <- app_assoc. reflexivity.
  - injection H as <-. exists 0%nat. now rewrite app_nil_r.
Qed.

Lemma lunch_loop_block :
  forall fuel period_length n ls le cur idx acc out,
    as_int period_length = Some n -> (0 < n)%Z ->
    lunch_loop fuel period_length ls le cur idx acc = Ok out ->
    exists first count, out = (acc ++ consecutive_from first count)%list.
Proof.
  induction fuel as [|fuel IH]; intros pl n ls le cur idx acc out Hpl Hn H;
    [discriminate H|].
  destruct (Z_gt_dec (cur + n) ls) as [Hpast|Hnot].
  - destruct (lunch_loop_block_after_start (S fuel) pl n ls le cur idx acc out
                Hpl Hn Hpast H) as (count & ->).
    now exists idx, count.
  - simpl in H. destruct (cur <? le)%Z eqn:Hlt.
    + unfold int_add in H. rewrite Hpl in H. simpl in H.
      assert (Hgt : (cur + n >? ls)%Z = false).
      { destruct (Z.gtb_spec (cur + n) ls); [lia|reflexivity]. }
      rewrite Hgt in H. simpl in H.
      exact (IH pl n ls le (cur + n)%Z (idx + 1)%Z acc out Hpl Hn H).
    + injection H as <-. exists idx, 0%nat. now rewrite app_nil_r.
Qed.

Lemma all_clocks_read :
  forallb (fun h => forallb (fun m => clock_reads (Z.of_nat h) (Z.of_nat m))
                            (seq 0 60))
          (seq 0 24) = true.
Proof. vm_compute. reflexivity. Qed.

(** [map(int, text.split(":"))] reads a time written HH:MM back as its
    hour and its minute. *)
Lemma unpack_clock (hour minute : Z) :
  valid_clock hour minute ->
  unpack_hour_minute (VStr (clock hour minute)) = Ok (hour, minute).
Proof.
  intros [Hh Hm].
  pose proof all_clocks_read as H. rewrite forallb_forall in H.
  specialize (H (Z.to_nat hour)). rewrite forallb_forall in H.
  assert (Hin : In (Z.to_nat hour) (seq 0 24)) by (apply in_seq; lia).
  specialize (H Hin (Z.to_nat minute)).
  assert (Hin' : In (Z.to_nat minute) (seq 0 60)) by (apply in_seq; lia).
  specialize (H Hin'). rewrite !Z2Nat.id in H by lia.
  unfold clock_reads in H.
  destruct (unpack_hour_minute (VStr (clock hour minute))) as [[h m]| |];
    try discriminate H.
  apply andb_true_iff in H. destruct H as [H1 H2].
  apply Z.eqb_eq in H1, H2. now subst.
Qed.

Lemma lunch_window_of_clocks (cfg : dict) (sh sm lh lm eh em : Z)
    (period_length : value) :
  get cfg "day_start_time" (VStr "08:00") = VStr (clock sh sm) ->
  get cfg "lunch_start_time" (VStr "12:00") = VStr (clock lh lm) ->
  get cfg "lunch_end_time" (VStr "12:30") = VStr (clock eh em) ->
  get cfg "period_length_minutes" (VInt 30) = period_length ->
  valid_clock sh sm -> valid_clock lh lm -> valid_clock eh em ->
  lunch_window (VDict cfg)
  = Ok (minutes sh sm, minutes lh lm, minutes eh em, period_length).
Proof.
  intros Hs Hl He Hp Vs Vl Ve. unfold lunch_window. cbn [dict_get bind].
  rewrite Hs, Hl, He, Hp.
  rewrite (unpack_clock _ _ Vs), (unpack_clock _ _ Vl), (unpack_clock _ _ Ve).
  reflexivity.
Qed.

Lemma overlap_test (cur n ls le : Z) :
  (0 < n)%Z -> (ls < le)%Z ->
  ((cur < le /\ cur + n > ls)%Z <-> intervals_overlap cur (cur + n) ls le).
Proof.
  intros Hn Hl. unfold intervals_overlap. split.
  - intros [H1 H2]. exists (Z.max cur ls). lia.
  - intros (t & H1 & H2). lia.
Qed.

Lemma no_lunch_expansion :
  forall (self : QueryTranslator) (params input_data : dict) (C : value)
         (cfg : dict) (sh sm lh lm eh em : Z) (period_length : value) (n : Z)
         (days : list value),
    get params "course_id" VNone = C -> truthy C = true ->
    get input_data "term_config" (VDict []) = VDict cfg ->
    get cfg "day_start_time" (VStr "08:00") = VStr (clock sh sm) ->
    get cfg "lunch_start_time" (VStr "12:00") = VStr (clock lh lm) ->
    get cfg "lunch_end_time" (VStr "12:30") = VStr (clock eh em) ->
    valid_clock sh sm -> valid_clock lh lm -> valid_clock eh em ->
    (minutes lh lm < minutes eh em)%Z ->
    get cfg "period_length_minutes" (VInt 30) = period_length ->
    as_int period_length = Some n -> (0 < n)%Z ->
    iterate (get cfg "days" (VList [])) = Ok days ->
    exists (lunch_periods : list Z) (fuel0 : nat),
      (forall i, In i lunch_periods <->
         (0 <= i)%Z /\
         intervals_overlap (minutes sh sm + i * n) (minutes sh sm + (i + 1) * n)
           (minutes lh lm) (minutes eh em))
      /\ NoDup lunch_periods
      /\ (exists first,
            lunch_periods = consecutive_from first (List.length lunch_periods))
      /\ forall fuel, (fuel0 <= fuel)%nat ->
           _get_lunch_periods fuel (get input_data "term_config" (VDict []))
           = Ok lunch_periods
           /\ parse_structured_query self fuel "enforce_no_lunch" params input_data
              = Ok (flat_map
                      (fun day =>
                         map (fun period =>
                                mkQueryConstraint VETO_TIME_SLOT C VNone VNone day
                                  (VInt period) VNone VNone VNone [])
                             lunch_periods)
                      days).
Proof.
  intros self params input_data C cfg sh sm lh lm eh em pl n days
         HC HtC Hcfg Hs Hl He Vs Vl Ve Hlt Hp Hpl Hn Hdays.
  pose proof (lunch_window_of_clocks cfg sh sm lh lm eh em pl Hs Hl He Hp Vs Vl Ve)
    as Hwin.
  set (start := minutes sh sm) in *. set (ls := minutes lh lm) in *.
  set (le := minutes eh em) in *.
  destruct (lunch_loop_spec (S (Z.to_nat (le - start))) pl n ls le start 0%Z []
              Hpl Hn ltac:(lia)) as (periods & Hrun & Hin & Hnd).
  simpl app in Hrun.
  exists periods, (S (Z.to_nat (le - start))).
  split; [|split; [exact Hnd|split]].
  - intros i. rewrite Hin. rewrite Z.sub_0_r.
    replace (start + (i + 1) * n)%Z with (start + i * n + n)%Z by lia.
    rewrite <- (overlap_test (start + i * n) n ls le Hn Hlt). tauto.
  - destruct (lunch_loop_block _ pl n ls le start 0%Z [] periods Hpl Hn Hrun)
      as (first & count & Heq).
    simpl app in Heq. exists first. rewrite Heq at 1.
    f_equal. rewrite Heq. unfold consecutive_from.
    now rewrite length_map, length_seq.
  - intros fuel Hfuel.
    assert (Hget : _get_lunch_periods fuel (get input_data "term_config" (VDict []))
                   = Ok periods).
    { unfold _get_lunch_periods. rewrite Hcfg, Hwin. simpl.
      rewrite (lunch_loop_more_fuel (S (Z.to_nat (le - start)))) by
          (rewrite ?Hrun; (discriminate || exact Hfuel)).
      exact Hrun. }
    split; [exact Hget|].
    dispatch ENFORCE_NO_LUNCH.
    rewrite Hget, HC, HtC. rewrite Hcfg. cbn [dict_get bind negb].
    rewrite Hdays. reflexivity.
Qed.

Lemma no_lunch_example :
  (forall k,
      parse_structured_query example_translator (10 + k) "enforce_no_lunch"
        [("course_id", VStr "C1")] example_instance
      = Ok [mkQueryConstraint VETO_TIME_SLOT (VStr "C1") VNone VNone (VStr "Mon")
              (VInt 8) VNone VNone VNone [];
            mkQueryConstraint VETO_TIME_SLOT (VStr "C1") VNone VNone (VStr "Tue")
              (VInt 8) VNone VNone VNone []])
  /\ (forall k, _get_lunch_periods (10 + k) example_term_config = Ok [8%Z])
  /\ intervals_overlap (minutes 8 0 + 8 * 30) (minutes 8 0 + 9 * 30)
       (minutes 12 0) (minutes 12 30)
  /\ ~ intervals_overlap (minutes 8 0 + 7 * 30) (minutes 8 0 + 8 * 30)
         (minutes 12 0) (minutes 12 30).
Proof.
  split; [|split; [|split]].
  - intros k.
    rewrite (parse_more_fuel example_translator example_translator 10)
      by (try (vm_compute; discriminate); lia).
    reflexivity.
  - intros k.
    rewrite (get_lunch_periods_more_fuel 10) by (try discriminate; lia).
    reflexivity.
  - exists 720%Z. unfold minutes. lia.
  - intros (t & H1 & H2). unfold minutes in *. lia.
Qed.

(** C4: an enforce_no_lunch query for course C yields, for each day of
    the term configuration, one veto_time_slot constraint per lunch
    period (course C, that day, that period, every other field None), and
    the lunch periods are exactly the period indices whose
    [start, start + period_length) minute interval has a minute in common
    with [lunch_start, lunch_end), in increasing order without repeats;
    the times are those written HH:MM in the term configuration (08:00,
    12:00 and 12:30 where it has none), the period length is positive and
    lunch ends after it starts.  With day start 08:00, 30-minute periods
    and lunch 12:00-12:30 period 8 is selected and period 7 is not. *)
Theorem enforce_no_lunch_expansion :
  (forall (self : QueryTranslator) (params input_data : dict) (C : value)
          (cfg : dict) (sh sm lh lm eh em : Z) (period_length : value) (n : Z)
          (days : list value),
      get params "course_id" VNone = C -> truthy C = true ->
      get input_data "term_config" (VDict []) = VDict cfg ->
      get cfg "day_start_time" (VStr "08:00") = VStr (clock sh sm) ->
      get cfg "lunch_start_time" (VStr "12:00") = VStr (clock lh lm) ->
      get cfg "lunch_end_time" (VStr "12:30") = VStr (clock eh em) ->
      valid_clock sh sm -> valid_clock lh lm -> valid_clock eh em ->
      (minutes lh lm < minutes eh em)%Z ->
      get cfg "period_length_minutes" (VInt 30) = period_length ->
      as_int period_length = Some n -> (0 < n)%Z ->
      iterate (get cfg "days" (VList [])) = Ok days ->
      exists (lunch_periods : list Z) (fuel0 : nat),
        (forall i, In i lunch_periods <->
           (0 <= i)%Z /\
           intervals_overlap (minutes sh sm + i * n) (minutes sh sm + (i + 1) * n)
             (minutes lh lm) (minutes eh em))
        /\ NoDup lunch_periods
        /\ (exists first,
              lunch_periods = consecutive_from first (List.length lunch_periods))
        /\ forall fuel, (fuel0 <= fuel)%nat ->
             _get_lunch_periods fuel (get input_data "term_config" (VDict []))
             = Ok lunch_periods
             /\ parse_structured_query self fuel "enforce_no_lunch" params input_data
                = Ok (flat_map
                        (fun day =>
                           map (fun period =>
                                  mkQueryConstraint VETO_TIME_SLOT C VNone VNone day
                                    (VInt period) VNone VNone VNone [])
                               lunch_periods)
                        days))
  /\ ((forall k,
         parse_structured_query example_translator (10 + k) "enforce_no_lunch"
           [("course_id", VStr "C1")] example_instance
         = Ok [mkQueryConstraint VETO_TIME_SLOT (VStr "C1") VNone VNone (VStr "Mon")
                 (VInt 8) VNone VNone VNone [];
               mkQueryConstraint VETO_TIME_SLOT (VStr "C1") VNone VNone (VStr "Tue")
                 (VInt 8) VNone VNone VNone []])
      /\ (forall k, _get_lunch_periods (10 + k) example_term_config = Ok [8%Z])
      /\ intervals_overlap (minutes 8 0 + 8 * 30) (minutes 8 0 + 9 * 30)
           (minutes 12 0) (minutes 12 30)
      /\ ~ intervals_overlap (minutes 8 0 + 7 * 30) (minutes 8 0 + 8 * 30)
             (minutes 12 0) (minutes 12 30)).
Proof. split; [exact no_lunch_expansion | exact no_lunch_example]. Qed.

(** *** Missing parameters and empty expansions *)

(** C2 (the code at a query with no parameters at all): enforce_time_slot,
    veto_time_slot, enforce_room, enforce_before_time and
    enforce_after_time do not fail with MissingParameter; each returns one
    constraint whose fields are all None. *)
Theorem missing_fields_are_not_rejected :
  forall (self : QueryTranslator) (fuel : nat) (input_data : dict),
    parse_structured_query self fuel "enforce_time_slot" [] input_data
    = Ok [QueryConstraint_init ENFORCE_TIME_SLOT]
    /\ parse_structured_query self fuel "veto_time_slot" [] input_data
       = Ok [QueryConstraint_init VETO_TIME_SLOT]
    /\ parse_structured_query self fuel "enforce_room" [] input_data
       = Ok [QueryConstraint_init ENFORCE_ROOM]
    /\ parse_structured_query self fuel "enforce_before_time" [] input_data
       = Ok [QueryConstraint_init ENFORCE_BEFORE_TIME]
    /\ parse_structured_query self fuel "enforce_after_time" [] input_data
       = Ok [QueryConstraint_init ENFORCE_AFTER_TIME].
Proof. intros. repeat apply conj; reflexivity. Qed.

(** The kinds that do check their parameters. *)
Lemma checked_kinds_reject_missing_fields :
  forall (self : QueryTranslator) (fuel : nat) (input_data : dict),
    is_MissingParameter MissingParameter_veto_day
    /\ parse_structured_query self fuel "veto_day" [] input_data
       = Raise MissingParameter_veto_day
    /\ parse_structured_query self fuel "swap_time_slots" [] input_data
       = Raise MissingParameter_swap
    /\ parse_structured_query self fuel "veto_instructor_day" [] input_data
       = Raise MissingParameter_instructor_day.
Proof.
  intros. repeat apply conj; try reflexivity.
  unfold is_MissingParameter. simpl. auto.
Qed.

(** C6 (the code when instructor P9 teaches no course of the instance):
    the veto_instructor_day query succeeds with the empty constraint
    sequence, while the veto_day query with the same instructor fails
    with NoMatchingEntity. *)
Theorem veto_instructor_day_without_courses :
  forall (self : QueryTranslator) (fuel : nat),
    parse_structured_query self fuel "veto_instructor_day"
      [("instructor_id", VStr "P9"); ("day", VStr "Mon")] example_instance
    = Ok []
    /\ parse_structured_query self fuel "veto_day"
         [("instructor_id", VStr "P9"); ("day", VStr "Mon")] example_instance
       = Raise (NoMatchingEntity (VStr "P9")).
Proof. intros. split; reflexivity. Qed.

(** The veto_day path of the instructor-level expansion: no course of the
    instructor is an error, otherwise one veto_day constraint per course. *)
Lemma veto_day_instructor_expansion :
  forall (self : QueryTranslator) (fuel : nat) (params input_data : dict)
         (instructor : value) (courses : list value),
    truthy (get params "course_id" VNone) = false ->
    get params "instructor_id" VNone = instructor ->
    truthy instructor = true ->
    courses_of_instructor input_data instructor = Ok courses ->
    parse_structured_query self fuel "veto_day" params input_data
    = match courses with
      | [] => Raise (NoMatchingEntity instructor)
      | _ => veto_day_per_course courses (get params "day" VNone)
      end.
Proof.
  intros self fuel params input_data instructor courses Hc Hi Ht Hcs.
  dispatch VETO_DAY. rewrite Hc, Hi, Ht, Hcs. reflexivity.
Qed.

(* ================================================================== *)
(** ** Properties of the validator *)
(* ================================================================== *)

Lemma py_eq_str_r (v : value) (s : string) : py_eq v (VStr s) = true -> v = VStr s.
Proof.
  destruct v; simpl; intros H; try discriminate H.
  apply String.eqb_eq in H. now subst.
Qed.

Lemma py_eq_typed_str (a b : value) :
  optional_str a = true -> optional_str b = true ->
  (py_eq a b = true <-> a = b).
Proof.
  destruct a, b; simpl; intros Ha Hb; try discriminate;
    split; intros H; try discriminate H; try reflexivity.
  - apply String.eqb_eq in H. now subst.
  - injection H as ->. apply String.eqb_refl.
Qed.

Lemma py_eq_typed_int (a b : value) :
  optional_int a = true -> optional_int b = true ->
  (py_eq a b = true <-> a = b).
Proof.
  destruct a, b; simpl; intros Ha Hb; try discriminate;
    split; intros H; try discriminate H; try reflexivity.
  - apply Z.eqb_eq in H. now subst.
  - injection H as ->. apply Z.eqb_refl.
Qed.

Lemma key_eq_typed (k k' : slot_key) :
  typed_key k = true -> typed_key k' = true ->
  (key_eq k k' = true <-> k = k').
Proof.
  destruct k as [[[a0 a1] a2] a3], k' as [[[b0 b1] b2] b3]. simpl.
  rewrite !andb_true_iff.
  intros [[[Ha0 Ha1] Ha2] Ha3] [[[Hb0 Hb1] Hb2] Hb3].
  rewrite (py_eq_typed_str a0 b0), (py_eq_typed_int a1 b1),
    (py_eq_typed_str a2 b2), (py_eq_typed_int a3 b3) by assumption.
  split.
  - intros [[[-> ->] ->] ->]. reflexivity.
  - intros [= -> -> -> ->]. auto.
Qed.

Lemma optional_str_hashable (v : value) : optional_str v = true -> hashable v = true.
Proof. destruct v; simpl; congruence. Qed.

Lemma optional_int_hashable (v : value) : optional_int v = true -> hashable v = true.
Proof. destruct v; simpl; congruence. Qed.

Lemma hash_key_typed (k : slot_key) : typed_key k = true -> hash_key k = Ok tt.
Proof.
  destruct k as [[[a0 a1] a2] a3]. simpl. rewrite !andb_true_iff.
  intros [[[H0 H1] H2] H3]. unfold hash_value.
  rewrite (optional_str_hashable _ H0), (optional_int_hashable _ H1),
    (optional_str_hashable _ H2), (optional_int_hashable _ H3).
  reflexivity.
Qed.

(** Storing under a typed key either finds that very key or appends it. *)
Lemma slot_map_set_keys (k : slot_key) (c : QueryConstraint) (m : slot_map) :
  typed_key k = true -> Forall (fun k' => typed_key k' = true) (keys m) ->
  (In k (keys m) /\ keys (slot_map_set k c m) = keys m)
  \/ keys (slot_map_set k c m) = (keys m ++ [k])%list.
Proof.
  intros Hk. unfold keys.
  induction m as [|[k' c'] m IH]; simpl; intros Hall.
  - right. reflexivity.
  - inversion Hall as [|? ? Hk' Hall']; subst.
    destruct (key_eq k' k) eqn:Heq.
    + apply key_eq_typed in Heq; [|assumption..]. subst k'.
      left. simpl. auto.
    + destruct (IH Hall') as [[Hin Hkeys]|Hkeys]; simpl.
      * left. split; [auto|]. now rewrite Hkeys.
      * right. now rewrite Hkeys.
Qed.

Lemma slot_map_set_in (k : slot_key) (c : QueryConstraint) (m : slot_map) :
  typed_key k = true -> Forall (fun k' => typed_key k' = true) (keys m) ->
  Forall (fun k' => typed_key k' = true) (keys (slot_map_set k c m))
  /\ In k (keys (slot_map_set k c m))
  /\ (forall k', In k' (keys m) -> In k' (keys (slot_map_set k c m))).
Proof.
  intros Hk Hall.
  destruct (slot_map_set_keys k c m Hk Hall) as [[Hin ->]| ->].
  - auto.
  - split; [|split].
    + apply Forall_app. split; [exact Hall|]. constructor; auto.
    + apply in_or_app. right. now left.
    + intros k' H. apply in_or_app. now left.
Qed.

Lemma collect_slots_cons (c : QueryConstraint) (rest : list QueryConstraint)
    (enforce veto : slot_map) :
  collect_slots (c :: rest) enforce veto
  = if is_enforce c then
      _ <- hash_key (key_of c) ;;
      collect_slots rest (slot_map_set (key_of c) c enforce) veto
    else if QueryType_in (query_type c) [VETO_TIME_SLOT; VETO_DAY] then
      _ <- hash_key (key_of c) ;;
      collect_slots rest enforce (slot_map_set (key_of c) c veto)
    else collect_slots rest enforce veto.
Proof. reflexivity. Qed.

(** The first loop of the validator on well-typed constraints: it does
    not raise, and every enforce-class (veto-class) constraint has its key
    in the enforce (veto) mapping at the end. *)
Lemma collect_slots_typed :
  forall (cs : list QueryConstraint) (enforce veto : slot_map),
    Forall (fun c => well_typed c = true) cs ->
    Forall (fun k => typed_key k = true) (keys enforce) ->
    Forall (fun k => typed_key k = true) (keys veto) ->
    exists enforce' veto',
      collect_slots cs enforce veto = Ok (enforce', veto')
      /\ (forall k, In k (keys enforce) -> In k (keys enforce'))
      /\ (forall k, In k (keys veto) -> In k (keys veto'))
      /\ (forall c, In c cs -> is_enforce c = true -> In (key_of c) (keys enforce'))
      /\ (forall c, In c cs -> is_veto c = true -> In (key_of c) (keys veto')).
Proof.
  induction cs as [|c cs IH]; intros enforce veto Hcs He Hv.
  - exists enforce, veto. simpl. repeat split; auto; intros ? [].
  - inversion Hcs as [|? ? Hc Hcs']; subst.
    assert (Hkey : typed_key (key_of c) = true).
    { unfold well_typed in Hc. apply andb_true_iff in Hc. tauto. }
    rewrite collect_slots_cons.
    destruct (is_enforce c) eqn:Hen.
    + rewrite (hash_key_typed _ Hkey). unfold bind.
      destruct (slot_map_set_in (key_of c) c enforce Hkey He) as (Ht & Hin & Hmono).
      destruct (IH (slot_map_set (key_of c) c enforce) veto Hcs' Ht Hv)
        as (e' & v' & Hrun & He' & Hv' & Hce & Hcv).
      exists e', v'. split; [exact Hrun|]. repeat split; auto.
      * intros c0 [<-|Hin0] H0; auto.
      * intros c0 [<-|Hin0] H0; auto.
        unfold is_veto in H0. rewrite Hen in H0. discriminate H0.
    + destruct (QueryType_in (query_type c) [VETO_TIME_SLOT; VETO_DAY]) eqn:Hve.
      * rewrite (hash_key_typed _ Hkey). unfold bind.
        destruct (slot_map_set_in (key_of c) c veto Hkey Hv) as (Ht & Hin & Hmono).
        destruct (IH enforce (slot_map_set (key_of c) c veto) Hcs' He Ht)
          as (e' & v' & Hrun & He' & Hv' & Hce & Hcv).
        exists e', v'. split; [exact Hrun|]. repeat split; auto.
        -- intros c0 [<-|Hin0] H0; auto. congruence.
        -- intros c0 [<-|Hin0] H0; auto.
      * destruct (IH enforce veto Hcs' He Hv)
          as (e' & v' & Hrun & He' & Hv' & Hce & Hcv).
        exists e', v'. split; [exact Hrun|]. repeat split; auto.
        -- intros c0 [<-|Hin0] H0; auto. congruence.
        -- intros c0 [<-|Hin0] H0; auto.
           unfold is_veto in H0. rewrite Hve, andb_false_r in H0. discriminate H0.
Qed.

Lemma key_eq_refl_typed (k : slot_key) : typed_key k = true -> key_eq k k = true.
Proof. intros H. now apply key_eq_typed. Qed.

Lemma conflicts_found (enforce veto : slot_map) (k : slot_key) :
  typed_key k = true ->
  In k (keys enforce) -> In k (keys veto) ->
  In (contradiction_message k) (conflicts enforce veto).
Proof.
  intros Hk He Hv. unfold conflicts, keys in *.
  apply in_map_iff in He. destruct He as (e & <- & He).
  apply in_flat_map. exists e. split; [exact He|].
  assert (Hmem : slot_map_mem (fst e) veto = true).
  { unfold slot_map_mem. apply existsb_exists.
    apply in_map_iff in Hv. destruct Hv as (x & Hx & Hin).
    exists x. split; [exact Hin|]. rewrite Hx. now apply key_eq_refl_typed. }
  rewrite Hmem. now left.
Qed.

Lemma set_mem_typed (x : value) (ids : list value) :
  optional_str x = true ->
  exists known, set_mem x ids = Ok known
                /\ (truthy x = true -> ~ In x ids -> known = false).
Proof.
  intros Hx. unfold set_mem, hash_value.
  rewrite (optional_str_hashable x Hx). simpl.
  eexists. split; [reflexivity|].
  intros Ht Hnin.
  destruct (existsb (fun i => py_eq i x) ids) eqn:Hex; [|reflexivity].
  exfalso. apply existsb_exists in Hex. destruct Hex as (i & Hin & Heq).
  destruct x; simpl in Hx, Ht; try discriminate.
  apply py_eq_str_r in Heq. subst i. contradiction.
Qed.

(** One [if x and x not in ids: errors.append(msg)] step. *)
Lemma check_field (x : value) (ids : list value) (errors : list string) (msg : string) :
  optional_str x = true ->
  exists errors1,
    (if truthy x then
       known <- set_mem x ids ;;
       Ok (if negb known then (errors ++ [msg])%list else errors)
     else Ok errors) = Ok errors1
    /\ (forall m, In m errors -> In m errors1)
    /\ (truthy x = true -> ~ In x ids -> In msg errors1).
Proof.
  intros Hx. destruct (truthy x) eqn:Ht.
  - destruct (set_mem_typed x ids Hx) as (known & -> & Hknown). simpl.
    eexists. split; [reflexivity|]. split.
    + intros m Hm. destruct known; simpl; [exact Hm|].
      apply in_or_app. now left.
    + intros _ Hnin. rewrite (Hknown Ht Hnin). simpl.
      apply in_or_app. right. now left.
  - exists errors. split; [reflexivity|]. split; [auto|discriminate].
Qed.

Lemma check_ids_cons (c : QueryConstraint) (rest : list QueryConstraint)
    (vc vi : list value) (errors : list string) :
  check_ids (c :: rest) vc vi errors
  = (errors1 <-
       (if truthy (course_id c) then
          known <- set_mem (course_id c) vc ;;
          Ok (if negb known
              then (errors ++ [unknown_course (course_id c)])%list
              else errors)
        else Ok errors) ;;
     errors2 <-
       (if truthy (instructor_id c) then
          known <- set_mem (instructor_id c) vi ;;
          Ok (if negb known
              then (errors1 ++ [unknown_instructor (instructor_id c)])%list
              else errors1)
        else Ok errors1) ;;
     check_ids rest vc vi errors2).
Proof. reflexivity. Qed.

(** The last loop of the validator on well-typed constraints: it does not
    raise, keeps the errors found so far, and reports every set course or
    instructor identifier that is not among the valid ones. *)
Lemma check_ids_typed :
  forall (cs : list QueryConstraint) (vc vi : list value) (errors : list string),
    Forall (fun c => well_typed c = true) cs ->
    exists errors',
      check_ids cs vc vi errors = Ok errors'
      /\ (forall m, In m errors -> In m errors')
      /\ (forall c, In c cs -> truthy (course_id c) = true ->
                    ~ In (course_id c) vc ->
                    In (unknown_course (course_id c)) errors')
      /\ (forall c, In c cs -> truthy (instructor_id c) = true ->
                    ~ In (instructor_id c) vi ->
                    In (unknown_instructor (instructor_id c)) errors').
Proof.
  induction cs as [|c cs IH]; intros vc vi errors Hcs.
  - exists errors. simpl. repeat split; auto; intros ? [].
  - inversion Hcs as [|? ? Hc Hcs']; subst.
    unfold well_typed, key_of, typed_key in Hc. rewrite !andb_true_iff in Hc.
    destruct Hc as [[[[Hcid _] _] _] Hiid].
    rewrite check_ids_cons.
    destruct (check_field (course_id c) vc errors
                (unknown_course (course_id c)) Hcid) as (e1 & -> & Hk1 & Hn1).
    unfold bind at 1.
    destruct (check_field (instructor_id c) vi e1
                (unknown_instructor (instructor_id c)) Hiid) as (e2 & -> & Hk2 & Hn2).
    unfold bind at 1.
    destruct (IH vc vi e2 Hcs') as (e3 & Hrun & Hk3 & Hc3 & Hi3).
    exists e3. split; [exact Hrun|]. repeat split.
    + auto.
    + intros c0 [<-|Hin] Ht Hnin; auto.
    + intros c0 [<-|Hin] Ht Hnin; auto.
Qed.

Lemma validate_typed :
  forall (cs : list QueryConstraint) (input_data : dict)
         (valid_courses valid_instructors : list value),
    Forall (fun c => well_typed c = true) cs ->
    id_set input_data "courses" = Ok valid_courses ->
    id_set input_data "instructors" = Ok valid_instructors ->
    exists errors,
      validate_query_constraints cs input_data
      = Ok (Nat.eqb (List.length errors) 0, errors)
      /\ (forall e v, In e cs -> is_enforce e = true ->
                      In v cs -> is_veto v = true -> key_of v = key_of e ->
                      In (contradiction_message (key_of e)) errors)
      /\ (forall c, In c cs -> truthy (course_id c) = true ->
                    ~ In (course_id c) valid_courses ->
                    In (unknown_course (course_id c)) errors)
      /\ (forall c, In c cs -> truthy (instructor_id c) = true ->
                    ~ In (instructor_id c) valid_instructors ->
                    In (unknown_instructor (instructor_id c)) errors).
Proof.
  intros cs input_data vc vi Hcs Hvc Hvi.
  unfold validate_query_constraints.
  destruct (collect_slots_typed cs [] [] Hcs (Forall_nil _) (Forall_nil _))
    as (enf & vet & -> & _ & _ & Henf & Hvet).
  unfold bind at 1. rewrite Hvc, Hvi. unfold bind at 1 2.
  destruct (check_ids_typed cs vc vi (conflicts enf vet) Hcs)
    as (errors & -> & Hkeep & Hcourse & Hinstr).
  unfold bind. exists errors. split; [reflexivity|]. repeat split; auto.
  intros e v He Hte Hv Htv Hkey.
  apply Hkeep. apply conflicts_found.
  - rewrite Forall_forall in Hcs. specialize (Hcs e He).
    unfold well_typed in Hcs. apply andb_true_iff in Hcs. tauto.
  - auto.
  - rewrite <- Hkey. auto.
Qed.

Lemma nonempty_not_ok (errors : list string) (m : string) :
  In m errors -> Nat.eqb (List.length errors) 0 = false.
Proof. destruct errors; [intros []|reflexivity]. Qed.

(** C5, with the week: for any sequence of well-typed constraints that
    contains an enforce_time_slot constraint and a veto_time_slot
    constraint with the same course C, week W, day D and period P,
    validate returns ok=false and the error list has the contradiction
    error that cites C, D and P. *)
Theorem contradiction_is_reported :
  forall (cs : list QueryConstraint) (input_data : dict)
         (valid_courses valid_instructors : list value)
         (e v : QueryConstraint),
    Forall (fun c => well_typed c = true) cs ->
    id_set input_data "courses" = Ok valid_courses ->
    id_set input_data "instructors" = Ok valid_instructors ->
    In e cs -> query_type e = ENFORCE_TIME_SLOT ->
    In v cs -> query_type v = VETO_TIME_SLOT ->
    course_id v = course_id e -> week v = week e ->
    day v = day e -> period_start v = period_start e ->
    exists errors,
      validate_query_constraints cs input_data = Ok (false, errors)
      /\ In ("Contradictory constraints: Cannot both enforce and veto "
             ++ py_str (course_id e) ++ " on " ++ py_str (day e)
             ++ " at period " ++ py_str (period_start e)) errors.
Proof.
  intros cs input_data vc vi e v Hcs Hvc Hvi He Hqe Hv Hqv Hc Hw Hd Hp.
  destruct (validate_typed cs input_data vc vi Hcs Hvc Hvi)
    as (errors & Hrun & Hcontra & _ & _).
  assert (Hin : In (contradiction_message (key_of e)) errors).
  { apply (Hcontra e v); auto.
    - unfold is_enforce. rewrite Hqe. reflexivity.
    - unfold is_veto, is_enforce. rewrite Hqv. reflexivity.
    - unfold key_of. congruence. }
  exists errors. split.
  - rewrite Hrun, (nonempty_not_ok _ _ Hin). reflexivity.
  - exact Hin.
Qed.

(** C5 as first stated, without the week, fails: an enforce and a veto of
    the same course, day and period in different weeks pass validation. *)
Lemma contradiction_needs_the_same_week :
  query_type example_enforce_week_1 = ENFORCE_TIME_SLOT
  /\ query_type example_veto_week_2 = VETO_TIME_SLOT
  /\ course_id example_veto_week_2 = course_id example_enforce_week_1
  /\ day example_veto_week_2 = day example_enforce_week_1
  /\ period_start example_veto_week_2 = period_start example_enforce_week_1
  /\ validate_query_constraints [example_enforce_week_1; example_veto_week_2]
       example_instance = Ok (true, []).
Proof. repeat apply conj; reflexivity. Qed.

(** C9: for well-typed constraints and an instance whose courses and
    instructors carry ids, every constraint whose course identifier is set
    but is not a course id of the instance, and every constraint whose
    instructor identifier is set but is not an instructor id of the
    instance, makes validate return ok=false with an error naming that
    identifier. *)
Theorem unknown_identifiers_are_reported :
  forall (cs : list QueryConstraint) (input_data : dict)
         (valid_courses valid_instructors : list value) (c : QueryConstraint),
    Forall (fun c => well_typed c = true) cs ->
    id_set input_data "courses" = Ok valid_courses ->
    id_set input_data "instructors" = Ok valid_instructors ->
    In c cs ->
    (truthy (course_id c) = true -> ~ In (course_id c) valid_courses ->
     exists errors,
       validate_query_constraints cs input_data = Ok (false, errors)
       /\ In ("Unknown course ID: " ++ py_str (course_id c)) errors)
    /\ (truthy (instructor_id c) = true ->
        ~ In (instructor_id c) valid_instructors ->
        exists errors,
          validate_query_constraints cs input_data = Ok (false, errors)
          /\ In ("Unknown instructor ID: " ++ py_str (instructor_id c)) errors).
Proof.
  intros cs input_data vc vi c Hcs Hvc Hvi Hc.
  destruct (validate_typed cs input_data vc vi Hcs Hvc Hvi)
    as (errors & Hrun & _ & Hcourse & Hinstr).
  split; intros Ht Hnin.
  - pose proof (Hcourse c Hc Ht Hnin) as Hin.
    exists errors. split; [|exact Hin].
    rewrite Hrun, (nonempty_not_ok _ _ Hin). reflexivity.
  - pose proof (Hinstr c Hc Ht Hnin) as Hin.
    exists errors. split; [|exact Hin].
    rewrite Hrun, (nonempty_not_ok _ _ Hin). reflexivity.
Qed.

(* ================================================================== *)
(** ** Properties of the graph of reasons *)
(* ================================================================== *)

Section ReasonGraph.

Import ExplanationAgent.

Variable input_context : dict.

Lemma is_str_get_default (c : dict) (k a b : string) :
  is_str (get c k (VStr a)) = true -> is_str (get c k (VStr b)) = true.
Proof. unfold get. destruct (lookup k c); auto. Qed.

Lemma share_keywordb_iff (c1 c2 : dict) :
  share_keywordb c1 c2 = true <-> share_keyword c1 c2.
Proof.
  unfold share_keywordb, share_keyword. rewrite existsb_exists.
  split; intros (kw & Hin & H); exists kw; split; auto.
  - now apply andb_true_iff in H.
  - now apply andb_true_iff.
Qed.

Lemma share_scope_well_formed (c1 c2 : dict) :
  well_formed_record c1 = true -> well_formed_record c2 = true ->
  _constraints_share_scope c1 c2 = Ok (share_keywordb c1 c2).
Proof.
  unfold well_formed_record, _constraints_share_scope, share_keywordb,
    lowered_description.
  rewrite !andb_true_iff. intros [_ H1] [_ H2].
  destruct (get c1 "description" (VStr EmptyString)); try discriminate H1.
  destruct (get c2 "description" (VStr EmptyString)); try discriminate H2.
  reflexivity.
Qed.

Lemma constraint_to_reason_well_formed (c : dict) :
  well_formed_record c = true ->
  exists text, _constraint_to_reason c input_context = Ok text.
Proof.
  unfold well_formed_record, _constraint_to_reason.
  rewrite andb_true_iff. intros [H _].
  destruct (get c "type" (VStr EmptyString)) as [| | |s| |]; try discriminate H.
  destruct (py_eq (VStr s) (VStr "minimality")); [eexists; reflexivity|].
  simpl value_startswith. unfold bind.
  repeat match goal with
         | |- context [if ?b then _ else _] => destruct b
         end; eexists; reflexivity.
Qed.

Lemma reason_of_type_is_str (i : nat) (c : dict) :
  well_formed_record c = true -> is_str (reason_type (reason_of input_context i c)) = true.
Proof.
  unfold well_formed_record. rewrite andb_true_iff. intros [H _].
  simpl. now apply is_str_get_default with (a := EmptyString).
Qed.

Lemma edges_from_well_formed :
  forall (others : list dict) (i : nat) (ci : dict) (j : nat) (acc : list edge),
    well_formed_record ci = true ->
    Forall (fun c => well_formed_record c = true) others ->
    edges_from ci (get ci "id" (default_id i)) j others acc
    = Ok (acc ++ edges_to i ci j others)%list.
Proof.
  induction others as [|cj rest IH]; intros i ci j acc Hci Hall; simpl.
  - now rewrite app_nil_r.
  - inversion Hall as [|? ? Hcj Hrest]; subst.
    rewrite (share_scope_well_formed ci cj Hci Hcj). simpl.
    rewrite IH by assumption.
    destruct (share_keywordb ci cj); simpl.
    + rewrite <- app_assoc. reflexivity.
    + reflexivity.
Qed.

Lemma reasons_loop_well_formed :
  forall (records : list dict) (i : nat) (rs : list reason) (es : list edge),
    Forall (fun c => well_formed_record c = true) records ->
    reasons_loop input_context i records rs es
    = Ok ((rs ++ reasons_among input_context i records)%list,
          (es ++ edges_among i records)%list).
Proof.
  induction records as [|c rest IH]; intros i rs es Hall; simpl.
  - now rewrite !app_nil_r.
  - inversion Hall as [|? ? Hc Hrest]; subst.
    destruct (constraint_to_reason_well_formed c Hc) as (text & Htext).
    unfold reason_of. rewrite Htext. simpl.
    rewrite (edges_from_well_formed rest i c (S i) es Hc Hrest). simpl.
    rewrite IH by assumption.
    rewrite <- !app_assoc. reflexivity.
Qed.

Lemma in_edges_to (e : edge) (i : nat) (ci : dict) :
  forall (others : list dict) (j : nat),
    In e (edges_to i ci j others) <->
    exists k cj, nth_error others k = Some cj
                 /\ share_keywordb ci cj = true
                 /\ e = edge_of i ci (j + k) cj.
Proof.
  induction others as [|c rest IH]; intros j; simpl.
  - split; [intros []|]. intros (k & cj & H & _). destruct k; discriminate H.
  - rewrite in_app_iff, IH. split.
    + intros [H|(k & cj & Hn & Hs & He)].
      * destruct (share_keywordb ci c) eqn:Hs; [|destruct H].
        destruct H as [<-|[]]. exists 0%nat, c. rewrite Nat.add_0_r. auto.
      * exists (S k), cj. rewrite Nat.add_succ_r. auto.
    + intros (k & cj & Hn & Hs & He). destruct k as [|k]; simpl in Hn.
      * injection Hn as ->. left. rewrite Hs, Nat.add_0_r in *. now left.
      * right. exists k, cj. rewrite Nat.add_succ_r in He. auto.
Qed.

Lemma in_edges_among (e : edge) :
  forall (records : list dict) (i : nat),
    In e (edges_among i records) <->
    exists a b ca cb,
      (a < b)%nat /\ nth_error records a = Some ca /\ nth_error records b = Some cb
      /\ share_keywordb ca cb = true
      /\ e = edge_of (i + a) ca (i + b) cb.
Proof.
  induction records as [|c rest IH]; intros i; simpl.
  - split; [intros []|]. intros (a & b & ca & cb & _ & H & _).
    destruct a; discriminate H.
  - rewrite in_app_iff, in_edges_to, IH. split.
    + intros [(k & cj & Hn & Hs & He)|(a & b & ca & cb & Hlt & Ha & Hb & Hs & He)].
      * exists 0%nat, (S k), c, cj. simpl.
        rewrite Nat.add_0_r. replace (i + S k)%nat with (S i + k)%nat by lia.
        repeat split; auto. lia.
      * exists (S a), (S b), ca, cb. simpl.
        replace (i + S a)%nat with (S i + a)%nat by lia.
        replace (i + S b)%nat with (S i + b)%nat by lia.
        repeat split; auto. lia.
    + intros (a & b & ca & cb & Hlt & Ha & Hb & Hs & He).
      destruct b as [|b]; [lia|]. simpl in Hb.
      destruct a as [|a]; simpl in Ha.
      * injection Ha as ->. left. exists b, cb.
        rewrite Nat.add_0_r in He.
        replace (S i + b)%nat with (i + S b)%nat by lia. auto.
      * right. exists a, b, ca, cb.
        replace (S i + a)%nat with (i + S a)%nat by lia.
        replace (S i + b)%nat with (i + S b)%nat by lia.
        repeat split; auto. lia.
Qed.

Lemma length_edges_to (i : nat) (ci : dict) :
  forall (others : list dict) (j : nat),
    List.length (edges_to i ci j others)
    = List.length (filter (fun p => share_keywordb (fst p) (snd p))
                     (map (pair ci) others)).
Proof.
  induction others as [|c rest IH]; intros j; simpl; [reflexivity|].
  rewrite length_app, IH.
  destruct (share_keywordb ci c); reflexivity.
Qed.

Lemma length_edges_among :
  forall (records : list dict) (i : nat),
    List.length (edges_among i records)
    = List.length (filter (fun p => share_keywordb (fst p) (snd p))
                     (ordered_pairs records)).
Proof.
  induction records as [|c rest IH]; intros i; simpl; [reflexivity|].
  rewrite length_app, filter_app, length_app, length_edges_to, IH. reflexivity.
Qed.

Lemma nth_reasons_among :
  forall (records : list dict) (i k : nat),
    nth_error (reasons_among input_context i records) k
    = option_map (reason_of input_context (i + k)) (nth_error records k).
Proof.
  induction records as [|c rest IH]; intros i k; simpl.
  - destruct k; reflexivity.
  - destruct k as [|k]; simpl.
    + now rewrite Nat.add_0_r.
    + rewrite IH. now replace (S i + k)%nat with (i + S k)%nat by lia.
Qed.

Lemma length_reasons_among :
  forall (records : list dict) (i : nat),
    List.length (reasons_among input_context i records) = List.length records.
Proof. induction records; intros i; simpl; auto. Qed.

Lemma reasons_among_types :
  forall (records : list dict) (i : nat),
    Forall (fun c => well_formed_record c = true) records ->
    Forall (fun r => is_str (reason_type r) = true)
      (reasons_among input_context i records).
Proof.
  induction records as [|c rest IH]; intros i Hall; simpl; constructor;
    inversion Hall; subst.
  - now apply reason_of_type_is_str.
  - now apply IH.
Qed.

Lemma visualization_well_formed (rs : list reason) (es : list edge) :
  Forall (fun r => is_str (reason_type r) = true) rs ->
  exists vis, _create_graph_visualization_json rs es = Ok vis.
Proof.
  intros Hall. unfold _create_graph_visualization_json.
  assert (H : exists ns, map_m node_of_reason rs = Ok ns).
  { induction Hall as [|r rs Hr _ IH]; simpl.
    - eexists; reflexivity.
    - destruct IH as (ns & ->).
      unfold node_of_reason at 1.
      destruct (reason_type r); try discriminate Hr. simpl.
      eexists; reflexivity. }
  destruct H as (ns & ->). simpl. eexists; reflexivity.
Qed.

End ReasonGraph.

(** C7: reason-graph construction is total on well-formed IIS lists.
    Every record becomes exactly one reason node, with the placeholders
    "c<i>", "unknown" and True standing in for a missing id, type and
    in_iis flag (a missing description reads as empty text); the edges
    are, one for one, the pairs of records i < j whose lowercased
    descriptions both contain a common keyword among course, instructor,
    room, time, week, day; and the empty list gives a graph with no node
    and no edge. *)
Theorem reason_graph_construction_is_total :
  (forall (iis_constraints : list dict) (query : value) (input_context : dict),
      Forall (fun c => well_formed_record c = true) iis_constraints ->
      exists g,
        ExplanationAgent.build_graph_of_reasons iis_constraints query input_context
        = Ok g
        /\ List.length (ExplanationAgent.reasons g) = List.length iis_constraints
        /\ (forall i c,
              nth_error iis_constraints i = Some c ->
              exists text,
                ExplanationAgent._constraint_to_reason c input_context = Ok text
                /\ nth_error (ExplanationAgent.reasons g) i
                   = Some (ExplanationAgent.mkReason
                             (get c "id" (VStr ("c" ++ str_of_nat i)))
                             (get c "type" (VStr "unknown"))
                             text
                             (get c "in_iis" (VBool true))))
        /\ (forall e,
              In e (ExplanationAgent.edges g) <->
              exists i j ci cj,
                (i < j)%nat
                /\ nth_error iis_constraints i = Some ci
                /\ nth_error iis_constraints j = Some cj
                /\ share_keyword ci cj
                /\ e = ExplanationAgent.mkEdge
                         (get ci "id" (VStr ("c" ++ str_of_nat i)))
                         (get cj "id" (VStr ("c" ++ str_of_nat j)))
                         "shares_variables")
        /\ List.length (ExplanationAgent.edges g)
           = List.length (filter (fun p => share_keywordb (fst p) (snd p))
                            (ordered_pairs iis_constraints)))
  /\ (forall (query : value) (input_context : dict),
         ExplanationAgent.build_graph_of_reasons [] query input_context
         = Ok (ExplanationAgent.mkGraph query [] [] 0 false
                 (ExplanationAgent.mkVisualization [] []))).
Proof.
  split; [|reflexivity].
  intros iis query ctx Hall.
  unfold ExplanationAgent.build_graph_of_reasons.
  rewrite (reasons_loop_well_formed ctx iis 0 [] [] Hall). simpl app. unfold bind at 1.
  destruct (visualization_well_formed (reasons_among ctx 0 iis) (edges_among 0 iis)
              (reasons_among_types ctx iis 0 Hall)) as (vis & ->).
  unfold bind. eexists. split; [reflexivity|]. simpl.
  split; [apply length_reasons_among|]. split; [|split].
  - intros i c Hc.
    rewrite Forall_forall in Hall.
    destruct (constraint_to_reason_well_formed ctx c
                (Hall c (nth_error_In _ _ Hc))) as (text & Htext).
    exists text. split; [exact Htext|].
    rewrite nth_reasons_among, Hc. simpl. unfold reason_of. rewrite Htext.
    reflexivity.
  - intros e. rewrite in_edges_among. simpl.
    split; intros (i & j & ci & cj & Hlt & Hi & Hj & Hs & He);
      exists i, j, ci, cj; repeat split; auto;
      now apply share_keywordb_iff.
  - apply length_edges_among.
Qed.

(** The end-to-end scenario: two nodes, and no edge, since "obj<=100"
    holds none of the keywords. *)
Example end_to_end_reason_graph :
  exists g,
    ExplanationAgent.build_graph_of_reasons example_iis (VStr "What-if scenario")
      example_instance = Ok g
    /\ ExplanationAgent.num_reasons g = 2%Z
    /\ ExplanationAgent.edges g = []
    /\ ExplanationAgent.is_connected g = false
    /\ map ExplanationAgent.reason_text (ExplanationAgent.reasons g)
       = [VStr ExplanationAgent.minimality_text;
          VStr "Your requested change: course X on Monday period 3"].
Proof. eexists. repeat apply conj; reflexivity. Qed.

(* ================================================================== *)
(** ** Properties of the what-if orchestration *)
(* ================================================================== *)

Lemma julia_to_python_id : forall v : value, SolverInterface._julia_to_python v = v.
Proof.
  fix IH 1. intros [| | | |l|d]; simpl; try reflexivity.
  - f_equal. induction l as [|x l IHl]; simpl; [reflexivity|].
    rewrite IH, IHl. reflexivity.
  - f_equal. induction d as [|[k x] d IHd]; simpl; [reflexivity|].
    rewrite IH, IHd. reflexivity.
Qed.

(** C3, as the code has it: with the Julia solver in use, solve_what_if
    calls the oracle exactly once and never again; an oracle failure comes
    back as a result with status error that carries the text of the
    failure under diagnostics; a dict answered by the oracle comes back
    unmodified under the oracle's own status, whatever it is (for
    infeasible_query, when its iis has a length).  In mock mode the oracle
    is not called and the status is not_supported. *)
Theorem what_if_delegates_once :
  forall (traceback : exn -> string) (self : SolverInterface.t)
         (input_json : dict) (query_constraints : list value)
         (original_objective : value) (log : list SolverInterface.oracle_call),
    let call :=
      SolverInterface.mkCall input_json query_constraints original_objective in
    let answer := SolverInterface.solve_what_if_query (SolverInterface.julia self) log call in
    let run :=
      SolverInterface.solve_what_if traceback self input_json query_constraints
        original_objective log in
    (SolverInterface.use_julia_solver self = true ->
     snd run = (log ++ [call])%list
     /\ (forall e, answer = Raise e ->
                   fst run = Ok (SolverInterface.what_if_error (exn_str e) (traceback e))
                   /\ subscript (SolverInterface.what_if_error (exn_str e) (traceback e))
                        "status" = Ok (VStr "error")
                   /\ (diagnostics <-
                         subscript (SolverInterface.what_if_error (exn_str e) (traceback e))
                           "diagnostics" ;;
                       subscript diagnostics "error") = Ok (VStr (exn_str e)))
     /\ (forall d n, answer = Ok (VDict d) ->
                     (py_eq (get d "status" (VStr "unknown")) (VStr "infeasible_query")
                      = false
                      \/ len (get d "iis" (VList [])) = Ok n) ->
                     fst run = Ok (VDict d)))
    /\ (SolverInterface.use_julia_solver self = false ->
        run = (Ok SolverInterface.not_supported, log)).
Proof.
  intros tb self input qcs obj log call answer run.
  unfold run, SolverInterface.solve_what_if. split.
  - intros ->. unfold SolverInterface._solve_what_if_julia, SolverInterface.call_oracle.
    rewrite map_id. fold call. fold answer.
    split; [|split].
    + destruct (x <- answer;; SolverInterface.after_oracle x); reflexivity.
    + intros e ->. simpl. auto.
    + intros d n -> Hd. unfold bind at 1.
      unfold SolverInterface.after_oracle. rewrite julia_to_python_id.
      unfold dict_get at 1. unfold bind at 1.
      destruct (py_eq (get d "status" (VStr "unknown")) (VStr "feasible_query"));
        [reflexivity|].
      destruct (py_eq (get d "status" (VStr "unknown")) (VStr "infeasible_query"));
        [|reflexivity].
      destruct Hd as [Hd|Hd]; [discriminate Hd|].
      unfold dict_get, bind. rewrite Hd. reflexivity.
  - intros ->. reflexivity.
Qed.

(** C3 as first stated fails on the status: an oracle status other than
    feasible_query and infeasible_query is handed back as it is, not as
    error. *)
Lemma other_oracle_status_is_not_error :
  SolverInterface.solve_what_if_query (SolverInterface.julia example_solver) []
    (SolverInterface.mkCall example_instance [] (VInt 100))
  = Ok example_time_limit_answer
  /\ subscript example_time_limit_answer "status" = Ok (VStr "time_limit")
  /\ fst (SolverInterface.solve_what_if no_traceback example_solver
            example_instance [] (VInt 100) [])
     = Ok example_time_limit_answer
  /\ (status <- (result <- fst (SolverInterface.solve_what_if no_traceback
                                  example_solver example_instance [] (VInt 100) []) ;;
                 subscript result "status") ;;
      Ok (py_eq status (VStr "error"))) = Ok false.
Proof. repeat apply conj; reflexivity. Qed.

(* ================================================================== *)
(** ** The theorems at sample inputs *)
(* ================================================================== *)

Lemma swap_time_slots_decomposition_witness :
  parse_structured_query example_translator 0 "swap_time_slots"
    example_swap_params example_instance
  = Ok [mkQueryConstraint ENFORCE_TIME_SLOT (VStr "C1") VNone (VInt 2) (VStr "Tue")
          (VInt 5) VNone VNone VNone [];
        mkQueryConstraint VETO_TIME_SLOT (VStr "C1") VNone (VInt 1) (VStr "Mon")
          (VInt 3) VNone VNone VNone [];
        mkQueryConstraint ENFORCE_TIME_SLOT (VStr "C2") VNone (VInt 1) (VStr "Mon")
          (VInt 3) VNone VNone VNone [];
        mkQueryConstraint VETO_TIME_SLOT (VStr "C2") VNone (VInt 2) (VStr "Tue")
          (VInt 5) VNone VNone VNone []].
Proof.
  apply (proj1 (swap_time_slots_decomposition example_translator 0
                  example_swap_params example_instance (VStr "C1") (VStr "C2")
                  [("assignments", VList [example_assignment_C1; example_assignment_C2])]
                  [example_assignment_C1; example_assignment_C2]
                  eq_refl eq_refl eq_refl eq_refl eq_refl eq_refl
                  ltac:(repeat constructor))
           [("course_id", VStr "C1"); ("room_id", VStr "Rm101"); ("week", VInt 1);
            ("day", VStr "Mon"); ("period_start", VInt 3)]
           [("course_id", VStr "C2"); ("room_id", VStr "Rm102"); ("week", VInt 2);
            ("day", VStr "Tue"); ("period_start", VInt 5)]);
    reflexivity.
Defined.

Lemma translation_reads_only_members_witness :
  parse_structured_query example_translator 10 "veto_day"
    example_veto_day_params example_instance
  = parse_structured_query other_translator 25 "veto_day"
      example_veto_day_params_reordered example_instance_reordered.
Proof.
  apply (translation_reads_only_members example_translator other_translator 10 25
           "veto_day" example_veto_day_params example_veto_day_params_reordered
           example_instance example_instance_reordered).
  - apply reordered_same_members; [apply perm_swap|].
    repeat constructor; simpl; intuition discriminate.
  - apply reordered_same_members.
    + apply Permutation_rev.
    + repeat constructor; simpl; intuition discriminate.
  - vm_compute. discriminate.
  - vm_compute. discriminate.
Defined.

Lemma enforce_no_lunch_expansion_witness :
  exists (lunch_periods : list Z) (fuel0 : nat),
    (forall i, In i lunch_periods <->
       (0 <= i)%Z /\
       intervals_overlap (minutes 8 0 + i * 30) (minutes 8 0 + (i + 1) * 30)
         (minutes 12 0) (minutes 12 30))
    /\ NoDup lunch_periods
    /\ (exists first,
          lunch_periods = consecutive_from first (List.length lunch_periods))
    /\ forall fuel, (fuel0 <= fuel)%nat ->
         _get_lunch_periods fuel (get example_instance "term_config" (VDict []))
         = Ok lunch_periods
         /\ parse_structured_query example_translator fuel "enforce_no_lunch"
              [("course_id", VStr "C1")] example_instance
            = Ok (flat_map
                    (fun day =>
                       map (fun period =>
                              mkQueryConstraint VETO_TIME_SLOT (VStr "C1") VNone VNone
                                day (VInt period) VNone VNone VNone [])
                           lunch_periods)
                    [VStr "Mon"; VStr "Tue"]).
Proof.
  apply (proj1 enforce_no_lunch_expansion example_translator
           [("course_id", VStr "C1")] example_instance (VStr "C1")
           [("day_start_time", VStr "08:00");
            ("period_length_minutes", VInt 30);
            ("lunch_start_time", VStr "12:00");
            ("lunch_end_time", VStr "12:30");
            ("days", VList [VStr "Mon"; VStr "Tue"])]
           8%Z 0%Z 12%Z 0%Z 12%Z 30%Z (VInt 30) 30%Z
           [VStr "Mon"; VStr "Tue"]);
    try reflexivity; unfold valid_clock, minutes; lia.
Defined.

Lemma contradiction_is_reported_witness :
  exists errors,
    validate_query_constraints [example_enforce_week_1; example_veto_week_1]
      example_instance = Ok (false, errors)
    /\ In "Contradictory constraints: Cannot both enforce and veto C1 on Mon at period 3"
         errors.
Proof.
  apply (contradiction_is_reported [example_enforce_week_1; example_veto_week_1]
           example_instance [VStr "C1"; VStr "C2"] [VStr "P1"; VStr "P2"]
           example_enforce_week_1 example_veto_week_1);
    try reflexivity.
  - repeat constructor.
  - simpl. auto.
  - simpl. auto.
Defined.

Lemma unknown_identifiers_are_reported_witness :
  (exists errors,
      validate_query_constraints [example_unknown_references] example_instance
      = Ok (false, errors)
      /\ In "Unknown course ID: does-not-exist" errors)
  /\ (exists errors,
        validate_query_constraints [example_unknown_references] example_instance
        = Ok (false, errors)
        /\ In "Unknown instructor ID: P9" errors).
Proof.
  assert (Hwt : Forall (fun c => well_typed c = true) [example_unknown_references])
    by (repeat constructor).
  destruct (unknown_identifiers_are_reported [example_unknown_references]
              example_instance [VStr "C1"; VStr "C2"] [VStr "P1"; VStr "P2"]
              example_unknown_references Hwt eq_refl eq_refl (or_introl eq_refl))
    as [Hcourse Hinstructor].
  split.
  - apply Hcourse; [reflexivity|].
    simpl. intros [H|[H|[]]]; discriminate H.
  - apply Hinstructor; [reflexivity|].
    simpl. intros [H|[H|[]]]; discriminate H.
Defined.

Lemma reason_graph_construction_is_total_witness :
  exists g,
    ExplanationAgent.build_graph_of_reasons example_iis_with_gaps
      (VStr "What-if scenario") example_instance = Ok g
    /\ List.length (ExplanationAgent.reasons g) = 3%nat
    /\ nth_error (ExplanationAgent.reasons g) 1
       = Some (ExplanationAgent.mkReason (VStr "c1") (VStr "unknown")
                 (VStr EmptyString) (VBool true)).
Proof.
  destruct (proj1 reason_graph_construction_is_total example_iis_with_gaps
              (VStr "What-if scenario") example_instance)
    as (g & Hrun & Hlen & Hnodes & _).
  - repeat constructor.
  - exists g. split; [exact Hrun|]. split; [exact Hlen|].
    destruct (Hnodes 1%nat [] eq_refl) as (text & Htext & Hnth).
    injection Htext as <-. exact Hnth.
Defined.

Lemma what_if_delegates_once_witness :
  snd (SolverInterface.solve_what_if no_traceback example_solver example_instance
         [] (VInt 100) [])
  = [SolverInterface.mkCall example_instance [] (VInt 100)].
Proof.
  apply (proj1 (what_if_delegates_once no_traceback example_solver example_instance
                  [] (VInt 100) [])).
  reflexivity.
Defined.

(* ================================================================== *)
(** ** More properties of the translator *)
(* ================================================================== *)

Lemma bind_ok_inv {A B : Type} (m : result A) (k : A -> result B) (b : B) :
  bind m k = Ok b -> exists a, m = Ok a /\ k a = Ok b.
Proof. destruct m; simpl; intros H; try discriminate H. eauto. Qed.

(** Take apart a hypothesis that says a piece of translated code ended
    with a value. *)
Ltac ok_inv :=
  repeat match goal with
         | H : Ok _ = Ok _ |- _ => injection H as H; try subst
         | H : Raise _ = Ok _ |- _ => discriminate H
         | H : OutOfFuel = Ok _ |- _ => discriminate H
         | H : bind ?m _ = Ok _ |- _ =>
             let a := fresh "a" in
             let Ha := fresh "Ha" in
             apply bind_ok_inv in H; destruct H as (a & Ha & H)
         | H : (if ?b then _ else _) = Ok _ |- _ => destruct b eqn:?
         end.

Lemma slot_constraint_shape (qt : QueryType) (c w d p : value) :
  In qt atomic_kinds -> emitted_shape (slot_constraint qt c w d p).
Proof. intros H. repeat split; assumption. Qed.

Lemma veto_day_per_course_shape (courses : list value) (d : value) :
  forall cs, veto_day_per_course courses d = Ok cs -> Forall emitted_shape cs.
Proof.
  unfold veto_day_per_course.
  induction courses as [|course rest IH]; simpl; intros cs H; ok_inv.
  - constructor.
  - constructor; [|now apply IH].
    repeat split; simpl; auto.
Qed.

Lemma parse_structured_query_shape :
  forall (self : QueryTranslator) (fuel : nat) (query_type : string)
         (params input_data : dict) (cs : list QueryConstraint),
    parse_structured_query self fuel query_type params input_data = Ok cs ->
    Forall emitted_shape cs.
Proof.
  intros self fuel qt params input_data cs H.
  unfold parse_structured_query in H.
  destruct (QueryType_of qt) as [q|]; [|discriminate H].
  assert (Hshape : forall c, (exists qt a b d e, c = slot_constraint qt a b d e
                                             /\ In qt atomic_kinds)
                             \/ (exists a b, c = with_room_id a
                                       (with_course_id b (QueryConstraint_init ENFORCE_ROOM)))
                             \/ (exists a b, c = with_period_end a
                                       (with_course_id b
                                          (QueryConstraint_init ENFORCE_BEFORE_TIME)))
                             \/ (exists a b, c = with_period_start a
                                       (with_course_id b
                                          (QueryConstraint_init ENFORCE_AFTER_TIME)))
                             \/ (exists a b, c = day_constraint VETO_DAY a b) ->
                             emitted_shape c).
  { intros c [(qt' & a & b & d & e & -> & Hin)|[(a & b & ->)|[(a & b & ->)|
              [(a & b & ->)|(a & b & ->)]]]];
      repeat split; simpl; auto 10. }
  destruct q;
    cbv [QueryType_eqb QueryType_value String.eqb Ascii.eqb Bool.eqb] in H.
  - (* enforce_time_slot *)
    ok_inv. constructor; [|constructor]. apply Hshape. left.
    do 5 eexists. split; [reflexivity|]. simpl; auto.
  - (* enforce_day *) ok_inv. constructor.
  - (* enforce_room *)
    ok_inv. constructor; [|constructor]. apply Hshape. right. left. eauto.
  - (* enforce_before_time *)
    ok_inv. constructor; [|constructor]. apply Hshape. do 2 right. left. eauto.
  - (* enforce_after_time *)
    ok_inv. constructor; [|constructor]. apply Hshape. do 3 right. left. eauto.
  - (* enforce_no_lunch *)
    ok_inv. apply Forall_forall. intros c Hc.
    apply in_flat_map in Hc. destruct Hc as (d & _ & Hc).
    apply in_map_iff in Hc. destruct Hc as (p & <- & _).
    apply slot_constraint_shape. simpl. auto.
  - (* enforce_consecutive *) ok_inv. constructor.
  - (* veto_time_slot *)
    ok_inv. constructor; [|constructor]. apply Hshape. left.
    do 5 eexists. split; [reflexivity|]. simpl; auto.
  - (* veto_day *)
    destruct (truthy (get params "course_id" VNone)).
    + ok_inv. constructor; [|constructor]. apply Hshape. do 4 right. eauto.
    + destruct (truthy (get params "instructor_id" VNone)); [|discriminate H].
      ok_inv. now apply veto_day_per_course_shape in H.
  - (* veto_room *) ok_inv. constructor.
  - (* veto_lunch *) ok_inv. constructor.
  - (* veto_instructor_day *)
    ok_inv. now apply veto_day_per_course_shape in H.
  - (* swap_time_slots *)
    ok_inv.
    repeat (constructor;
            [apply Hshape; left; do 5 eexists; split; [reflexivity|simpl; auto]|]).
    constructor.
  - (* swap_rooms *) ok_inv. constructor.
Qed.

(** X1: the structured path only ever emits atomic constraints.  Whatever
    the query, every constraint it returns is of kind enforce_time_slot,
    veto_time_slot, veto_day, enforce_room, enforce_before_time or
    enforce_after_time (the composite kinds enforce_no_lunch,
    swap_time_slots and veto_instructor_day are always decomposed), and
    carries no instructor id, no second course id and no extra
    parameter. *)
Theorem structured_translation_emits_atomic_constraints :
  forall (self : QueryTranslator) (fuel : nat) (query_type : string)
         (params input_data : dict) (cs : list QueryConstraint),
    parse_structured_query self fuel query_type params input_data = Ok cs ->
    Forall emitted_shape cs.
Proof. exact parse_structured_query_shape. Qed.

Lemma QueryType_value_inj (a b : QueryType) :
  QueryType_value a = QueryType_value b -> a = b.
Proof. destruct a, b; simpl; intros H; try reflexivity; discriminate H. Qed.

Lemma declared_fields_inj (c1 c2 : QueryConstraint) :
  extra_params c1 = [] -> extra_params c2 = [] ->
  declared_fields c1 = declared_fields c2 -> c1 = c2.
Proof.
  destruct c1, c2. unfold declared_fields. simpl. intros -> -> H.
  injection H as Hq -> -> -> -> -> -> -> ->.
  apply QueryType_value_inj in Hq. now subst.
Qed.

(** X2: serialization of translated constraints is lossless.  Every
    constraint the structured path returns serializes to a record with
    exactly the nine declared keys, in the declared order, and two
    returned constraints with the same serialization are the same
    constraint. *)
Theorem translated_constraints_serialize_losslessly :
  forall (self : QueryTranslator) (fuel : nat) (query_type : string)
         (params input_data : dict) (cs : list QueryConstraint),
    parse_structured_query self fuel query_type params input_data = Ok cs ->
    (forall c, In c cs ->
       map fst (to_dict c)
       = ["type"; "course_id"; "instructor_id"; "week"; "day"; "period_start";
          "period_end"; "room_id"; "course_id_2"])
    /\ (forall c1 c2, In c1 cs -> In c2 cs -> to_dict c1 = to_dict c2 -> c1 = c2).
Proof.
  intros self fuel qt params input_data cs H.
  pose proof (parse_structured_query_shape _ _ _ _ _ _ H) as Hshape.
  rewrite Forall_forall in Hshape.
  assert (Hplain : forall c, In c cs -> to_dict c = declared_fields c).
  { intros c Hc. destruct (Hshape c Hc) as (_ & _ & _ & He).
    unfold to_dict. rewrite He. reflexivity. }
  split.
  - intros c Hc. rewrite (Hplain c Hc). reflexivity.
  - intros c1 c2 H1 H2 Heq.
    rewrite (Hplain c1 H1), (Hplain c2 H2) in Heq.
    apply declared_fields_inj; [apply (Hshape c1 H1) | apply (Hshape c2 H2) | exact Heq].
Qed.

Lemma lookup_dict_set (k k' : string) (v : value) (d : dict) :
  lookup k (dict_set k' v d) = if String.eqb k k' then Some v else lookup k d.
Proof.
  induction d as [|[k0 v0] rest IH]; simpl.
  - reflexivity.
  - destruct (String.eqb k0 k') eqn:H0; simpl.
    + apply String.eqb_eq in H0. subst k0.
      destruct (String.eqb k k'); reflexivity.
    + rewrite IH. destruct (String.eqb k k0) eqn:Hk; [|reflexivity].
      apply String.eqb_eq in Hk. subst k0.
      now rewrite H0.
Qed.

Lemma lookup_dict_merge (k : string) (extra d : dict) :
  NoDup (map fst extra) ->
  lookup k (dict_merge d extra)
  = match lookup k extra with
    | Some v => Some v
    | None => lookup k d
    end.
Proof.
  unfold dict_merge. revert d.
  induction extra as [|[k' v'] rest IH]; simpl; intros d Hnd; [reflexivity|].
  inversion Hnd as [|? ? Hnotin Hnd']; subst.
  rewrite IH by assumption. rewrite lookup_dict_set.
  destruct (String.eqb k k') eqn:Hk; [|reflexivity].
  apply String.eqb_eq in Hk. subst k'.
  destruct (lookup k rest) eqn:Hl; [|reflexivity].
  exfalso. apply Hnotin. clear -Hl.
  induction rest as [|[k0 v0] rest IH]; simpl in *; [discriminate|].
  destruct (String.eqb k k0) eqn:Hk; [left; symmetry; now apply String.eqb_eq|].
  right. now apply IH.
Qed.

(** X3: in a serialized constraint an extra parameter wins over a
    declared field of the same name: looking a key up in [to_dict] gives
    the extra parameter of that name when there is one, and the declared
    field otherwise. *)
Theorem extra_parameters_override_declared_fields :
  forall (c : QueryConstraint) (k : string),
    NoDup (map fst (extra_params c)) ->
    lookup k (to_dict c)
    = match lookup k (extra_params c) with
      | Some v => Some v
      | None => lookup k (declared_fields c)
      end.
Proof. intros c k H. unfold to_dict. now apply lookup_dict_merge. Qed.

(** X4: a period length of zero or less makes the lunch computation run
    forever.  When the term configuration reads well, its period length
    is an integer that is not positive and the day starts before the end
    of lunch, neither _get_lunch_periods nor an enforce_no_lunch query
    ever returns, however long they run. *)
Theorem nonpositive_period_length_never_returns :
  forall (self : QueryTranslator) (fuel : nat) (params input_data : dict)
         (period_length : value) (start ls le n : Z),
    lunch_window (get input_data "term_config" (VDict []))
    = Ok (start, ls, le, period_length) ->
    as_int period_length = Some n -> (n <= 0)%Z -> (start < le)%Z ->
    _get_lunch_periods fuel (get input_data "term_config" (VDict [])) = OutOfFuel
    /\ parse_structured_query self fuel "enforce_no_lunch" params input_data
       = OutOfFuel.
Proof.
  intros self fuel params input_data pl start ls le n Hwin Hpl Hn Hlt.
  assert (Hget : _get_lunch_periods fuel (get input_data "term_config" (VDict []))
                 = OutOfFuel).
  { unfold _get_lunch_periods. rewrite Hwin. simpl.
    now apply lunch_loop_never_ends with (n := n). }
  split; [exact Hget|].
  dispatch ENFORCE_NO_LUNCH. rewrite Hget. reflexivity.
Qed.

(** X5: the lunch periods are one block of consecutive period indices in
    increasing order: whenever _get_lunch_periods returns, its result is
    first, first+1, ..., first+k-1 for some first index. *)
Theorem lunch_periods_are_consecutive :
  forall (fuel : nat) (term_config : value) (lunch_periods : list Z),
    _get_lunch_periods fuel term_config = Ok lunch_periods ->
    exists first,
      lunch_periods = consecutive_from first (List.length lunch_periods).
Proof.
  intros fuel cfg periods H. unfold _get_lunch_periods in H.
  destruct (lunch_window cfg) as [[[[start ls] le] pl]| |] eqn:Hwin;
    simpl in H; try discriminate H.
  destruct (as_int pl) as [n|] eqn:Hpl.
  - destruct (Z_lt_dec 0 n) as [Hn|Hn].
    + destruct (lunch_loop_block fuel pl n ls le start 0%Z [] periods Hpl Hn H)
        as (first & count & ->).
      exists first. simpl. now rewrite length_consecutive_from.
    + destruct (Z_lt_dec start le) as [Hlt|Hge].
      * rewrite (lunch_loop_never_ends fuel pl n ls le start 0%Z [] Hpl
                   ltac:(lia) Hlt) in H. discriminate H.
      * destruct fuel as [|fuel]; [discriminate H|]. simpl in H.
        destruct (Z.ltb_spec start le) as [Hlt|_]; [lia|].
        injection H as <-. exists 0%Z. reflexivity.
  - destruct fuel as [|fuel]; [discriminate H|]. simpl in H.
    destruct (start <? le)%Z.
    + unfold int_add in H. rewrite Hpl in H. discriminate H.
    + injection H as <-. exists 0%Z. reflexivity.
Qed.

(* ================================================================== *)
(** ** More properties of the validator *)
(* ================================================================== *)

(** The first loop puts nothing into the mappings but the keys of the
    enforce-class and veto-class constraints it reads. *)
Lemma collect_slots_keys_from :
  forall (cs : list QueryConstraint) (enforce veto enforce' veto' : slot_map),
    Forall (fun c => well_typed c = true) cs ->
    Forall (fun k => typed_key k = true) (keys enforce) ->
    Forall (fun k => typed_key k = true) (keys veto) ->
    collect_slots cs enforce veto = Ok (enforce', veto') ->
    Forall (fun k => typed_key k = true) (keys enforce')
    /\ Forall (fun k => typed_key k = true) (keys veto')
    /\ (forall k, In k (keys enforce') ->
          In k (keys enforce)
          \/ exists c, In c cs /\ is_enforce c = true /\ key_of c = k)
    /\ (forall k, In k (keys veto') ->
          In k (keys veto)
          \/ exists c, In c cs /\ is_veto c = true /\ key_of c = k).
Proof.
  induction cs as [|c cs IH]; intros enforce veto enforce' veto' Hcs He Hv H.
  - simpl in H. injection H as <- <-. auto.
  - inversion Hcs as [|? ? Hc Hcs']; subst.
    assert (Hkey : typed_key (key_of c) = true).
    { unfold well_typed in Hc. apply andb_true_iff in Hc. tauto. }
    rewrite collect_slots_cons in H.
    destruct (is_enforce c) eqn:Hen.
    + rewrite (hash_key_typed _ Hkey) in H. unfold bind in H.
      destruct (slot_map_set_in (key_of c) c enforce Hkey He) as (Ht & _ & _).
      destruct (IH _ _ _ _ Hcs' Ht Hv H) as (Te & Tv & Ke & Kv).
      repeat split; auto.
      * intros k Hk. destruct (Ke k Hk) as [Hin|(c0 & Hc0 & H0 & <-)].
        -- destruct (slot_map_set_keys (key_of c) c enforce Hkey He)
             as [[_ Heq]|Heq]; rewrite Heq in Hin.
           ++ now left.
           ++ apply in_app_or in Hin. destruct Hin as [Hin|[<-|[]]]; [now left|].
              right. exists c. simpl. auto.
        -- right. exists c0. simpl. auto.
      * intros k Hk. destruct (Kv k Hk) as [Hin|(c0 & Hc0 & H0 & <-)];
          [now left|].
        right. exists c0. simpl. auto.
    + destruct (QueryType_in (query_type c) [VETO_TIME_SLOT; VETO_DAY]) eqn:Hve.
      * rewrite (hash_key_typed _ Hkey) in H. unfold bind in H.
        destruct (slot_map_set_in (key_of c) c veto Hkey Hv) as (Ht & _ & _).
        destruct (IH _ _ _ _ Hcs' He Ht H) as (Te & Tv & Ke & Kv).
        repeat split; auto.
        -- intros k Hk. destruct (Ke k Hk) as [Hin|(c0 & Hc0 & H0 & <-)];
             [now left|].
           right. exists c0. simpl. auto.
        -- intros k Hk. destruct (Kv k Hk) as [Hin|(c0 & Hc0 & H0 & <-)].
           ++ destruct (slot_map_set_keys (key_of c) c veto Hkey Hv)
                as [[_ Heq]|Heq]; rewrite Heq in Hin.
              ** now left.
              ** apply in_app_or in Hin. destruct Hin as [Hin|[<-|[]]]; [now left|].
                 right. exists c. simpl. split; [auto|]. split; [|reflexivity].
                 unfold is_veto. now rewrite Hen, Hve.
           ++ right. exists c0. simpl. auto.
      * destruct (IH _ _ _ _ Hcs' He Hv H) as (Te & Tv & Ke & Kv).
        repeat split; auto.
        -- intros k Hk. destruct (Ke k Hk) as [Hin|(c0 & Hc0 & H0 & <-)];
             [now left|].
           right. exists c0. simpl. auto.
        -- intros k Hk. destruct (Kv k Hk) as [Hin|(c0 & Hc0 & H0 & <-)];
             [now left|].
           right. exists c0. simpl. auto.
Qed.

Lemma slot_map_mem_typed (k : slot_key) (m : slot_map) :
  typed_key k = true -> Forall (fun k' => typed_key k' = true) (keys m) ->
  (slot_map_mem k m = true <-> In k (keys m)).
Proof.
  intros Hk Hall. unfold slot_map_mem, keys in *. rewrite existsb_exists. split.
  - intros (e & Hin & Heq).
    rewrite Forall_forall in Hall.
    apply key_eq_typed in Heq; [|apply Hall; now apply in_map|exact Hk].
    subst k. now apply in_map.
  - intros Hin. apply in_map_iff in Hin. destruct Hin as (e & <- & Hin).
    exists e. split; [exact Hin|]. now apply key_eq_refl_typed.
Qed.

Lemma in_conflicts (enforce veto : slot_map) (m : string) :
  Forall (fun k => typed_key k = true) (keys enforce) ->
  Forall (fun k => typed_key k = true) (keys veto) ->
  (In m (conflicts enforce veto) <->
   exists k, In k (keys enforce) /\ In k (keys veto) /\ m = contradiction_message k).
Proof.
  intros He Hv. unfold conflicts. rewrite in_flat_map. split.
  - intros (e & Hin & Hm).
    assert (Hk : In (fst e) (keys enforce)) by (now apply in_map).
    assert (Ht : typed_key (fst e) = true).
    { rewrite Forall_forall in He. now apply He. }
    destruct (slot_map_mem (fst e) veto) eqn:Hmem; [|destruct Hm].
    destruct Hm as [<-|[]]. exists (fst e). split; [exact Hk|]. split; [|reflexivity].
    now apply slot_map_mem_typed.
  - intros (k & Hke & Hkv & ->).
    unfold keys in Hke. apply in_map_iff in Hke. destruct Hke as (e & <- & Hin).
    exists e. split; [exact Hin|].
    assert (Ht : typed_key (fst e) = true).
    { rewrite Forall_forall in He. apply He. now apply in_map. }
    apply (slot_map_mem_typed _ _ Ht Hv) in Hkv. rewrite Hkv. now left.
Qed.

Lemma set_mem_hashable (x : value) (ids : list value) :
  optional_str x = true ->
  set_mem x ids = Ok (existsb (fun i => py_eq i x) ids).
Proof.
  intros Hx. unfold set_mem, hash_value.
  now rewrite (optional_str_hashable x Hx).
Qed.

(** The last loop in closed form. *)
Lemma check_ids_closed_form :
  forall (cs : list QueryConstraint) (vc vi : list value) (errors : list string),
    Forall (fun c => well_typed c = true) cs ->
    check_ids cs vc vi errors
    = Ok (errors ++ flat_map (unknown_errors vc vi) cs)%list.
Proof.
  induction cs as [|c cs IH]; intros vc vi errors Hcs.
  - simpl. now rewrite app_nil_r.
  - inversion Hcs as [|? ? Hc Hcs']; subst.
    unfold well_typed, key_of, typed_key in Hc. rewrite !andb_true_iff in Hc.
    destruct Hc as [[[[Hcid _] _] _] Hiid].
    rewrite check_ids_cons.
    rewrite (set_mem_hashable _ vc Hcid), (set_mem_hashable _ vi Hiid).
    simpl flat_map. unfold unknown_errors at 1.
    destruct (truthy (course_id c)); destruct (truthy (instructor_id c));
      simpl bind; simpl andb;
      repeat match goal with
             | |- context [negb ?b] => destruct b; simpl negb
             end;
      simpl bind; rewrite IH by assumption;
      rewrite <- ?app_assoc; reflexivity.
Qed.

(** The whole validator in closed form, on well-typed constraints. *)
Lemma validate_closed_form :
  forall (cs : list QueryConstraint) (input_data : dict)
         (valid_courses valid_instructors : list value),
    Forall (fun c => well_typed c = true) cs ->
    id_set input_data "courses" = Ok valid_courses ->
    id_set input_data "instructors" = Ok valid_instructors ->
    exists contradictions,
      validate_query_constraints cs input_data
      = Ok (Nat.eqb
              (List.length
                 (contradictions
                  ++ flat_map (unknown_errors valid_courses valid_instructors) cs))
              0,
            (contradictions
             ++ flat_map (unknown_errors valid_courses valid_instructors) cs)%list)
      /\ (forall m, In m contradictions <->
            exists e v, In e cs /\ In v cs
                        /\ is_enforce e = true /\ is_veto v = true
                        /\ key_of e = key_of v
                        /\ m = contradiction_message (key_of e)).
Proof.
  intros cs input_data vc vi Hcs Hvc Hvi.
  unfold validate_query_constraints.
  destruct (collect_slots_typed cs [] [] Hcs (Forall_nil _) (Forall_nil _))
    as (enf & vet & Hrun & _ & _ & Henf & Hvet).
  destruct (collect_slots_keys_from cs [] [] enf vet Hcs (Forall_nil _)
              (Forall_nil _) Hrun) as (Te & Tv & Ke & Kv).
  rewrite Hrun. unfold bind at 1. rewrite Hvc, Hvi. unfold bind at 1 2.
  rewrite (check_ids_closed_form cs vc vi (conflicts enf vet) Hcs). unfold bind.
  exists (conflicts enf vet). split; [reflexivity|].
  intros m. rewrite (in_conflicts enf vet m Te Tv). split.
  - intros (k & Hke & Hkv & ->).
    destruct (Ke k Hke) as [[]|(e & He & Hte & <-)].
    destruct (Kv _ Hkv) as [[]|(v & Hv & Htv & Hkey)].
    exists e, v. repeat split; auto.
  - intros (e & v & He & Hv & Hte & Htv & Hkey & ->).
    exists (key_of e). split; [auto|]. split; [|reflexivity].
    rewrite Hkey. auto.
Qed.

Lemma slot_map_set_keys_exact (k : slot_key) (c : QueryConstraint) (m : slot_map) :
  keys (slot_map_set k c m)
  = if existsb (fun s => key_eq s k) (keys m) then keys m
    else (keys m ++ [k])%list.
Proof.
  unfold keys. induction m as [|[k' c'] m IH]; simpl; [reflexivity|].
  destruct (key_eq k' k); simpl; [reflexivity|].
  rewrite IH. now destruct (existsb _ (map fst m)).
Qed.

Lemma is_veto_not_enforce (c : QueryConstraint) :
  is_enforce c = false ->
  is_veto c = QueryType_in (query_type c) [VETO_TIME_SLOT; VETO_DAY].
Proof. intros H. unfold is_veto. now rewrite H. Qed.

Lemma is_enforce_not_veto (c : QueryConstraint) :
  is_enforce c = true -> is_veto c = false.
Proof. intros H. unfold is_veto. now rewrite H. Qed.

Lemma collect_slots_keys_exact :
  forall (cs : list QueryConstraint) (enforce veto enforce' veto' : slot_map),
    collect_slots cs enforce veto = Ok (enforce', veto') ->
    keys enforce'
    = (keys enforce
       ++ distinct_keys (map key_of (filter is_enforce cs)) (keys enforce))%list
    /\ keys veto'
       = (keys veto
          ++ distinct_keys (map key_of (filter is_veto cs)) (keys veto))%list.
Proof.
  induction cs as [|c cs IH]; intros enforce veto enforce' veto' H.
  - simpl in H. injection H as <- <-. simpl. now rewrite !app_nil_r.
  - rewrite collect_slots_cons in H. cbn [filter].
    destruct (is_enforce c) eqn:Hen.
    + rewrite (is_enforce_not_veto c Hen).
      apply bind_ok_inv in H. destruct H as (u & _ & H).
      destruct (IH _ _ _ _ H) as [He Hv]. split; [|exact Hv].
      rewrite He, slot_map_set_keys_exact. cbn [map distinct_keys].
      destruct (existsb (fun s => key_eq s (key_of c)) (keys enforce));
        [reflexivity|].
      now rewrite <- app_assoc.
    + rewrite (is_veto_not_enforce c Hen).
      destruct (QueryType_in (query_type c) [VETO_TIME_SLOT; VETO_DAY]) eqn:Hve.
      * apply bind_ok_inv in H. destruct H as (u & _ & H).
        destruct (IH _ _ _ _ H) as [He Hv]. split; [exact He|].
        rewrite Hv, slot_map_set_keys_exact. cbn [map distinct_keys].
        destruct (existsb (fun s => key_eq s (key_of c)) (keys veto));
          [reflexivity|].
        now rewrite <- app_assoc.
      * now apply IH.
Qed.

Lemma existsb_on_keys (k : slot_key) (m : slot_map) :
  existsb (fun v => key_eq v k) (keys m) = slot_map_mem k m.
Proof.
  unfold keys, slot_map_mem.
  induction m as [|e m IH]; simpl; [reflexivity|]. now rewrite IH.
Qed.

Lemma conflicts_by_keys (enforce veto : slot_map) :
  conflicts enforce veto
  = map contradiction_message
      (filter (fun k => existsb (fun v => key_eq v k) (keys veto)) (keys enforce)).
Proof.
  unfold conflicts.
  induction enforce as [|[k c] rest IH]; simpl; [reflexivity|].
  rewrite existsb_on_keys.
  destruct (slot_map_mem k veto); simpl; now rewrite IH.
Qed.

Lemma existsb_key_typed (k : slot_key) (l : list slot_key) :
  typed_key k = true -> Forall (fun k' => typed_key k' = true) l ->
  (existsb (fun v => key_eq v k) l = true <-> In k l).
Proof.
  intros Hk Hall. rewrite existsb_exists. rewrite Forall_forall in Hall. split.
  - intros (v & Hv & He). apply key_eq_typed in He; auto. now subst.
  - intros Hin. exists k. split; [assumption|]. now apply key_eq_refl_typed.
Qed.

Lemma in_distinct_keys (l : list slot_key) :
  forall (seen : list slot_key) (k : slot_key),
    typed_key k = true ->
    Forall (fun k' => typed_key k' = true) l ->
    Forall (fun k' => typed_key k' = true) seen ->
    (In k (seen ++ distinct_keys l seen)%list <-> In k (seen ++ l)%list).
Proof.
  induction l as [|a l IH]; intros seen k Hk Hl Hseen; [reflexivity|].
  inversion Hl as [|? ? Ha Hl']; subst. cbn [distinct_keys].
  destruct (existsb (fun s => key_eq s a) seen) eqn:Hex.
  - apply (existsb_key_typed a seen Ha Hseen) in Hex.
    rewrite (IH seen k Hk Hl' Hseen). rewrite !in_app_iff. simpl.
    split; [tauto|]. intros [H|[<-|H]]; auto.
  - assert (Hseen' : Forall (fun k' => typed_key k' = true) (seen ++ [a])%list).
    { apply Forall_app. split; [assumption|]. now constructor. }
    pose proof (IH (seen ++ [a])%list k Hk Hl' Hseen') as Hiff.
    rewrite <- !app_assoc in Hiff. simpl in Hiff. exact Hiff.
Qed.

Lemma distinct_keys_typed (l : list slot_key) :
  forall seen,
    Forall (fun k' => typed_key k' = true) l ->
    Forall (fun k' => typed_key k' = true) (distinct_keys l seen).
Proof.
  induction l as [|a l IH]; intros seen Hl; [constructor|].
  inversion Hl as [|? ? Ha Hl']; subst. cbn [distinct_keys].
  destruct (existsb (fun s => key_eq s a) seen); [now apply IH|].
  constructor; [assumption|now apply IH].
Qed.

Lemma class_keys_typed (f : QueryConstraint -> bool) (cs : list QueryConstraint) :
  Forall (fun c => well_typed c = true) cs ->
  Forall (fun k => typed_key k = true) (map key_of (filter f cs)).
Proof.
  intros H. apply Forall_forall. intros k Hk.
  apply in_map_iff in Hk. destruct Hk as (c & <- & Hc).
  apply filter_In in Hc. destruct Hc as [Hc _].
  rewrite Forall_forall in H. specialize (H c Hc).
  unfold well_typed in H. apply andb_true_iff in H. tauto.
Qed.

Lemma conflicts_expected :
  forall (cs : list QueryConstraint) (enforce veto : slot_map),
    Forall (fun c => well_typed c = true) cs ->
    collect_slots cs [] [] = Ok (enforce, veto) ->
    conflicts enforce veto = expected_contradictions cs.
Proof.
  intros cs enforce veto Hcs H.
  destruct (collect_slots_keys_exact cs [] [] enforce veto H) as [He Hv].
  simpl in He, Hv.
  rewrite conflicts_by_keys, He, Hv. unfold expected_contradictions.
  f_equal. apply filter_ext_in. intros k Hk.
  pose proof (class_keys_typed is_enforce cs Hcs) as Te.
  pose proof (class_keys_typed is_veto cs Hcs) as Tv.
  assert (Tk : typed_key k = true).
  { pose proof (distinct_keys_typed _ [] Te) as Td.
    rewrite Forall_forall in Td. now apply Td. }
  apply eq_true_iff_eq.
  rewrite (existsb_key_typed k _ Tk (distinct_keys_typed _ [] Tv)).
  rewrite (existsb_key_typed k _ Tk Tv).
  apply (in_distinct_keys _ [] k Tk Tv (Forall_nil _)).
Qed.

Lemma validate_exact :
  forall (cs : list QueryConstraint) (input_data : dict)
         (valid_courses valid_instructors : list value),
    Forall (fun c => well_typed c = true) cs ->
    id_set input_data "courses" = Ok valid_courses ->
    id_set input_data "instructors" = Ok valid_instructors ->
    validate_query_constraints cs input_data
    = Ok (Nat.eqb
            (List.length
               (expected_contradictions cs
                ++ flat_map (unknown_errors valid_courses valid_instructors) cs))
            0,
          (expected_contradictions cs
           ++ flat_map (unknown_errors valid_courses valid_instructors) cs)%list)
    /\ (forall m, In m (expected_contradictions cs) <->
          exists e v, In e cs /\ In v cs
                      /\ is_enforce e = true /\ is_veto v = true
                      /\ key_of e = key_of v
                      /\ m = contradiction_message (key_of e)).
Proof.
  intros cs input_data vc vi Hcs Hvc Hvi.
  destruct (validate_closed_form cs input_data vc vi Hcs Hvc Hvi)
    as (contradictions & Hrun & Hin).
  assert (Heq : contradictions = expected_contradictions cs).
  { unfold validate_query_constraints in Hrun.
    destruct (collect_slots_typed cs [] [] Hcs (Forall_nil _) (Forall_nil _))
      as (enf & vet & Hcol & _).
    rewrite Hcol in Hrun. unfold bind at 1 in Hrun.
    rewrite Hvc, Hvi in Hrun. unfold bind at 1 2 in Hrun.
    rewrite (check_ids_closed_form cs vc vi (conflicts enf vet) Hcs) in Hrun.
    unfold bind in Hrun.
    injection Hrun as _ Hrun. apply app_inv_tail in Hrun.
    rewrite <- Hrun. now apply conflicts_expected. }
  subst contradictions. split; [exact Hrun|exact Hin].
Qed.

(** X7: the validator reports every violation, once and in order.  On
    well-typed constraints and an instance whose courses and instructors
    carry ids it never raises, and its error list is exactly: one
    contradiction message for each distinct (course, week, day, period)
    key of an enforce-class constraint that is also the key of a
    veto-class constraint, in the order in which these keys first occur
    among the enforce-class constraints; then, for each constraint in
    sequence order, its unknown-course error and its unknown-instructor
    error; ok is true exactly when that list is empty. *)
Theorem validation_reports_every_violation :
  forall (cs : list QueryConstraint) (input_data : dict)
         (valid_courses valid_instructors : list value),
    Forall (fun c => well_typed c = true) cs ->
    id_set input_data "courses" = Ok valid_courses ->
    id_set input_data "instructors" = Ok valid_instructors ->
    validate_query_constraints cs input_data
    = Ok (Nat.eqb
            (List.length
               (expected_contradictions cs
                ++ flat_map (unknown_errors valid_courses valid_instructors) cs))
            0,
          (expected_contradictions cs
           ++ flat_map (unknown_errors valid_courses valid_instructors) cs)%list)
    /\ (forall m, In m (expected_contradictions cs) <->
          exists e v, In e cs /\ In v cs
                      /\ is_enforce e = true /\ is_veto v = true
                      /\ key_of e = key_of v
                      /\ m = contradiction_message (key_of e)).
Proof. exact validate_exact. Qed.

Lemma known_id_iff (x : value) (ids : list value) :
  optional_str x = true -> truthy x = true ->
  (existsb (fun i => py_eq i x) ids = true <-> In x ids).
Proof.
  intros Hx Ht. destruct x; simpl in Hx, Ht; try discriminate.
  rewrite existsb_exists. split.
  - intros (i & Hin & Heq). apply py_eq_str_r in Heq. now subst.
  - intros Hin. exists (VStr s). split; [exact Hin|]. simpl. apply String.eqb_refl.
Qed.

Lemma unknown_errors_nil (vc vi : list value) (c : QueryConstraint) :
  well_typed c = true ->
  (unknown_errors vc vi c = [] <->
   (truthy (course_id c) = true -> In (course_id c) vc)
   /\ (truthy (instructor_id c) = true -> In (instructor_id c) vi)).
Proof.
  intros Hc. unfold well_typed, key_of, typed_key in Hc.
  rewrite !andb_true_iff in Hc. destruct Hc as [[[[Hcid _] _] _] Hiid].
  unfold unknown_errors.
  destruct (truthy (course_id c)) eqn:Htc; destruct (truthy (instructor_id c)) eqn:Hti;
    simpl andb.
  - pose proof (known_id_iff _ vc Hcid Htc) as Kc.
    pose proof (known_id_iff _ vi Hiid Hti) as Ki.
    destruct (existsb (fun i => py_eq i (course_id c)) vc);
      destruct (existsb (fun i => py_eq i (instructor_id c)) vi); simpl;
      split; try discriminate; intuition (try discriminate; auto).
  - pose proof (known_id_iff _ vc Hcid Htc) as Kc.
    destruct (existsb (fun i => py_eq i (course_id c)) vc); simpl;
      split; try discriminate; intuition (try discriminate; auto).
  - pose proof (known_id_iff _ vi Hiid Hti) as Ki.
    destruct (existsb (fun i => py_eq i (instructor_id c)) vi); simpl;
      split; try discriminate; intuition (try discriminate; auto).
  - simpl. intuition discriminate.
Qed.

Lemma flat_map_nil {A B : Type} (f : A -> list B) (l : list A) :
  flat_map f l = [] <-> forall x, In x l -> f x = [].
Proof.
  induction l as [|a l IH]; simpl.
  - split; [intros _ x []|reflexivity].
  - split.
    + intros H. apply app_eq_nil in H. destruct H as [Ha Hl].
      intros x [<-|Hx]; [exact Ha|]. now apply IH.
    + intros H. rewrite (H a (or_introl eq_refl)).
      simpl. apply IH. intros x Hx. apply H. now right.
Qed.

Lemma validate_passes_iff :
  forall (cs : list QueryConstraint) (input_data : dict)
         (valid_courses valid_instructors : list value),
    Forall (fun c => well_typed c = true) cs ->
    id_set input_data "courses" = Ok valid_courses ->
    id_set input_data "instructors" = Ok valid_instructors ->
    (validate_query_constraints cs input_data = Ok (true, [])
     <->
     (forall e v, In e cs -> In v cs ->
                  is_enforce e = true -> is_veto v = true ->
                  key_of e <> key_of v)
     /\ (forall c, In c cs -> truthy (course_id c) = true ->
                   In (course_id c) valid_courses)
     /\ (forall c, In c cs -> truthy (instructor_id c) = true ->
                   In (instructor_id c) valid_instructors)).
Proof.
  intros cs input_data vc vi Hcs Hvc Hvi.
  destruct (validate_closed_form cs input_data vc vi Hcs Hvc Hvi)
    as (contradictions & Hrun & Hcontra).
  rewrite Hrun. rewrite Forall_forall in Hcs. split.
  - intros H. injection H as _ Hnil.
    apply app_eq_nil in Hnil. destruct Hnil as [Hc Hu].
    rewrite flat_map_nil in Hu. split; [|split].
    + intros e v He Hv Hte Htv Hkey.
      assert (Hin : In (contradiction_message (key_of e)) contradictions).
      { apply Hcontra. exists e, v. repeat split; auto. }
      rewrite Hc in Hin. destruct Hin.
    + intros c Hc0 Ht.
      exact (proj1 (proj1 (unknown_errors_nil vc vi c (Hcs c Hc0)) (Hu c Hc0)) Ht).
    + intros c Hc0 Ht.
      exact (proj2 (proj1 (unknown_errors_nil vc vi c (Hcs c Hc0)) (Hu c Hc0)) Ht).
  - intros (Hclean & Hkc & Hki).
    assert (Hc : contradictions = []).
    { destruct contradictions as [|m rest]; [reflexivity|]. exfalso.
      destruct (proj1 (Hcontra m) (or_introl eq_refl))
        as (e & v & He & Hv & Hte & Htv & Hkey & _).
      exact (Hclean e v He Hv Hte Htv Hkey). }
    assert (Hu : flat_map (unknown_errors vc vi) cs = []).
    { apply flat_map_nil. intros c Hc0.
      apply (unknown_errors_nil vc vi c (Hcs c Hc0)). split; auto. }
    rewrite Hc, Hu. reflexivity.
Qed.

(** X6: validation passes exactly on clean constraint sets.  On
    well-typed constraints and an instance whose courses and instructors
    carry ids, validate returns ok=true with no error if and only if no
    enforce-class constraint shares its (course, week, day, period) key
    with a veto-class constraint and every set course and instructor
    identifier is one of the instance's. *)
Theorem validation_passes_exactly_when_clean :
  forall (cs : list QueryConstraint) (input_data : dict)
         (valid_courses valid_instructors : list value),
    Forall (fun c => well_typed c = true) cs ->
    id_set input_data "courses" = Ok valid_courses ->
    id_set input_data "instructors" = Ok valid_instructors ->
    (validate_query_constraints cs input_data = Ok (true, [])
     <->
     (forall e v, In e cs -> In v cs ->
                  is_enforce e = true -> is_veto v = true ->
                  key_of e <> key_of v)
     /\ (forall c, In c cs -> truthy (course_id c) = true ->
                   In (course_id c) valid_courses)
     /\ (forall c, In c cs -> truthy (instructor_id c) = true ->
                   In (instructor_id c) valid_instructors)).
Proof. exact validate_passes_iff. Qed.

(** The swap expansion, with the current assignments at hand. *)
Lemma swap_translation :
  forall (self : QueryTranslator) (fuel : nat) (params input_data : dict)
         (A B a1 a2 wA dA pA wB dB pB : value),
    get params "course_id_1" VNone = A ->
    get params "course_id_2" VNone = B ->
    truthy A = true -> truthy B = true ->
    _find_assignment A (get params "current_schedule" (VDict [])) = Ok a1 ->
    _find_assignment B (get params "current_schedule" (VDict [])) = Ok a2 ->
    a1 <> VNone -> a2 <> VNone ->
    subscript a1 "week" = Ok wA -> subscript a1 "day" = Ok dA ->
    subscript a1 "period_start" = Ok pA ->
    subscript a2 "week" = Ok wB -> subscript a2 "day" = Ok dB ->
    subscript a2 "period_start" = Ok pB ->
    parse_structured_query self fuel "swap_time_slots" params input_data
    = Ok [slot_constraint ENFORCE_TIME_SLOT A wB dB pB;
          slot_constraint VETO_TIME_SLOT A wA dA pA;
          slot_constraint ENFORCE_TIME_SLOT B wA dA pA;
          slot_constraint VETO_TIME_SLOT B wB dB pB].
Proof.
  intros self fuel params input_data A B a1 a2 wA dA pA wB dB pB
         HA HB HtA HtB H1 H2 Hn1 Hn2 HwA HdA HpA HwB HdB HpB.
  dispatch SWAP_TIME_SLOTS.
  rewrite HA, HB, HtA, HtB. simpl negb. simpl orb. cbv iota.
  rewrite H1, H2. unfold bind at 1 2.
  rewrite (find_assignment_truthy A _ a1 HtA H1 Hn1).
  rewrite (find_assignment_truthy B _ a2 HtB H2 Hn2).
  simpl negb. simpl orb. cbv iota.
  rewrite HwA, HdA, HpA, HwB, HdB, HpB. reflexivity.
Qed.

(** X8: a swap of two courses that sit in the same slot cannot pass
    validation, and every other swap of known courses does.  For courses
    A and B of the instance whose current assignments carry well-typed
    week, day and period_start, the four constraints of the swap are
    reported as contradictory when the two courses share their current
    (week, day, period_start), and validate returns ok=true with no error
    otherwise. *)
Theorem swap_passes_validation_unless_slots_coincide :
  forall (self : QueryTranslator) (fuel : nat) (params input_data : dict)
         (a b : string) (a1 a2 wA dA pA wB dB pB : value)
         (valid_courses valid_instructors : list value),
    get params "course_id_1" VNone = VStr a ->
    get params "course_id_2" VNone = VStr b ->
    a <> EmptyString -> b <> EmptyString ->
    _find_assignment (VStr a) (get params "current_schedule" (VDict [])) = Ok a1 ->
    _find_assignment (VStr b) (get params "current_schedule" (VDict [])) = Ok a2 ->
    a1 <> VNone -> a2 <> VNone ->
    subscript a1 "week" = Ok wA -> subscript a1 "day" = Ok dA ->
    subscript a1 "period_start" = Ok pA ->
    subscript a2 "week" = Ok wB -> subscript a2 "day" = Ok dB ->
    subscript a2 "period_start" = Ok pB ->
    typed_key (VStr a, wA, dA, pA) = true ->
    typed_key (VStr b, wB, dB, pB) = true ->
    id_set input_data "courses" = Ok valid_courses ->
    id_set input_data "instructors" = Ok valid_instructors ->
    In (VStr a) valid_courses -> In (VStr b) valid_courses ->
    exists cs,
      parse_structured_query self fuel "swap_time_slots" params input_data = Ok cs
      /\ ((wA, dA, pA) = (wB, dB, pB) ->
          exists errors,
            validate_query_constraints cs input_data = Ok (false, errors)
            /\ In (contradiction_message (VStr a, wA, dA, pA)) errors)
      /\ ((wA, dA, pA) <> (wB, dB, pB) ->
          validate_query_constraints cs input_data = Ok (true, [])).
Proof.
  intros self fuel params input_data a b a1 a2 wA dA pA wB dB pB vc vi
         HA HB Hna Hnb H1 H2 Hn1 Hn2 HwA HdA HpA HwB HdB HpB HtA HtB Hvc Hvi Hina Hinb.
  assert (Htra : truthy (VStr a) = true).
  { simpl. destruct (String.eqb_spec a EmptyString); [contradiction|reflexivity]. }
  assert (Htrb : truthy (VStr b) = true).
  { simpl. destruct (String.eqb_spec b EmptyString); [contradiction|reflexivity]. }
  eexists. split.
  { exact (swap_translation self fuel params input_data (VStr a) (VStr b) a1 a2
             wA dA pA wB dB pB HA HB Htra Htrb H1 H2 Hn1 Hn2
             HwA HdA HpA HwB HdB HpB). }
  simpl in HtA, HtB. rewrite !andb_true_iff in HtA, HtB.
  destruct HtA as [[HwAt HdAt] HpAt]. destruct HtB as [[HwBt HdBt] HpBt].
  assert (Htyped : Forall (fun c => well_typed c = true)
                     [slot_constraint ENFORCE_TIME_SLOT (VStr a) wB dB pB;
                      slot_constraint VETO_TIME_SLOT (VStr a) wA dA pA;
                      slot_constraint ENFORCE_TIME_SLOT (VStr b) wA dA pA;
                      slot_constraint VETO_TIME_SLOT (VStr b) wB dB pB]).
  { repeat constructor; unfold well_typed; simpl;
      rewrite ?HwAt, ?HdAt, ?HpAt, ?HwBt, ?HdBt, ?HpBt; reflexivity. }
  split.
  - intros Hsame. injection Hsame as <- <- <-.
    destruct (validate_typed _ input_data vc vi Htyped Hvc Hvi)
      as (errors & Hrun & Hcontra & _ & _).
    assert (Hin : In (contradiction_message (VStr a, wA, dA, pA)) errors).
    { apply (Hcontra (slot_constraint ENFORCE_TIME_SLOT (VStr a) wA dA pA)
                     (slot_constraint VETO_TIME_SLOT (VStr a) wA dA pA));
        simpl; auto. }
    exists errors. split; [|exact Hin].
    rewrite Hrun, (nonempty_not_ok _ _ Hin). reflexivity.
  - intros Hdiff.
    assert (Hab : a <> b).
    { intros ->. apply Hdiff.
      assert (a1 = a2) by congruence. subst a2. congruence. }
    apply (validate_passes_iff _ input_data vc vi Htyped Hvc Hvi).
    split; [|split].
    + intros e v He Hv Hte Htv Hkey. simpl in He, Hv.
      destruct He as [<-|[<-|[<-|[<-|[]]]]]; try discriminate Hte;
        destruct Hv as [<-|[<-|[<-|[<-|[]]]]]; try discriminate Htv;
        unfold key_of in Hkey; simpl in Hkey; injection Hkey; intros; subst;
        first [apply Hdiff; reflexivity | apply Hab; reflexivity].
    + intros c Hc Ht. simpl in Hc.
      destruct Hc as [<-|[<-|[<-|[<-|[]]]]]; simpl; assumption.
    + intros c Hc Ht. simpl in Hc.
      destruct Hc as [<-|[<-|[<-|[<-|[]]]]]; discriminate Ht.
Qed.

(** X9: _find_assignment answers with the first assignment of the
    schedule, in schedule order, whose course_id equals the course asked
    for, and with None when there is none; a schedule that has no
    assignments entry has no assignment for any course. *)
Theorem find_assignment_takes_the_first_match :
  forall (course : value) (schedule : dict),
    (forall items,
        lookup "assignments" schedule = Some (VList items) ->
        Forall (fun a => is_dict a = true) items ->
        _find_assignment course (VDict schedule)
        = Ok (match find (assigned_to course) items with
              | Some a => a
              | None => VNone
              end))
    /\ (lookup "assignments" schedule = None ->
        _find_assignment course (VDict schedule) = Ok VNone).
Proof.
  intros course schedule. unfold _find_assignment. simpl. unfold get. split.
  - intros items -> Hall. simpl. now apply find_assignment_loop_find.
  - intros ->. reflexivity.
Qed.

(* ================================================================== *)
(** ** Properties of the free-text path *)
(* ================================================================== *)

Lemma digit_cases (c : ascii) :
  is_digit c = true ->
  In c ["0"; "1"; "2"; "3"; "4"; "5"; "6"; "7"; "8"; "9"]%char.
Proof.
  destruct c as [[] [] [] [] [] [] [] []]; intros H; try discriminate H;
    simpl; auto 12.
Qed.

Lemma py_int_one_digit (c : ascii) :
  is_digit c = true ->
  exists z, py_int (String c EmptyString) = Ok z /\ (0 <= z <= 9)%Z.
Proof.
  intros H. apply digit_cases in H. simpl in H.
  repeat (destruct H as [<-|H]; [eexists; split; [vm_compute; reflexivity|lia]|]).
  destruct H.
Qed.

Lemma py_int_two_digits (c1 c2 : ascii) :
  is_digit c1 = true -> is_digit c2 = true ->
  exists z, py_int (String c1 (String c2 EmptyString)) = Ok z /\ (0 <= z <= 99)%Z.
Proof.
  intros H1 H2. apply digit_cases in H1. apply digit_cases in H2.
  simpl in H1, H2.
  repeat (destruct H1 as [<-|H1];
          [repeat (destruct H2 as [<-|H2]; [eexists; split; [vm_compute; reflexivity|lia]|]);
           destruct H2|]).
  destruct H1.
Qed.

Lemma py_int_one_or_two_digits (g : string) :
  one_or_two_digits g -> exists z, py_int g = Ok z /\ (0 <= z <= 99)%Z.
Proof.
  intros [(c & Hc & ->)|(c1 & c2 & H1 & H2 & ->)].
  - destruct (py_int_one_digit c Hc) as (z & Hz & Hb). exists z. split; [exact Hz|lia].
  - now apply py_int_two_digits.
Qed.

Lemma match_time_groups (s : string) (g0 g1 g2 : string) (n : nat) :
  match_time s = Some (g0, g1, g2, n) -> time_groups (g0, g1, g2).
Proof.
  unfold match_time. destruct s as [|c1 r1]; [discriminate|].
  destruct (is_digit c1) eqn:H1; [|discriminate].
  destruct (match r1 with
            | String c2 r2 =>
                if is_digit c2
                then (String c1 (String c2 EmptyString), 2%nat, r2)
                else (String c1 EmptyString, 1%nat, r1)
            | EmptyString => (String c1 EmptyString, 1%nat, r1)
            end) as [[h k] r2] eqn:Hh.
  assert (Hhour : one_or_two_digits h).
  { destruct r1 as [|c2 r2'].
    - injection Hh as <- _ _. left. eauto.
    - destruct (is_digit c2) eqn:H2; injection Hh as <- _ _.
      + right. eauto.
      + left. eauto. }
  clear Hh.
  destruct (match r2 with
            | String colon (String m1 (String m2 r3)) =>
                if Ascii.eqb colon ":"%char && is_digit m1 && is_digit m2
                then (String m1 (String m2 EmptyString), 3%nat, r3)
                else (EmptyString, 0%nat, r2)
            | _ => (EmptyString, 0%nat, r2)
            end) as [[m k'] r3] eqn:Hm.
  assert (Hmin : m = EmptyString
                 \/ exists c1 c2, is_digit c1 = true /\ is_digit c2 = true
                                  /\ m = String c1 (String c2 EmptyString)).
  { destruct r2 as [|colon [|m1 [|m2 r3']]];
      try (injection Hm as <- _ _; now left).
    destruct (Ascii.eqb colon ":"%char && is_digit m1 && is_digit m2) eqn:Hc;
      injection Hm as <- _ _; [|now left].
    rewrite !andb_true_iff in Hc. right. exists m1, m2. tauto. }
  clear Hm.
  destruct (skip_spaces r3) as [n3 r4].
  destruct (if prefix "am" r4 then ("am", 2%nat)
            else if prefix "pm" r4 then ("pm", 2%nat) else (EmptyString, 0%nat))
    as [mer n4].
  intros [= <- <- _ _]. split; assumption.
Qed.

Lemma findall_times_cons (skip : nat) (c : ascii) (rest : string) :
  findall_times skip (String c rest)
  = match skip with
    | S k => findall_times k rest
    | O =>
        match match_time (String c rest) with
        | Some (hour, minute, meridiem, n) =>
            (hour, minute, meridiem) :: findall_times (n - 1) rest
        | None => findall_times 0 rest
        end
    end.
Proof. reflexivity. Qed.

Lemma findall_times_groups :
  forall (s : string) (skip : nat), Forall time_groups (findall_times skip s).
Proof.
  induction s as [|c rest IH]; intros skip; [constructor|].
  rewrite findall_times_cons.
  destruct skip as [|k]; [|apply IH].
  destruct (match_time (String c rest)) as [[[[g0 g1] g2] n]|] eqn:Hm; [|apply IH].
  constructor; [|apply IH]. exact (match_time_groups _ _ _ _ _ Hm).
Qed.

Lemma period_of_match_bounds (m : string * string * string) :
  time_groups m ->
  exists r, period_of_match m = Ok r
            /\ match r with
               | Some i => (0 <= i <= 185)%Z
               | None => True
               end.
Proof.
  destruct m as [[g0 g1] mer]. intros [H0 H1]. unfold period_of_match.
  destruct (py_int_one_or_two_digits g0 H0) as (hour & -> & Hh).
  assert (Hmin : exists minute,
             (if String.eqb g1 EmptyString then Ok 0%Z else py_int g1) = Ok minute
             /\ (0 <= minute <= 99)%Z).
  { destruct H1 as [->|(c1 & c2 & Hc1 & Hc2 & ->)].
    - exists 0%Z. split; [reflexivity|lia].
    - simpl String.eqb. now apply py_int_two_digits. }
  destruct Hmin as (minute & -> & Hm). simpl bind.
  eexists. split; [reflexivity|].
  match goal with
  | |- match (if (?p >=? 0)%Z then _ else _) with _ => _ end =>
      destruct (Z.geb_spec p 0) as [Hge|Hlt]; [|exact I]
  end.
  split; [lia|].
  destruct (String.eqb mer "pm" && (hour <? 12)%Z) eqn:Hpm.
  - apply andb_true_iff in Hpm. destruct Hpm as [_ Hpm]. apply Z.ltb_lt in Hpm.
    Z.to_euclidean_division_equations. lia.
  - destruct (String.eqb mer "am" && (hour =? 12)%Z);
      Z.to_euclidean_division_equations; lia.
Qed.

Lemma periods_loop_bounds (matches : list (string * string * string)) :
  Forall time_groups matches ->
  exists ps, periods_loop matches = Ok ps
             /\ Forall (fun i => (0 <= i <= 185)%Z) ps.
Proof.
  induction 1 as [|m rest Hm _ IH]; simpl.
  - exists []. split; [reflexivity|constructor].
  - destruct (period_of_match_bounds m Hm) as (r & -> & Hr).
    destruct IH as (ps & -> & Hps). simpl.
    destruct r as [i|]; eexists; split; try reflexivity; auto.
Qed.

(** X12: time extraction never raises and only yields period indices
    between 0 and 185: whatever the text, _extract_times returns a list,
    every entry of which is a period index of the 08:00 / 30-minute grid
    that is not negative and not above the index of 99:99. *)
Theorem extracted_times_are_bounded :
  forall text : string,
    exists periods,
      _extract_times text = Ok periods
      /\ Forall (fun i => (0 <= i <= 185)%Z) periods.
Proof.
  intros text. unfold _extract_times.
  apply periods_loop_bounds, findall_times_groups.
Qed.

Lemma prefix_app (a b t : string) : prefix (a ++ b) t = true -> prefix a t = true.
Proof.
  revert t. induction a as [|c a IH]; intros t; simpl.
  - destruct t; reflexivity.
  - destruct t as [|c' t]; [discriminate|].
    intros H. simpl in H. simpl.
    destruct (ascii_dec c c'); [|discriminate H].
    now apply IH.
Qed.

Lemma contains_nil (n : string) : contains n EmptyString = prefix n EmptyString.
Proof. simpl. apply orb_false_r. Qed.

Lemma contains_cons (n : string) (c : ascii) (t : string) :
  contains n (String c t) = prefix n (String c t) || contains n t.
Proof. reflexivity. Qed.

Lemma contains_app (a b t : string) : contains (a ++ b) t = true -> contains a t = true.
Proof.
  induction t as [|c t IH].
  - rewrite !contains_nil. apply prefix_app.
  - rewrite !contains_cons, !orb_true_iff. intros [H|H].
    + left. exact (prefix_app a b _ H).
    + right. now apply IH.
Qed.

(** X13: a day is found exactly when its three-letter short name occurs,
    in any letter case, anywhere in the text: _extract_days returns the
    short names whose lowercase form is contained in the lowercased text,
    in week order; the test on the full day name adds nothing. *)
Theorem extracted_days_follow_short_names :
  forall text : string,
    _extract_days text
    = filter (fun short => contains (lower short) (lower text)) short_day_names.
Proof.
  intros text. unfold _extract_days, day_names, short_day_names.
  assert (H : forall full short rest,
             lower full = (lower short ++ rest)%string ->
             contains (lower full) (lower text) || contains (lower short) (lower text)
             = contains (lower short) (lower text)).
  { intros full short rest Heq.
    destruct (contains (lower full) (lower text)) eqn:Hf; [|reflexivity].
    rewrite Heq in Hf. apply contains_app in Hf. now rewrite Hf. }
  cbn [filter map fst snd].
  rewrite (H "Monday" "Mon" "day"), (H "Tuesday" "Tue" "sday"),
    (H "Wednesday" "Wed" "nesday"), (H "Thursday" "Thu" "rsday"),
    (H "Friday" "Fri" "day"), (H "Saturday" "Sat" "urday"),
    (H "Sunday" "Sun" "day") by reflexivity.
  repeat match goal with
         | |- context [if ?b then _ else _] => destruct b
         end; reflexivity.
Qed.

Lemma contains_empty (t : string) : contains EmptyString t = true.
Proof. destruct t; reflexivity. Qed.

Lemma extract_ids_loop_nameless (text : string) (entities : list value) :
  Forall nameless_entity entities ->
  extract_ids_loop text entities = Ok (map entity_id entities).
Proof.
  induction 1 as [|e rest (d & s0 & -> & Hid & Hname) _ IH]; simpl; [reflexivity|].
  unfold get in *. rewrite Hname. unfold mentioned.
  destruct (lookup "id" d) as [v|]; [subst v | injection Hid as <-]; simpl;
    rewrite IH; simpl; rewrite ?contains_empty; try reflexivity;
    destruct (contains _ (lower text)); reflexivity.
Qed.

(** X14: an entity without a name is found in every text.  When every
    course (instructor) of the instance is a record with a text id and no
    name entry, _extract_course_ids (_extract_instructor_ids) returns the
    ids of all of them, whatever the text says. *)
Theorem nameless_entities_match_every_text :
  forall (text : string) (input_data : dict) (courses instructors : list value),
    (iterate (get input_data "courses" (VList [])) = Ok courses ->
     Forall nameless_entity courses ->
     _extract_course_ids text input_data = Ok (map entity_id courses))
    /\ (iterate (get input_data "instructors" (VList [])) = Ok instructors ->
        Forall nameless_entity instructors ->
        _extract_instructor_ids text input_data = Ok (map entity_id instructors)).
Proof.
  intros text input_data courses instructors. split; intros Hit Hall.
  - unfold _extract_course_ids. rewrite Hit. simpl.
    now apply extract_ids_loop_nameless.
  - unfold _extract_instructor_ids. rewrite Hit. simpl.
    now apply extract_ids_loop_nameless.
Qed.

Lemma value_lower_is_str (v : value) (l : string) :
  ExplanationAgent.value_lower v = Ok l -> is_str v = true.
Proof. destruct v; simpl; intros H; try discriminate H; reflexivity. Qed.

(** The ids the extraction loop returns are text ids of the entities it
    read. *)
Lemma extract_ids_loop_known (text : string) :
  forall (entities ids valid : list value),
    extract_ids_loop text entities = Ok ids ->
    map_m (fun c => i <- subscript c "id" ;; _ <- hash_value i ;; Ok i) entities
    = Ok valid ->
    Forall (fun i => is_str i = true /\ In i valid) ids.
Proof.
  induction entities as [|e rest IH]; intros ids valid Hex Hset; simpl in *.
  - injection Hex as <-. constructor.
  - apply bind_ok_inv in Hex. destruct Hex as (eid & Heid & Hex).
    apply bind_ok_inv in Hex. destruct Hex as (ename & Hename & Hex).
    apply bind_ok_inv in Hex. destruct Hex as (hit & Hhit & Hex).
    apply bind_ok_inv in Hex. destruct Hex as (more & Hmore & Hex).
    injection Hex as <-.
    apply bind_ok_inv in Hset. destruct Hset as (i & Hi & Hset).
    apply bind_ok_inv in Hset. destruct Hset as (valid' & Hvalid' & Hset).
    injection Hset as <-.
    apply bind_ok_inv in Hi. destruct Hi as (x & Hx & Hi).
    apply bind_ok_inv in Hi. destruct Hi as (u & _ & Hi). injection Hi as <-.
    pose proof (IH more valid' Hmore Hvalid') as Hrest.
    assert (Hrest' : Forall (fun i => is_str i = true /\ In i (x :: valid')) more).
    { eapply Forall_impl; [|exact Hrest]. simpl. intros a [Ha Hin]. auto. }
    destruct hit; [|exact Hrest'].
    constructor; [|exact Hrest'].
    destruct e; simpl in Heid, Hx; try discriminate Heid.
    injection Heid as <-.
    unfold mentioned in Hhit.
    apply bind_ok_inv in Hhit. destruct Hhit as (l & Hl & _).
    apply value_lower_is_str in Hl.
    unfold get in *.
    destruct (lookup "id" d) as [y|]; [|discriminate Hx]. injection Hx as ->.
    split; [exact Hl|now left].
Qed.

Lemma extracted_day_is_short_name (text day : string) :
  In day (_extract_days text) -> In day short_day_names.
Proof.
  unfold _extract_days. intros H.
  apply in_map_iff in H. destruct H as (p & <- & H).
  apply filter_In in H. destruct H as [H _].
  unfold day_names in H. simpl in H.
  repeat (destruct H as [<-|H]; [simpl; auto 10|]).
  destruct H.
Qed.

Lemma is_str_truthy_optional (v : value) : is_str v = true -> optional_str v = true.
Proof. destruct v; simpl; congruence. Qed.

(** What the free-text path returns, constraint by constraint. *)
Lemma Ok_inj {A : Type} (a b : A) : @Ok A a = Ok b -> a = b.
Proof. intros H. now injection H. Qed.

Lemma parse_natural_language_output :
  forall (self : QueryTranslator) (fuel : nat) (question : string)
         (input_data : dict) (cs : list QueryConstraint)
         (valid_courses valid_instructors : list value),
    parse_natural_language self fuel question input_data = Ok cs ->
    id_set input_data "courses" = Ok valid_courses ->
    id_set input_data "instructors" = Ok valid_instructors ->
    term_days_are_text input_data ->
    Forall (passes_alone valid_courses valid_instructors) cs.
Proof.
  intros self fuel q input_data cs vc vi H Hvc Hvi Hdays.
  unfold parse_natural_language in H.
  apply bind_ok_inv in H. destruct H as (cids & Hc & H).
  apply bind_ok_inv in H. destruct H as (iids & Hi & H).
  apply bind_ok_inv in H. destruct H as (times & Ht & H).
  unfold _extract_course_ids in Hc. unfold id_set in Hvc.
  apply bind_ok_inv in Hc. destruct Hc as (courses & Hcit & Hc).
  rewrite Hcit in Hvc. simpl in Hvc.
  pose proof (extract_ids_loop_known q courses cids vc Hc Hvc) as Kc.
  unfold _extract_instructor_ids in Hi. unfold id_set in Hvi.
  apply bind_ok_inv in Hi. destruct Hi as (instructors & Hiit & Hi).
  rewrite Hiit in Hvi. simpl in Hvi.
  pose proof (extract_ids_loop_known q instructors iids vi Hi Hvi) as Ki.
  rewrite Forall_forall in Kc, Ki.
  destruct (contains "avoid" (lower q) || contains "not on" (lower q)).
  - destruct (_extract_days q) as [|d0 ds] eqn:Hd; [apply Ok_inj in H; subst cs; constructor|].
    destruct cids as [|c0 crest].
    + destruct iids as [|i0 irest]; apply Ok_inj in H; subst cs; [constructor|].
      apply Forall_forall. intros c Hin.
      apply in_flat_map in Hin. destruct Hin as (i & Hi0 & Hin).
      apply in_map_iff in Hin. destruct Hin as (d & <- & _).
      destruct (Ki i Hi0) as [Hs Hk].
      repeat split; simpl; auto.
      * unfold well_typed. simpl. now rewrite (is_str_truthy_optional i Hs).
      * discriminate.
    + apply Ok_inj in H; subst cs.
      apply Forall_forall. intros c Hin.
      apply in_flat_map in Hin. destruct Hin as (i & Hi0 & Hin).
      apply in_map_iff in Hin. destruct Hin as (d & <- & _).
      destruct (Kc i Hi0) as [Hs Hk].
      repeat split; simpl; auto.
      * unfold well_typed. simpl. now rewrite (is_str_truthy_optional i Hs).
      * discriminate.
  - destruct (contains "lunch" (lower q)).
    + apply bind_ok_inv in H. destruct H as (periods & Hp & H).
      destruct cids as [|c0 crest]; [apply Ok_inj in H; subst cs; constructor|].
      apply bind_ok_inv in H. destruct H as (dv & Hdv & H).
      apply bind_ok_inv in H. destruct H as (tdays & Htd & H).
      apply Ok_inj in H; subst cs.
      pose proof (Hdays dv tdays Hdv Htd) as Hstr. rewrite Forall_forall in Hstr.
      apply Forall_forall. intros c Hin.
      apply in_flat_map in Hin. destruct Hin as (i & Hi0 & Hin).
      apply in_flat_map in Hin. destruct Hin as (d & Hd0 & Hin).
      apply in_map_iff in Hin. destruct Hin as (p & <- & _).
      destruct (Kc i Hi0) as [Hs Hk].
      repeat split; simpl; auto.
      * unfold well_typed. simpl.
        now rewrite (is_str_truthy_optional i Hs),
          (is_str_truthy_optional d (Hstr d Hd0)).
      * discriminate.
    + destruct (contains "before" (lower q)); [|apply Ok_inj in H; subst cs; constructor].
      destruct times as [|first more]; apply Ok_inj in H; subst cs; [constructor|].
      apply Forall_forall. intros c Hin.
      apply in_map_iff in Hin. destruct Hin as (i & <- & Hi0).
      destruct (Kc i Hi0) as [Hs Hk].
      repeat split; simpl; auto.
      * unfold well_typed. simpl. now rewrite (is_str_truthy_optional i Hs).
      * discriminate.
Qed.

(** X10: what the free-text path returns always passes validation.  On
    an instance whose courses and instructors carry ids and whose term
    days are texts, every constraint sequence that
    parse_natural_language returns is accepted by the validator: ok=true
    and no error. *)
Theorem free_text_constraints_pass_validation :
  forall (self : QueryTranslator) (fuel : nat) (question : string)
         (input_data : dict) (cs : list QueryConstraint)
         (valid_courses valid_instructors : list value),
    parse_natural_language self fuel question input_data = Ok cs ->
    id_set input_data "courses" = Ok valid_courses ->
    id_set input_data "instructors" = Ok valid_instructors ->
    term_days_are_text input_data ->
    validate_query_constraints cs input_data = Ok (true, []).
Proof.
  intros self fuel q input_data cs vc vi H Hvc Hvi Hdays.
  pose proof (parse_natural_language_output self fuel q input_data cs vc vi
                H Hvc Hvi Hdays) as Hout.
  rewrite Forall_forall in Hout.
  apply (validate_passes_iff cs input_data vc vi); auto.
  - apply Forall_forall. intros c Hc. apply (Hout c Hc).
  - split; [|split].
    + intros e v He _ Hte _ _. destruct (Hout e He) as (_ & Hne & _). congruence.
    + intros c Hc. apply (Hout c Hc).
    + intros c Hc. apply (Hout c Hc).
Qed.

(** X11: the free-text path looks at its trigger words in a fixed order.
    When the lowercased question contains "avoid" or "not on", every
    constraint returned is a veto_day or veto_instructor_day on one of the
    seven short day names, whatever else the question says; otherwise,
    when it contains "lunch", every constraint is a veto_time_slot;
    otherwise, when it contains "before", every constraint is an
    enforce_before_time whose period_end is the first time found in the
    question; and with none of these words nothing is returned. *)
Theorem free_text_trigger_words_are_ordered :
  forall (self : QueryTranslator) (fuel : nat) (question : string)
         (input_data : dict) (cs : list QueryConstraint),
    parse_natural_language self fuel question input_data = Ok cs ->
    let avoid := contains "avoid" (lower question)
                 || contains "not on" (lower question) in
    let lunch := contains "lunch" (lower question) in
    let before := contains "before" (lower question) in
    (avoid = true ->
     Forall (fun c => In (query_type c) [VETO_DAY; VETO_INSTRUCTOR_DAY]
                      /\ exists short, In short short_day_names
                                       /\ day c = VStr short) cs)
    /\ (avoid = false -> lunch = true ->
        Forall (fun c => query_type c = VETO_TIME_SLOT) cs)
    /\ (avoid = false -> lunch = false -> before = true ->
        Forall (fun c => query_type c = ENFORCE_BEFORE_TIME
                         /\ exists first rest,
                              _extract_times question = Ok (first :: rest)
                              /\ period_end c = VInt first) cs)
    /\ (avoid = false -> lunch = false -> before = false -> cs = []).
Proof.
  intros self fuel q input_data cs H avoid lunch before.
  unfold parse_natural_language in H.
  apply bind_ok_inv in H. destruct H as (cids & Hc & H).
  apply bind_ok_inv in H. destruct H as (iids & Hi & H).
  apply bind_ok_inv in H. destruct H as (times & Ht & H).
  fold avoid lunch before in H.
  repeat split.
  - intros Ha. rewrite Ha in H.
    assert (Hday : forall d, In d (_extract_days q) -> In d short_day_names)
      by (intros d; apply extracted_day_is_short_name).
    destruct (_extract_days q) as [|d0 ds]; [apply Ok_inj in H; subst cs; constructor|].
    destruct cids as [|c0 crest].
    + destruct iids as [|i0 irest]; apply Ok_inj in H; subst cs; [constructor|].
      apply Forall_forall. intros c Hin.
      apply in_flat_map in Hin. destruct Hin as (i & _ & Hin).
      apply in_map_iff in Hin. destruct Hin as (d & <- & Hd).
      split; [simpl; auto|]. exists d. split; [now apply Hday|reflexivity].
    + apply Ok_inj in H; subst cs.
      apply Forall_forall. intros c Hin.
      apply in_flat_map in Hin. destruct Hin as (i & _ & Hin).
      apply in_map_iff in Hin. destruct Hin as (d & <- & Hd).
      split; [simpl; auto|]. exists d. split; [now apply Hday|reflexivity].
  - intros Ha Hl. rewrite Ha, Hl in H.
    apply bind_ok_inv in H. destruct H as (periods & Hp & H).
    destruct cids as [|c0 crest]; [apply Ok_inj in H; subst cs; constructor|].
    apply bind_ok_inv in H. destruct H as (dv & Hdv & H).
    apply bind_ok_inv in H. destruct H as (tdays & Htd & H).
    apply Ok_inj in H; subst cs.
    apply Forall_forall. intros c Hin.
    apply in_flat_map in Hin. destruct Hin as (i & _ & Hin).
    apply in_flat_map in Hin. destruct Hin as (d & _ & Hin).
    apply in_map_iff in Hin. destruct Hin as (p & <- & _). reflexivity.
  - intros Ha Hl Hb. rewrite Ha, Hl, Hb in H.
    destruct times as [|first more]; apply Ok_inj in H; subst cs; [constructor|].
    apply Forall_forall. intros c Hin.
    apply in_map_iff in Hin. destruct Hin as (i & <- & _).
    split; [reflexivity|]. exists first, more. split; [exact Ht|reflexivity].
  - intros Ha Hl Hb. rewrite Ha, Hl, Hb in H. now apply Ok_inj in H.
Qed.

(* ================================================================== *)
(** ** Properties of the explanations *)
(* ================================================================== *)

(** X15: _julia_to_python hands back unchanged whatever PyJulia has
    already converted: on every value made of None, booleans, integers,
    text, lists and string-keyed dicts, at any depth, the result is the
    value itself. *)
Theorem julia_to_python_keeps_converted_values :
  forall v : value, SolverInterface._julia_to_python v = v.
Proof. exact julia_to_python_id. Qed.

(** X16: what the oracle's failure says reaches the user.  With the Julia
    solver in use, when the oracle call raises, explaining the result of
    solve_what_if gives "What-if analysis status: error. What-if analysis
    error: " followed by the text of the exception; in mock mode the
    explanation is the not_supported notice.  Neither asks the narrative
    model. *)
Theorem oracle_failure_is_explained :
  forall (traceback : exn -> string) (self : SolverInterface.t)
         (input_json : dict) (query_constraints : list value)
         (original_objective : value) (log : list SolverInterface.oracle_call)
         (model : Explain.Model) (query_description : string)
         (input_context : dict),
    let explained :=
      what_if_result <-
        fst (SolverInterface.solve_what_if traceback self input_json
               query_constraints original_objective log) ;;
      Explain.explain_what_if_result model what_if_result query_description
        input_context in
    (forall e,
        SolverInterface.use_julia_solver self = true ->
        SolverInterface.solve_what_if_query (SolverInterface.julia self) log
          (SolverInterface.mkCall input_json query_constraints original_objective)
        = Raise e ->
        explained
        = Ok (VStr ("What-if analysis status: error. What-if analysis error: "
                    ++ exn_str e)))
    /\ (SolverInterface.use_julia_solver self = false ->
        explained
        = Ok (VStr "What-if analysis status: not_supported. What-if analysis not supported in mock mode")).
Proof.
  intros tb self input qcs obj log model q ctx explained. unfold explained.
  unfold SolverInterface.solve_what_if. split.
  - intros e -> He.
    unfold SolverInterface._solve_what_if_julia, SolverInterface.call_oracle.
    rewrite map_id, He. reflexivity.
  - intros ->. reflexivity.
Qed.

Lemma edges_from_any_records (c : dict) (cid : value) :
  forall (others : list dict) (j : nat) (es : list ExplanationAgent.edge),
    Explain.edges_from_any c cid j (map VDict others) es
    = ExplanationAgent.edges_from c cid j others es.
Proof.
  induction others as [|o rest IH]; intros j es; simpl; [reflexivity|].
  destruct (ExplanationAgent._constraints_share_scope c o); simpl; auto.
Qed.

Lemma reasons_loop_any_records (ctx : dict) :
  forall (records : list dict) (i : nat) (rs : list ExplanationAgent.reason)
         (es : list ExplanationAgent.edge),
    Explain.reasons_loop_any ctx i (map VDict records) rs es
    = ExplanationAgent.reasons_loop ctx i records rs es.
Proof.
  induction records as [|c rest IH]; intros i rs es; simpl; [reflexivity|].
  destruct (ExplanationAgent._constraint_to_reason c ctx); simpl; try reflexivity.
  rewrite edges_from_any_records.
  destruct (ExplanationAgent.edges_from c _ (S i) rest es); simpl; auto.
Qed.

(** On a list of records the graph builder that reads any value is the
    graph builder on records. *)
Lemma build_graph_of_reasons_any_records (records : list dict) (query : value)
    (ctx : dict) :
  Explain.build_graph_of_reasons_any (VList (map VDict records)) query ctx
  = ExplanationAgent.build_graph_of_reasons records query ctx.
Proof.
  unfold Explain.build_graph_of_reasons_any, ExplanationAgent.build_graph_of_reasons.
  simpl. now rewrite reasons_loop_any_records.
Qed.

(** The graph of a well-formed IIS, in closed form. *)
Lemma build_graph_well_formed (records : list dict) (query : value) (ctx : dict) :
  Forall (fun c => well_formed_record c = true) records ->
  exists vis,
    ExplanationAgent._create_graph_visualization_json
      (reasons_among ctx 0 records) (edges_among 0 records) = Ok vis
    /\ ExplanationAgent.build_graph_of_reasons records query ctx
       = Ok (ExplanationAgent.mkGraph query
               (reasons_among ctx 0 records) (edges_among 0 records)
               (Z.of_nat (List.length (reasons_among ctx 0 records)))
               (Nat.ltb 0 (List.length (edges_among 0 records))) vis).
Proof.
  intros Hall. unfold ExplanationAgent.build_graph_of_reasons.
  rewrite (reasons_loop_well_formed ctx records 0 [] [] Hall). simpl app.
  unfold bind at 1.
  destruct (visualization_well_formed (reasons_among ctx 0 records)
              (edges_among 0 records) (reasons_among_types ctx records 0 Hall))
    as (vis & Hvis).
  exists vis. split; [exact Hvis|]. rewrite Hvis. reflexivity.
Qed.

Lemma description_bullets_records (records : list dict) :
  exists bullets,
    Explain.description_bullets (map VDict records) = Ok bullets.
Proof.
  induction records as [|c rest (bs & IH)]; simpl.
  - eexists; reflexivity.
  - rewrite IH. simpl. eexists; reflexivity.
Qed.

Lemma iis_lines_records (records : list dict) :
  forall i, exists lines, Explain.iis_lines i (map VDict records) = Ok lines.
Proof.
  induction records as [|c rest IH]; intros i; simpl.
  - eexists; reflexivity.
  - destruct (IH (S i)) as (ls & ->). simpl. eexists; reflexivity.
Qed.

Lemma gt_int_number (v : value) (n : Z) :
  as_int v <> None -> exists b, Explain.gt_int v n = Ok b.
Proof.
  unfold Explain.gt_int. destruct (as_int v); [eexists; reflexivity|congruence].
Qed.

Lemma fallback_well_formed (result : dict) (query : string) (records : list dict)
    (summary : dict) :
  as_int (get summary "num_query_constraints_in_iis" (VInt 0)) <> None ->
  exists text,
    Explain._build_infeasible_what_if_fallback result query
      (VList (map VDict records)) (VDict summary) = Ok text.
Proof.
  intros Hnum. unfold Explain._build_infeasible_what_if_fallback.
  simpl dict_get. unfold bind at 1 2.
  destruct (gt_int_number _ 0%Z Hnum) as (many & ->). unfold bind at 1.
  destruct records as [|c rest].
  - simpl. eexists; reflexivity.
  - destruct (description_bullets_records (firstn 5 (c :: rest))) as (bs & Hbs).
    change (truthy (VList (map VDict (c :: rest)))) with true. cbv iota.
    unfold Explain.first_five. rewrite firstn_map. cbn [bind].
    match goal with
    | |- context [Explain.description_bullets ?l] =>
        replace (Explain.description_bullets l) with (@Ok (list string) bs)
          by (symmetry; exact Hbs)
    end.
    eexists; reflexivity.
Qed.

Lemma prompt_well_formed (result : dict) (query : string) (records : list dict)
    (summary : dict) :
  exists prompt,
    Explain.infeasible_prompt result query (VList (map VDict records))
      (VDict summary) = Ok prompt.
Proof.
  unfold Explain.infeasible_prompt, Explain._format_iis_for_llm.
  simpl len. simpl dict_get. simpl iterate. unfold bind at 2 3 4 5.
  destruct (iis_lines_records records 1) as (ls & ->). simpl.
  eexists; reflexivity.
Qed.

(** X17: the explanation of an infeasible result does not depend on the
    narrative model being there.  For a well-formed infeasible result the
    prompt and the deterministic fallback text are always built, and the
    explanation is the model's text when the model answers with a
    non-empty one, and the fallback text whenever the model call raises,
    answers with nothing, answers with a text that cannot be read, or
    answers with an empty text; it never raises. *)
Theorem infeasible_explanation_survives_the_model :
  forall (result : dict) (query : string) (input_context : dict)
         (records : list dict) (summary : dict),
    well_formed_infeasible result records summary ->
    exists prompt fallback,
      Explain.infeasible_prompt result query (get result "iis" (VList []))
        (get result "iis_summary" (VDict [])) = Ok prompt
      /\ Explain._build_infeasible_what_if_fallback result query
           (get result "iis" (VList [])) (get result "iis_summary" (VDict []))
         = Ok fallback
      /\ forall model : Explain.Model,
           Explain._explain_infeasible_what_if model result query input_context
           = match Explain.generate_content model prompt with
             | Ok (Some (Ok text)) =>
                 if truthy text then Ok text else Ok (VStr fallback)
             | Ok (Some OutOfFuel) => OutOfFuel
             | OutOfFuel => OutOfFuel
             | _ => Ok (VStr fallback)
             end.
Proof.
  intros result q ctx records summary (Hiis & Hwf & Hsum & Hnum).
  rewrite Hiis, Hsum.
  destruct (prompt_well_formed result q records summary) as (prompt & Hprompt).
  destruct (fallback_well_formed result q records summary Hnum) as (fb & Hfb).
  exists prompt, fb. split; [exact Hprompt|]. split; [exact Hfb|].
  intros model. unfold Explain._explain_infeasible_what_if.
  rewrite Hiis, Hsum, build_graph_of_reasons_any_records.
  destruct (build_graph_well_formed records (VStr q) ctx Hwf) as (vis & _ & ->).
  unfold bind at 1. rewrite Hprompt, Hfb. simpl bind.
  destruct (Explain.generate_content model prompt) as [[[text| |]|]| |];
    simpl; try reflexivity.
  destruct (truthy text); reflexivity.
Qed.

Lemma length_ordered_pairs {A : Type} (l : list A) :
  (2 * List.length (ordered_pairs l) = List.length l * (List.length l - 1))%nat.
Proof.
  induction l as [|x rest IH]; simpl; [reflexivity|].
  rewrite length_app, length_map. rewrite Nat.sub_0_r.
  destruct rest as [|y rest']; simpl in *; [reflexivity|]. lia.
Qed.

(** X18: the graph of reasons of a well-formed IIS is a well-formed
    graph.  It has as many nodes as the IIS has records and says so in
    num_reasons; every edge leads from the id of one node to the id of a
    later node; there are at most n(n-1)/2 edges; is_connected says
    whether there is any edge; and the visualization has one node per
    reason and one edge per edge. *)
Theorem reason_graph_edges_join_nodes :
  forall (iis_constraints : list dict) (query : value) (input_context : dict),
    Forall (fun c => well_formed_record c = true) iis_constraints ->
    exists g,
      ExplanationAgent.build_graph_of_reasons iis_constraints query input_context
      = Ok g
      /\ ExplanationAgent.num_reasons g = Z.of_nat (List.length iis_constraints)
      /\ (forall e, In e (ExplanationAgent.edges g) ->
            exists i j ri rj,
              (i < j)%nat
              /\ nth_error (ExplanationAgent.reasons g) i = Some ri
              /\ nth_error (ExplanationAgent.reasons g) j = Some rj
              /\ ExplanationAgent.edge_from e = ExplanationAgent.reason_id ri
              /\ ExplanationAgent.edge_to e = ExplanationAgent.reason_id rj)
      /\ (2 * List.length (ExplanationAgent.edges g)
          <= List.length iis_constraints * (List.length iis_constraints - 1))%nat
      /\ (ExplanationAgent.is_connected g = true <-> ExplanationAgent.edges g <> [])
      /\ List.length (ExplanationAgent.nodes (ExplanationAgent.visualization_data g))
         = List.length iis_constraints
      /\ List.length (ExplanationAgent.vis_edges (ExplanationAgent.visualization_data g))
         = List.length (ExplanationAgent.edges g).
Proof.
  intros iis query ctx Hall.
  destruct (build_graph_well_formed iis query ctx Hall) as (vis & Hvis & Hrun).
  eexists. split; [exact Hrun|]. simpl.
  split; [now rewrite length_reasons_among|]. split; [|split; [|split; [|split]]].
  - intros e He. apply in_edges_among in He.
    destruct He as (i & j & ci & cj & Hlt & Hi & Hj & _ & ->).
    exists i, j, (reason_of ctx i ci), (reason_of ctx j cj).
    rewrite !nth_reasons_among, Hi, Hj. simpl. auto.
  - rewrite length_edges_among.
    rewrite <- length_ordered_pairs.
    pose proof (filter_length_le (fun p => share_keywordb (fst p) (snd p))
                  (ordered_pairs iis)). lia.
  - destruct (edges_among 0 iis) as [|e0 es].
    + split; [intros H; discriminate H|intros H; now elim H].
    + split; [intros _; discriminate|reflexivity].
  - unfold ExplanationAgent._create_graph_visualization_json in Hvis.
    apply bind_ok_inv in Hvis. destruct Hvis as (ns & Hns & Hvis).
    injection Hvis as <-. simpl.
    rewrite <- (length_reasons_among ctx iis 0).
    clear -Hns. revert ns Hns.
    induction (reasons_among ctx 0 iis) as [|r rs IH]; simpl; intros ns Hns.
    + injection Hns as <-. reflexivity.
    + apply bind_ok_inv in Hns. destruct Hns as (n & _ & Hns).
      apply bind_ok_inv in Hns. destruct Hns as (ns' & Hns' & Hns).
      injection Hns as <-. simpl. f_equal. now apply IH.
  - unfold ExplanationAgent._create_graph_visualization_json in Hvis.
    apply bind_ok_inv in Hvis. destruct Hvis as (ns & Hns & Hvis).
    injection Hvis as <-. simpl. apply length_map.
Qed.

(* ================================================================== *)
(** ** The further theorems at sample inputs *)
(* ================================================================== *)

Lemma structured_translation_emits_atomic_constraints_witness :
  Forall emitted_shape
    [slot_constraint ENFORCE_TIME_SLOT (VStr "C1") (VInt 2) (VStr "Tue") (VInt 5);
     slot_constraint VETO_TIME_SLOT (VStr "C1") (VInt 1) (VStr "Mon") (VInt 3);
     slot_constraint ENFORCE_TIME_SLOT (VStr "C2") (VInt 1) (VStr "Mon") (VInt 3);
     slot_constraint VETO_TIME_SLOT (VStr "C2") (VInt 2) (VStr "Tue") (VInt 5)].
Proof.
  apply (structured_translation_emits_atomic_constraints example_translator 0
           "swap_time_slots" example_swap_params example_instance).
  reflexivity.
Defined.

Lemma translated_constraints_serialize_losslessly_witness :
  map fst (to_dict (slot_constraint VETO_TIME_SLOT (VStr "C1") VNone (VStr "Tue")
                      (VInt 8)))
  = ["type"; "course_id"; "instructor_id"; "week"; "day"; "period_start";
     "period_end"; "room_id"; "course_id_2"].
Proof.
  apply (proj1 (translated_constraints_serialize_losslessly example_translator 10
                  "enforce_no_lunch" [("course_id", VStr "C1")] example_instance
                  _ eq_refl)).
  simpl. auto.
Defined.

Lemma extra_parameters_override_declared_fields_witness :
  lookup "type" (to_dict example_with_extras) = Some (VStr "custom")
  /\ lookup "day" (to_dict example_with_extras) = Some (VStr "Mon").
Proof.
  assert (Hnd : NoDup (map fst (extra_params example_with_extras))).
  { simpl. repeat constructor; simpl; intuition discriminate. }
  split.
  - exact (extra_parameters_override_declared_fields example_with_extras "type" Hnd).
  - exact (extra_parameters_override_declared_fields example_with_extras "day" Hnd).
Defined.

Lemma nonpositive_period_length_never_returns_witness :
  _get_lunch_periods 1000
    (get example_zero_length_instance "term_config" (VDict [])) = OutOfFuel
  /\ parse_structured_query example_translator 1000 "enforce_no_lunch"
       [("course_id", VStr "C1")] example_zero_length_instance = OutOfFuel.
Proof.
  apply (nonpositive_period_length_never_returns example_translator 1000
           [("course_id", VStr "C1")] example_zero_length_instance
           (VInt 0) 480%Z 720%Z 750%Z 0%Z); try reflexivity; lia.
Defined.

Lemma lunch_periods_are_consecutive_witness :
  exists first, [8%Z] = consecutive_from first 1.
Proof.
  exact (lunch_periods_are_consecutive 10 example_term_config [8%Z] eq_refl).
Defined.

Lemma example_instance_days_are_text : term_days_are_text example_instance.
Proof.
  intros dv days H1 H2. vm_compute in H1. injection H1 as <-.
  vm_compute in H2. injection H2 as <-. repeat constructor.
Qed.

Lemma validation_passes_exactly_when_clean_witness :
  validate_query_constraints [example_enforce_week_1; example_veto_week_2]
    example_instance = Ok (true, []).
Proof.
  apply (validation_passes_exactly_when_clean
           [example_enforce_week_1; example_veto_week_2] example_instance
           [VStr "C1"; VStr "C2"] [VStr "P1"; VStr "P2"]); try reflexivity.
  - repeat constructor.
  - split; [|split].
    + intros e v He Hv Hte Htv Hkey. simpl in He, Hv.
      destruct He as [<-|[<-|[]]]; try discriminate Hte;
        destruct Hv as [<-|[<-|[]]]; try discriminate Htv; discriminate Hkey.
    + intros c [<-|[<-|[]]] _; simpl; auto.
    + intros c [<-|[<-|[]]] Ht; discriminate Ht.
Defined.

Lemma validation_reports_every_violation_witness :
  validate_query_constraints
    [example_enforce_week_1; example_veto_week_1; example_enforce_week_1;
     example_unknown_references]
    example_instance
  = Ok (false,
        ["Contradictory constraints: Cannot both enforce and veto C1 on Mon at period 3";
         "Unknown course ID: does-not-exist"; "Unknown instructor ID: P9"]).
Proof.
  destruct (validation_reports_every_violation
              [example_enforce_week_1; example_veto_week_1; example_enforce_week_1;
               example_unknown_references]
              example_instance [VStr "C1"; VStr "C2"] [VStr "P1"; VStr "P2"])
    as [Hrun _].
  - repeat constructor.
  - reflexivity.
  - reflexivity.
  - exact Hrun.
Defined.

Lemma swap_passes_validation_unless_slots_coincide_witness :
  (exists cs,
      parse_structured_query example_translator 0 "swap_time_slots"
        example_swap_params example_instance = Ok cs
      /\ validate_query_constraints cs example_instance = Ok (true, []))
  /\ (exists cs errors,
        parse_structured_query example_translator 0 "swap_time_slots"
          example_shared_slot_params example_instance = Ok cs
        /\ validate_query_constraints cs example_instance = Ok (false, errors)
        /\ In "Contradictory constraints: Cannot both enforce and veto C1 on Mon at period 3"
             errors).
Proof.
  split.
  - destruct (swap_passes_validation_unless_slots_coincide example_translator 0
                example_swap_params example_instance "C1" "C2"
                example_assignment_C1 example_assignment_C2
                (VInt 1) (VStr "Mon") (VInt 3) (VInt 2) (VStr "Tue") (VInt 5)
                [VStr "C1"; VStr "C2"] [VStr "P1"; VStr "P2"])
      as (cs & Hparse & _ & Hpass);
      try reflexivity; try discriminate; simpl; auto.
    exists cs. split; [exact Hparse|]. apply Hpass. discriminate.
  - destruct (swap_passes_validation_unless_slots_coincide example_translator 0
                example_shared_slot_params example_instance "C1" "C2"
                (VDict [("course_id", VStr "C1"); ("room_id", VStr "Rm101");
                        ("week", VInt 1); ("day", VStr "Mon"); ("period_start", VInt 3)])
                (VDict [("course_id", VStr "C2"); ("room_id", VStr "Rm102");
                        ("week", VInt 1); ("day", VStr "Mon"); ("period_start", VInt 3)])
                (VInt 1) (VStr "Mon") (VInt 3) (VInt 1) (VStr "Mon") (VInt 3)
                [VStr "C1"; VStr "C2"] [VStr "P1"; VStr "P2"])
      as (cs & Hparse & Hfail & _);
      try reflexivity; try discriminate; simpl; auto.
    destruct (Hfail eq_refl) as (errors & Hrun & Hin).
    exists cs, errors. split; [exact Hparse|]. split; [exact Hrun|exact Hin].
Defined.

Lemma find_assignment_takes_the_first_match_witness :
  _find_assignment (VStr "C2") example_schedule = Ok example_assignment_C2.
Proof.
  apply (proj1 (find_assignment_takes_the_first_match (VStr "C2")
                  [("assignments", VList [example_assignment_C1; example_assignment_C2])])
           [example_assignment_C1; example_assignment_C2] eq_refl).
  repeat constructor.
Defined.

Lemma free_text_constraints_pass_validation_witness :
  validate_query_constraints
    [day_constraint VETO_DAY (VStr "C1") (VStr "Mon");
     day_constraint VETO_DAY (VStr "C2") (VStr "Mon")]
    example_instance = Ok (true, []).
Proof.
  apply (free_text_constraints_pass_validation example_translator 10
           example_question example_instance _
           [VStr "C1"; VStr "C2"] [VStr "P1"; VStr "P2"]); try reflexivity.
  exact example_instance_days_are_text.
Defined.

Lemma free_text_trigger_words_are_ordered_witness :
  Forall (fun c => In (query_type c) [VETO_DAY; VETO_INSTRUCTOR_DAY]
                   /\ exists short, In short short_day_names /\ day c = VStr short)
    [day_constraint VETO_DAY (VStr "C1") (VStr "Mon");
     day_constraint VETO_DAY (VStr "C2") (VStr "Mon")].
Proof.
  apply (proj1 (free_text_trigger_words_are_ordered example_translator 10
                  example_question example_instance _ eq_refl)).
  reflexivity.
Defined.

Lemma nameless_entities_match_every_text_witness :
  _extract_course_ids "nothing about any course" example_instance
  = Ok [VStr "C1"; VStr "C2"].
Proof.
  apply (proj1 (nameless_entities_match_every_text "nothing about any course"
                  example_instance
                  [VDict [("id", VStr "C1"); ("instructor_id", VStr "P1")];
                   VDict [("id", VStr "C2"); ("instructor_id", VStr "P2")]] [])).
  - reflexivity.
  - repeat constructor; do 2 eexists; repeat split; reflexivity.
Defined.

Lemma oracle_failure_is_explained_witness :
  (what_if_result <-
     fst (SolverInterface.solve_what_if no_traceback
            (SolverInterface.mkSolverInterface true
               (SolverInterface.mkJulia
                  (fun _ _ => Raise (Exception "JULIA: UndefVarError"))))
            example_instance [] (VInt 100) []) ;;
   Explain.explain_what_if_result failing_model what_if_result
     "What-if scenario" example_instance)
  = Ok (VStr "What-if analysis status: error. What-if analysis error: JULIA: UndefVarError").
Proof.
  apply (proj1 (oracle_failure_is_explained no_traceback
                  (SolverInterface.mkSolverInterface true
                     (SolverInterface.mkJulia
                        (fun _ _ => Raise (Exception "JULIA: UndefVarError"))))
                  example_instance [] (VInt 100) [] failing_model
                  "What-if scenario" example_instance)
           (Exception "JULIA: UndefVarError")); reflexivity.
Defined.

Lemma infeasible_explanation_survives_the_model_witness :
  exists fallback,
    Explain._build_infeasible_what_if_fallback example_infeasible_result
      "What-if scenario" (get example_infeasible_result "iis" (VList []))
      (get example_infeasible_result "iis_summary" (VDict [])) = Ok fallback
    /\ Explain._explain_infeasible_what_if failing_model example_infeasible_result
         "What-if scenario" example_instance = Ok (VStr fallback).
Proof.
  destruct (infeasible_explanation_survives_the_model example_infeasible_result
              "What-if scenario" example_instance example_iis
              [("minimality_in_iis", VBool true);
               ("num_query_constraints_in_iis", VInt 1)])
    as (prompt & fallback & _ & Hfb & Hall).
  - repeat split; try reflexivity.
    + repeat constructor.
    + discriminate.
  - exists fallback. split; [exact Hfb|]. rewrite Hall. reflexivity.
Defined.

Lemma reason_graph_edges_join_nodes_witness :
  exists g,
    ExplanationAgent.build_graph_of_reasons example_iis_with_gaps
      (VStr "What-if scenario") example_instance = Ok g
    /\ ExplanationAgent.num_reasons g = 3%Z.
Proof.
  destruct (reason_graph_edges_join_nodes example_iis_with_gaps
              (VStr "What-if scenario") example_instance)
    as (g & Hrun & Hnum & _).
  - repeat constructor.
  - exists g. split; [exact Hrun|exact Hnum].
Defined.

(* ================================================================== *)
(** ** Properties of the grouping of periods *)
(* ================================================================== *)

Lemma total_periods_app (l1 l2 : list value) :
  total_periods (l1 ++ l2)%list = (total_periods l1 + total_periods l2)%Z.
Proof. induction l1 as [|a l1 IH]; simpl; [reflexivity|]. rewrite IH. lia. Qed.

Lemma total_periods_perm (l1 l2 : list value) :
  Permutation l1 l2 -> total_periods l1 = total_periods l2.
Proof. induction 1; simpl; lia. Qed.

Lemma has_multi_period_counted (assignments : list value) (b : bool) :
  Grouping.has_multi_period assignments = Ok b ->
  b = false ->
  Forall counted assignments.
Proof.
  induction assignments as [|a rest IH]; simpl; intros H Hb; [constructor|].
  apply bind_ok_inv in H. destruct H as (pl & Hpl & H).
  apply bind_ok_inv in H. destruct H as (m & Hm & H).
  destruct a; simpl in Hpl; try discriminate Hpl.
  apply Ok_inj in Hpl. subst pl.
  unfold Explain.gt_int in Hm.
  destruct (as_int (get d "period_length" (VInt 1))) as [z|] eqn:Hz; [|discriminate Hm].
  destruct m.
  - apply Ok_inj in H. congruence.
  - constructor; [exists d, z; auto | now apply IH].
Qed.

Lemma members_group_add (key : list value) (a : value) (grouped : Grouping.groups) :
  Permutation (members (Grouping.group_add key a grouped)) (a :: members grouped).
Proof.
  unfold members.
  induction grouped as [|[k g] rest IH]; simpl.
  - apply Permutation_refl.
  - destruct (Grouping.tuple_eq k key); simpl.
    + rewrite <- app_assoc. simpl.
      apply Permutation_sym.
      apply (Permutation_middle g (List.concat (map snd rest)) a).
    + apply Permutation_trans with (g ++ a :: List.concat (map snd rest))%list.
      * now apply Permutation_app_head.
      * apply Permutation_sym, Permutation_middle.
Qed.

Lemma group_loop_members (assignments : list value) :
  forall (grouped grouped' : Grouping.groups),
    Grouping.group_loop assignments grouped = Ok grouped' ->
    Permutation (members grouped') (members grouped ++ assignments)%list.
Proof.
  induction assignments as [|a rest IH]; simpl; intros grouped grouped' H.
  - apply Ok_inj in H. subst. rewrite app_nil_r. apply Permutation_refl.
  - apply bind_ok_inv in H. destruct H as (key & _ & H).
    apply bind_ok_inv in H. destruct H as (u & _ & H).
    apply IH in H.
    eapply Permutation_trans; [exact H|].
    eapply Permutation_trans;
      [apply Permutation_app_tail, members_group_add|].
    simpl. apply Permutation_middle.
Qed.

Lemma insert_by_key_perm (x : Z * value) (sorted : list (Z * value)) :
  Permutation (Grouping.insert_by_key x sorted) (x :: sorted).
Proof.
  induction sorted as [|y rest IH]; simpl.
  - apply Permutation_refl.
  - destruct (fst x <? fst y)%Z.
    + apply Permutation_refl.
    + eapply Permutation_trans; [apply perm_skip, IH|]. apply perm_swap.
Qed.

Lemma stable_sort_perm (keyed : list (Z * value)) :
  Permutation (Grouping.stable_sort keyed) keyed.
Proof.
  unfold Grouping.stable_sort.
  assert (G : forall acc, Permutation
            (fold_left (fun sorted x => Grouping.insert_by_key x sorted) keyed acc)
            (acc ++ keyed)%list).
  { induction keyed as [|x rest IH]; simpl; intros acc.
    - rewrite app_nil_r. apply Permutation_refl.
    - eapply Permutation_trans; [apply IH|].
      eapply Permutation_trans;
        [apply Permutation_app_tail, insert_by_key_perm|].
      simpl. apply Permutation_middle. }
  apply (G []).
Qed.

Lemma map_m_length {A B : Type} (f : A -> result B) (xs : list A) (ys : list B) :
  map_m f xs = Ok ys -> List.length ys = List.length xs.
Proof.
  revert ys. induction xs as [|x rest IH]; simpl; intros ys H.
  - apply Ok_inj in H. now subst.
  - apply bind_ok_inv in H. destruct H as (y & _ & H).
    apply bind_ok_inv in H. destruct H as (ys' & Hys & H).
    apply Ok_inj in H. subst ys. simpl. f_equal. now apply IH.
Qed.

Lemma numbers_length (keys : list value) (zs : list Z) :
  Grouping.numbers keys = Some zs -> List.length zs = List.length keys.
Proof.
  revert zs. induction keys as [|k rest IH]; simpl; intros zs H.
  - injection H as <-. reflexivity.
  - destruct (as_int k); [|discriminate H].
    destruct (Grouping.numbers rest); [|discriminate H].
    injection H as <-. simpl. f_equal. now apply IH.
Qed.

Lemma map_snd_combine {A B : Type} (xs : list A) (ys : list B) :
  List.length xs = List.length ys -> map snd (combine xs ys) = ys.
Proof.
  revert ys. induction xs as [|x xs IH]; destruct ys as [|y ys]; simpl;
    intros H; try discriminate H; [reflexivity|].
  f_equal. apply IH. now injection H.
Qed.

Lemma sort_group_perm (t : list value -> string) (group sorted : list value) :
  Grouping.sort_group t group = Ok sorted -> Permutation sorted group.
Proof.
  unfold Grouping.sort_group. intros H.
  apply bind_ok_inv in H. destruct H as (keys & Hkeys & H).
  destruct group as [|a [|b rest]].
  - apply Ok_inj in H. subst. apply Permutation_refl.
  - apply Ok_inj in H. subst. apply Permutation_refl.
  - destruct (Grouping.numbers keys) as [zs|] eqn:Hz; [|discriminate H].
    apply Ok_inj in H. subst sorted.
    eapply Permutation_trans; [apply Permutation_map, stable_sort_perm|].
    rewrite map_snd_combine; [apply Permutation_refl|].
    rewrite (numbers_length _ _ Hz). now apply map_m_length in Hkeys.
Qed.

Lemma py_eq_int_r (v : value) (e : Z) :
  py_eq v (VInt e) = true -> as_int v = Some e.
Proof.
  destruct v; simpl; intros H; try discriminate H;
    apply Z.eqb_eq in H; now subst.
Qed.

Lemma py_add_number (a b r : value) (y : Z) :
  as_int b = Some y ->
  Grouping.py_add a b = Ok r ->
  exists x, as_int a = Some x /\ r = VInt (x + y).
Proof.
  intros Hb H. unfold Grouping.py_add in H. rewrite Hb in H.
  destruct (as_int a) as [x|] eqn:Ha.
  - apply Ok_inj in H. eauto.
  - destruct a, b; simpl in *; discriminate.
Qed.

Lemma close_assignment_number (ca : dict) (cs : value) (s e : Z) (closed : value) :
  as_int cs = Some s ->
  Grouping.close_assignment ca cs (VInt e) = Ok closed ->
  closed = VDict (dict_set "period_length" (VInt (e - s)) ca).
Proof.
  intros Hs H. unfold Grouping.close_assignment, Grouping.py_sub in H.
  simpl in H. rewrite Hs in H. simpl in H. apply Ok_inj in H. now subst.
Qed.

Lemma periods_of_dict_set (l : Z) (d : dict) :
  periods_of (VDict (dict_set "period_length" (VInt l) d)) = l.
Proof.
  unfold periods_of, get. rewrite lookup_dict_set. reflexivity.
Qed.

Lemma counted_inv (a : value) :
  counted a ->
  exists d z, a = VDict d /\ Py.dict_get a "period_length" (VInt 1)
                             = Ok (get d "period_length" (VInt 1))
              /\ as_int (get d "period_length" (VInt 1)) = Some z
              /\ periods_of a = z.
Proof.
  intros (d & z & -> & Hz). exists d, z. simpl. rewrite Hz. auto.
Qed.

Lemma merge_loop_total (rest : list value) :
  forall (cs ca_start : value) (e s : Z) (ca : dict) (merged out : list value)
         (cs' ce' : value) (ca' : dict),
    Forall counted rest ->
    as_int cs = Some s ->
    Grouping.merge_loop rest cs (VInt e) ca merged = Ok (out, cs', ce', ca') ->
    exists s' e',
      as_int cs' = Some s' /\ ce' = VInt e' /\
      (total_periods out + (e' - s')
       = total_periods merged + (e - s) + total_periods rest)%Z.
Proof.
  induction rest as [|item rest IH];
    intros cs _ e s ca merged out cs' ce' ca' Hall Hs H.
  - simpl in H. injection H as <- <- <- <-. exists s, e. simpl. repeat split; auto; lia.
  - inversion Hall as [|? ? Hitem Hrest]; subst.
    destruct (counted_inv _ Hitem) as (d & z & -> & Hget & Hz & Hp).
    cbn [Grouping.merge_loop] in H.
    apply bind_ok_inv in H. destruct H as (ns & Hns & H).
    rewrite Hget in H. cbn [bind] in H.
    destruct (py_eq ns (VInt e)) eqn:Heq.
    + apply bind_ok_inv in H. destruct H as (ce1 & Hadd & H).
      destruct (py_add_number _ _ _ _ Hz Hadd) as (n & Hn & ->).
      apply py_eq_int_r in Heq. rewrite Hn in Heq. injection Heq as ->.
      unfold Grouping.py_sub in H. simpl in H. rewrite Hs in H. simpl in H.
      apply (IH cs VNone) with (s := s) in H; auto.
      destruct H as (s' & e' & H1 & H2 & H3).
      exists s', e'. repeat split; auto.
      cbn [total_periods fold_right]. fold (total_periods rest).
      rewrite Hp. lia.
    + apply bind_ok_inv in H. destruct H as (closed & Hclosed & H).
      apply (close_assignment_number _ _ _ _ _ Hs) in Hclosed. subst closed.
      apply bind_ok_inv in H. destruct H as (ce1 & Hadd & H).
      destruct (py_add_number _ _ _ _ Hz Hadd) as (n & Hn & ->).
      apply (IH ns VNone) with (s := n) in H; auto.
      destruct H as (s' & e' & H1 & H2 & H3).
      exists s', e'. repeat split; auto.
      rewrite total_periods_app in H3.
      cbn [total_periods fold_right] in H3.
      rewrite (periods_of_dict_set (e - s) ca) in H3.
      cbn [total_periods fold_right]. fold (total_periods rest).
      rewrite Hp. lia.
Qed.

Lemma merge_group_total (t : list value -> string) (group merged out : list value) :
  Forall counted group ->
  Grouping.merge_group t group merged = Ok out ->
  total_periods out = (total_periods merged + total_periods group)%Z.
Proof.
  intros Hall H. unfold Grouping.merge_group in H.
  apply bind_ok_inv in H. destruct H as (sorted & Hsorted & H).
  apply sort_group_perm in Hsorted.
  rewrite <- (total_periods_perm _ _ Hsorted).
  assert (Hall' : Forall counted sorted).
  { rewrite Forall_forall in *. intros x Hx. apply Hall.
    eapply Permutation_in; eauto. }
  clear Hall Hsorted.
  destruct sorted as [|first rest]; [discriminate H|].
  inversion Hall' as [|? ? Hfirst Hrest]; subst.
  destruct (counted_inv _ Hfirst) as (d & z & -> & Hget & Hz & Hp).
  apply bind_ok_inv in H. destruct H as (cs & Hcs & H).
  rewrite Hget in H. cbn [bind] in H.
  apply bind_ok_inv in H. destruct H as (ce & Hadd & H).
  destruct (py_add_number _ _ _ _ Hz Hadd) as (s & Hs & ->).
  apply bind_ok_inv in H. destruct H as ([[[m cs'] ce'] ca'] & Hloop & H).
  apply (merge_loop_total rest cs VNone) with (s := s) in Hloop; auto.
  destruct Hloop as (s' & e' & Hs' & -> & Htot).
  apply bind_ok_inv in H. destruct H as (closed & Hclosed & H).
  apply (close_assignment_number _ _ _ _ _ Hs') in Hclosed. subst closed.
  apply Ok_inj in H. subst out.
  rewrite total_periods_app.
  cbn [total_periods fold_right]. fold (total_periods rest).
  rewrite (periods_of_dict_set (e' - s') ca').
  rewrite Hp. lia.
Qed.

Lemma merge_groups_total (t : list value -> string) (grouped : Grouping.groups) :
  forall (merged out : list value),
    Forall counted (members grouped) ->
    Grouping.merge_groups t grouped merged = Ok out ->
    total_periods out = (total_periods merged + total_periods (members grouped))%Z.
Proof.
  induction grouped as [|[k g] rest IH]; simpl; intros merged out Hall H.
  - apply Ok_inj in H. subst. unfold members. simpl. lia.
  - apply bind_ok_inv in H. destruct H as (m & Hm & H).
    unfold members in Hall. simpl in Hall. apply Forall_app in Hall.
    destruct Hall as [Hg Hrest].
    apply merge_group_total in Hm; auto.
    apply IH in H; auto.
    unfold members. simpl. rewrite total_periods_app.
    unfold members in H. lia.
Qed.

Lemma grouping_total (t : list value -> string) (assignments : list value)
    (input_json : dict) (out : list value) :
  Grouping.has_multi_period assignments = Ok false ->
  Grouping._group_consecutive_periods t assignments input_json = Ok out ->
  total_periods out = total_periods assignments.
Proof.
  intros Hm H. unfold Grouping._group_consecutive_periods in H.
  destruct assignments as [|a rest]; [apply Ok_inj in H; now subst|].
  rewrite Hm in H. cbn [bind] in H.
  apply bind_ok_inv in H. destruct H as (grouped & Hg & H).
  apply group_loop_members in Hg. simpl in Hg.
  apply merge_groups_total in H.
  - rewrite H. simpl. apply (total_periods_perm _ _ Hg).
  - apply has_multi_period_counted in Hm; auto.
    rewrite Forall_forall in *. intros x Hx. apply Hm.
    eapply Permutation_in; eauto.
Qed.

(** X19: merging neither loses nor invents periods.  When no assignment
    spans more than one period and _group_consecutive_periods returns,
    the period lengths of its result add up to the number of periods that
    went in (an assignment without period_length counts for one).
    Duplicates are not dropped on this path: they are counted too. *)
Theorem merging_preserves_the_number_of_periods :
  forall (type_error_text : list value -> string) (assignments : list value)
         (input_json : dict) (out : list value),
    Grouping.has_multi_period assignments = Ok false ->
    Grouping._group_consecutive_periods type_error_text assignments input_json
    = Ok out ->
    total_periods out = total_periods assignments.
Proof. exact grouping_total. Qed.

Lemma ForallOrdPairs_snoc {A : Type} (R : A -> A -> Prop) (l : list A) (a : A) :
  ForallOrdPairs R l -> Forall (fun x => R x a) l ->
  ForallOrdPairs R (l ++ [a])%list.
Proof.
  induction 1 as [|x l Hx Hl IH]; simpl; intros Ha.
  - constructor; constructor.
  - inversion Ha; subst. constructor.
    + apply Forall_app. split; [assumption|]. constructor; [assumption|constructor].
    + now apply IH.
Qed.

Lemma py_eq_refl_hashable (v : value) : hashable v = true -> py_eq v v = true.
Proof.
  destruct v; simpl; intros H; try discriminate H; try reflexivity.
  - apply Bool.eqb_reflx.
  - apply Z.eqb_refl.
  - apply String.eqb_refl.
Qed.

Lemma hash_tuple_refl (key : list value) :
  Grouping.hash_tuple key = Ok tt -> Grouping.tuple_eq key key = true.
Proof.
  unfold Grouping.hash_tuple.
  induction key as [|v rest IH]; simpl; intros H; [reflexivity|].
  apply bind_ok_inv in H. destruct H as (us & Hus & _).
  apply bind_ok_inv in Hus. destruct Hus as (u & Hu & Hus).
  apply bind_ok_inv in Hus. destruct Hus as (us' & Hus' & _).
  unfold hash_value in Hu. destruct (hashable v) eqn:Hv; [|discriminate Hu].
  rewrite (py_eq_refl_hashable _ Hv). simpl.
  apply IH. rewrite Hus'. reflexivity.
Qed.

Lemma keyed_by_snoc seen ded a key :
  keyed_by seen ded -> Grouping.fields_of a slot_fields = Ok key ->
  keyed_by (seen ++ [key])%list (ded ++ [a])%list.
Proof.
  intros H Ha. apply Forall2_app; [assumption|]. constructor; [assumption|constructor].
Qed.

Lemma keyed_by_seen seen ded a key :
  keyed_by seen ded -> Grouping.fields_of a slot_fields = Ok key ->
  existsb (fun k => Grouping.tuple_eq k key) seen = true ->
  exists x, In x ded /\ same_slot x a = true.
Proof.
  intros H Ha. induction H as [|x k ded seen Hx H IH]; simpl; intros He.
  - discriminate He.
  - apply orb_true_iff in He. destruct He as [He|He].
    + exists x. split; [now left|]. unfold same_slot. now rewrite Hx, Ha.
    + destruct (IH He) as (y & Hy & Hs). exists y. split; [now right|assumption].
Qed.

Lemma keyed_by_unseen seen ded a key :
  keyed_by seen ded -> Grouping.fields_of a slot_fields = Ok key ->
  existsb (fun k => Grouping.tuple_eq k key) seen = false ->
  Forall (fun x => same_slot x a = false) ded.
Proof.
  intros H Ha. induction H as [|x k ded seen Hx H IH]; simpl; intros He.
  - constructor.
  - apply orb_false_iff in He. destruct He as [He1 He2].
    constructor; [|now apply IH]. unfold same_slot. now rewrite Hx, Ha.
Qed.

Lemma dedupe_loop_result (assignments : list value) :
  forall (seen : list (list value)) (deduplicated out : list value),
    keyed_by seen deduplicated ->
    ForallOrdPairs (fun x y => same_slot x y = false) deduplicated ->
    Grouping.dedupe_loop assignments seen deduplicated = Ok out ->
    exists kept,
      out = (deduplicated ++ kept)%list /\
      subsequence kept assignments /\
      ForallOrdPairs (fun x y => same_slot x y = false) out /\
      Forall (fun a => exists x, In x out /\ same_slot x a = true) assignments /\
      (forall before a after,
          assignments = (before ++ a :: after)%list ->
          (forall x, In x (deduplicated ++ before)%list -> same_slot x a = false) ->
          In a out).
Proof.
  induction assignments as [|a rest IH]; intros seen ded out Hk Hd H.
  - simpl in H. apply Ok_inj in H. subst out. exists [].
    rewrite app_nil_r. repeat split; auto; try constructor.
    intros [|? ?] ? ? Heq; discriminate Heq.
  - cbn [Grouping.dedupe_loop] in H. fold slot_fields in H.
    apply bind_ok_inv in H. destruct H as (key & Hkey & H).
    apply bind_ok_inv in H. destruct H as ([] & Hhash & H).
    destruct (existsb (fun k => Grouping.tuple_eq k key) seen) eqn:Hseen.
    + destruct (IH _ _ _ Hk Hd H) as (kept & -> & Hsub & Hdis & Hcov & Hfirst).
      exists kept. split; [reflexivity|]. split; [now constructor|].
      split; [assumption|]. split.
      * constructor; [|assumption].
        destruct (keyed_by_seen _ _ _ _ Hk Hkey Hseen) as (x & Hx & Hs).
        exists x. split; [apply in_or_app; now left|assumption].
      * intros [|b before] a' after Heq Hno; simpl in Heq;
          injection Heq as <- Heq.
        -- destruct (keyed_by_seen _ _ _ _ Hk Hkey Hseen) as (x & Hx & Hs).
           rewrite Hno in Hs; [discriminate Hs|].
           apply in_or_app. now left.
        -- apply (Hfirst before a' after Heq).
           intros x Hx. apply Hno. apply in_app_or in Hx.
           apply in_or_app. destruct Hx as [Hx|Hx]; [now left|right; now right].
    + pose proof (keyed_by_unseen _ _ _ _ Hk Hkey Hseen) as Hnew.
      destruct (IH _ _ _ (keyed_by_snoc _ _ _ _ Hk Hkey)
                   (ForallOrdPairs_snoc _ _ _ Hd Hnew) H)
        as (kept & -> & Hsub & Hdis & Hcov & Hfirst).
      exists (a :: kept). rewrite <- app_assoc. simpl.
      split; [reflexivity|]. split; [now constructor|].
      rewrite <- app_assoc in Hdis, Hcov. simpl in Hdis, Hcov.
      split; [assumption|]. split.
      * constructor; [|assumption].
        exists a. split; [apply in_or_app; right; now left|].
        unfold same_slot. rewrite Hkey. now apply hash_tuple_refl.
      * intros [|b before] a' after Heq Hno; simpl in Heq;
          injection Heq as <- Heq.
        -- apply in_or_app. right. now left.
        -- specialize (Hfirst before a' after Heq).
           rewrite <- !app_assoc in Hfirst. simpl in Hfirst.
           apply Hfirst. exact Hno.
Qed.

Lemma grouping_deduplicates (t : list value -> string) (assignments : list value)
    (input_json : dict) (out : list value) :
  Grouping.has_multi_period assignments = Ok true ->
  Grouping._group_consecutive_periods t assignments input_json = Ok out ->
  subsequence out assignments /\
  ForallOrdPairs (fun x y => same_slot x y = false) out /\
  Forall (fun a => exists x, In x out /\ same_slot x a = true) assignments /\
  (forall before a after,
      assignments = (before ++ a :: after)%list ->
      (forall x, In x before -> same_slot x a = false) ->
      In a out).
Proof.
  intros Hm H. unfold Grouping._group_consecutive_periods in H.
  destruct assignments as [|a rest]; [discriminate Hm|].
  rewrite Hm in H. cbn [bind] in H.
  apply dedupe_loop_result in H; [|constructor|constructor].
  destruct H as (kept & -> & Hsub & Hdis & Hcov & Hfirst).
  simpl in *. auto.
Qed.

(** X20: as soon as one assignment spans more than one period, nothing is
    merged: the result is the input with exact duplicates left out.  It
    is a subsequence of the input, no two of its assignments agree on
    (course_id, week, day, room_id, period_start), every input assignment
    has its slot in the result, and of each slot the first assignment in
    input order is the one kept. *)
Theorem deduplication_keeps_the_first_of_each_slot :
  forall (type_error_text : list value -> string) (assignments : list value)
         (input_json : dict) (out : list value),
    Grouping.has_multi_period assignments = Ok true ->
    Grouping._group_consecutive_periods type_error_text assignments input_json
    = Ok out ->
    subsequence out assignments /\
    ForallOrdPairs (fun x y => same_slot x y = false) out /\
    Forall (fun a => exists x, In x out /\ same_slot x a = true) assignments /\
    (forall before a after,
        assignments = (before ++ a :: after)%list ->
        (forall x, In x before -> same_slot x a = false) ->
        In a out).
Proof. exact grouping_deduplicates. Qed.

Lemma dict_set_twice (k : string) (v v' : value) (d : dict) :
  dict_set k v (dict_set k v' d) = dict_set k v d.
Proof.
  induction d as [|[k0 v0] rest IH]; simpl.
  - now rewrite String.eqb_refl.
  - destruct (String.eqb k0 k) eqn:H0; simpl; rewrite H0; [reflexivity|].
    now rewrite IH.
Qed.

Lemma relabelled_set (d ca : dict) (l : Z) :
  relabelled d ca ->
  dict_set "period_length" (VInt l) ca = dict_set "period_length" (VInt l) d.
Proof.
  intros [->|(l0 & ->)]; [reflexivity|apply dict_set_twice].
Qed.

Lemma relabels_incl (l1 l2 : list value) (o : value) :
  (forall x, In x l1 -> In x l2) -> relabels l1 o -> relabels l2 o.
Proof. intros Hi (d & l & Hd & ->). exists d, l. auto. Qed.

Lemma merge_loop_relabels (rest : list value) :
  forall (cs : value) (e s : Z) (d0 ca : dict) (merged out : list value)
         (cs' ce' : value) (ca' : dict),
    Forall counted rest ->
    as_int cs = Some s ->
    relabelled d0 ca ->
    Grouping.merge_loop rest cs (VInt e) ca merged = Ok (out, cs', ce', ca') ->
    exists s' e' d1 new,
      as_int cs' = Some s' /\ ce' = VInt e' /\
      out = (merged ++ new)%list /\
      Forall (relabels (VDict d0 :: rest)) new /\
      In (VDict d1) (VDict d0 :: rest) /\ relabelled d1 ca' /\
      (List.length new <= List.length rest)%nat.
Proof.
  induction rest as [|item rest IH];
    intros cs e s d0 ca merged out cs' ce' ca' Hall Hs Hca H.
  - simpl in H. injection H as <- <- <- <-.
    exists s, e, d0, []. rewrite app_nil_r.
    repeat split; auto. now left.
  - inversion Hall as [|? ? Hitem Hrest]; subst.
    destruct (counted_inv _ Hitem) as (d & z & -> & Hget & Hz & Hp).
    cbn [Grouping.merge_loop] in H.
    apply bind_ok_inv in H. destruct H as (ns & Hns & H).
    rewrite Hget in H. cbn [bind] in H.
    destruct (py_eq ns (VInt e)) eqn:Heq.
    + apply bind_ok_inv in H. destruct H as (ce1 & Hadd & H).
      destruct (py_add_number _ _ _ _ Hz Hadd) as (n & Hn & ->).
      unfold Grouping.py_sub in H. simpl in H. rewrite Hs in H. simpl in H.
      apply (IH cs _ s d0) in H; auto.
      * destruct H as (s' & e' & d1 & new & H1 & H2 & H3 & H4 & H5 & H6 & H7).
        exists s', e', d1, new. repeat split; auto.
        -- eapply Forall_impl; [|exact H4]. intros o. apply relabels_incl.
           intros x [<-|Hx]; [now left|right; now right].
        -- destruct H5 as [<-|H5]; [now left|right; now right].
        -- simpl. lia.
      * right. eexists. apply relabelled_set. exact Hca.
    + apply bind_ok_inv in H. destruct H as (closed & Hclosed & H).
      apply (close_assignment_number _ _ _ _ _ Hs) in Hclosed. subst closed.
      rewrite (relabelled_set _ _ _ Hca) in H.
      apply bind_ok_inv in H. destruct H as (ce1 & Hadd & H).
      destruct (py_add_number _ _ _ _ Hz Hadd) as (n & Hn & ->).
      apply (IH ns _ n d) in H; auto; [|now left].
      destruct H as (s' & e' & d1 & new & H1 & H2 & H3 & H4 & H5 & H6 & H7).
      exists s', e', d1, (VDict (dict_set "period_length" (VInt (e - s)) d0) :: new).
      repeat split; auto.
      * rewrite H3, <- app_assoc. reflexivity.
      * constructor.
        -- exists d0, (e - s)%Z. split; [now left|reflexivity].
        -- eapply Forall_impl; [|exact H4]. intros o. apply relabels_incl.
           intros x Hx. now right.
      * now right.
      * simpl. lia.
Qed.

Lemma merge_group_relabels (t : list value -> string) (group merged out : list value) :
  Forall counted group ->
  Grouping.merge_group t group merged = Ok out ->
  exists new,
    out = (merged ++ new)%list /\
    Forall (relabels group) new /\
    (List.length new <= List.length group)%nat.
Proof.
  intros Hall H. unfold Grouping.merge_group in H.
  apply bind_ok_inv in H. destruct H as (sorted & Hsorted & H).
  apply sort_group_perm in Hsorted.
  assert (Hall' : Forall counted sorted).
  { rewrite Forall_forall in *. intros x Hx. apply Hall.
    eapply Permutation_in; eauto. }
  rewrite <- (Permutation_length Hsorted).
  assert (Hin : forall x, In x sorted -> In x group)
    by (intros x; apply Permutation_in; assumption).
  clear Hall Hsorted.
  destruct sorted as [|first rest]; [discriminate H|].
  inversion Hall' as [|? ? Hfirst Hrest]; subst.
  destruct (counted_inv _ Hfirst) as (d & z & -> & Hget & Hz & Hp).
  apply bind_ok_inv in H. destruct H as (cs & Hcs & H).
  rewrite Hget in H. cbn [bind] in H.
  apply bind_ok_inv in H. destruct H as (ce & Hadd & H).
  destruct (py_add_number _ _ _ _ Hz Hadd) as (s & Hs & ->).
  apply bind_ok_inv in H. destruct H as ([[[m cs'] ce'] ca'] & Hloop & H).
  apply (merge_loop_relabels rest cs _ s d) in Hloop; auto; [|now left].
  destruct Hloop as (s' & e' & d1 & new & Hs' & -> & -> & Hnew & Hd1 & Hca' & Hlen).
  apply bind_ok_inv in H. destruct H as (closed & Hclosed & H).
  apply (close_assignment_number _ _ _ _ _ Hs') in Hclosed. subst closed.
  rewrite (relabelled_set _ _ _ Hca') in H.
  apply Ok_inj in H. subst out.
  exists (new ++ [VDict (dict_set "period_length" (VInt (e' - s')) d1)])%list.
  rewrite app_assoc. split; [reflexivity|]. split.
  - apply Forall_app. split.
    + eapply Forall_impl; [|exact Hnew]. intros o. now apply relabels_incl.
    + constructor; [|constructor]. exists d1, (e' - s')%Z. auto.
  - rewrite length_app. simpl. lia.
Qed.

Lemma merge_groups_relabels (t : list value -> string) (grouped : Grouping.groups) :
  forall (merged out : list value),
    Forall counted (members grouped) ->
    Grouping.merge_groups t grouped merged = Ok out ->
    exists new,
      out = (merged ++ new)%list /\
      Forall (relabels (members grouped)) new /\
      (List.length new <= List.length (members grouped))%nat.
Proof.
  induction grouped as [|[k g] rest IH]; simpl; intros merged out Hall H.
  - apply Ok_inj in H. subst. exists []. rewrite app_nil_r.
    repeat split; auto.
  - apply bind_ok_inv in H. destruct H as (m & Hm & H).
    unfold members in Hall. simpl in Hall. apply Forall_app in Hall.
    destruct Hall as [Hg Hrest].
    apply merge_group_relabels in Hm; auto.
    destruct Hm as (new1 & -> & Hnew1 & Hlen1).
    apply IH in H; auto.
    destruct H as (new2 & -> & Hnew2 & Hlen2).
    exists (new1 ++ new2)%list. rewrite app_assoc. split; [reflexivity|].
    unfold members in *. simpl. split.
    + apply Forall_app. split.
      * eapply Forall_impl; [|exact Hnew1]. intros o. apply relabels_incl.
        intros x Hx. apply in_or_app. now left.
      * eapply Forall_impl; [|exact Hnew2]. intros o. apply relabels_incl.
        intros x Hx. apply in_or_app. now right.
    + rewrite !length_app. lia.
Qed.

Lemma grouping_relabels (t : list value -> string) (assignments : list value)
    (input_json : dict) (out : list value) :
  Grouping.has_multi_period assignments = Ok false ->
  Grouping._group_consecutive_periods t assignments input_json = Ok out ->
  Forall (relabels assignments) out /\
  (List.length out <= List.length assignments)%nat.
Proof.
  intros Hm H. unfold Grouping._group_consecutive_periods in H.
  destruct assignments as [|a rest];
    [apply Ok_inj in H; subst; split; [constructor|apply Nat.le_refl]|].
  rewrite Hm in H. cbn [bind] in H.
  apply bind_ok_inv in H. destruct H as (grouped & Hg & H).
  apply group_loop_members in Hg. simpl in Hg.
  apply merge_groups_relabels in H.
  - destruct H as (new & -> & Hnew & Hlen). simpl. split.
    + eapply Forall_impl; [|exact Hnew]. intros o. apply relabels_incl.
      intros x. apply Permutation_in. exact Hg.
    + rewrite (Permutation_length Hg) in Hlen. exact Hlen.
  - apply has_multi_period_counted in Hm; auto.
    rewrite Forall_forall in *. intros x Hx. apply Hm.
    eapply Permutation_in; eauto.
Qed.

(** X21: merging rewrites nothing but period_length.  When no assignment
    spans more than one period, every assignment of the result is one of
    the input assignments with its period_length set to a number, all
    other fields (instructor, room, ...) being those of that input
    assignment; and the result has no more assignments than the input. *)
Theorem merging_only_rewrites_period_length :
  forall (type_error_text : list value -> string) (assignments : list value)
         (input_json : dict) (out : list value),
    Grouping.has_multi_period assignments = Ok false ->
    Grouping._group_consecutive_periods type_error_text assignments input_json
    = Ok out ->
    Forall (relabels assignments) out /\
    (List.length out <= List.length assignments)%nat.
Proof. exact grouping_relabels. Qed.

Lemma py_eq_norm (a b : value) :
  hashable a = true -> hashable b = true ->
  (py_eq a b = true <-> norm a = norm b).
Proof.
  destruct a as [|x|x|x|x|x], b as [|y|y|y|y|y]; simpl; intros Ha Hb;
    try discriminate Ha; try discriminate Hb;
    split; intros H; try discriminate H; try reflexivity.
  - destruct x, y; simpl in *; try discriminate H; reflexivity.
  - destruct x, y; simpl in *; try discriminate H; reflexivity.
  - apply Z.eqb_eq in H. now subst.
  - injection H as <-. apply Z.eqb_refl.
  - apply Z.eqb_eq in H. now subst.
  - injection H as ->. apply Z.eqb_refl.
  - apply Z.eqb_eq in H. now subst.
  - injection H as ->. apply Z.eqb_refl.
  - apply String.eqb_eq in H. now subst.
  - injection H as ->. apply String.eqb_refl.
Qed.

Lemma hash_tuple_cons (v : value) (rest : list value) :
  Grouping.hash_tuple (v :: rest) = Ok tt ->
  hashable v = true /\ Grouping.hash_tuple rest = Ok tt.
Proof.
  unfold Grouping.hash_tuple. simpl. intros H.
  apply bind_ok_inv in H. destruct H as (us & Hus & _).
  apply bind_ok_inv in Hus. destruct Hus as (u & Hu & Hus).
  apply bind_ok_inv in Hus. destruct Hus as (us' & Hus' & _).
  unfold hash_value in Hu. destruct (hashable v); [|discriminate Hu].
  split; [reflexivity|]. now rewrite Hus'.
Qed.

Lemma tuple_eq_norm (x : list value) :
  forall y,
    Grouping.hash_tuple x = Ok tt -> Grouping.hash_tuple y = Ok tt ->
    (Grouping.tuple_eq x y = true <-> map norm x = map norm y).
Proof.
  induction x as [|a x IH]; intros [|b y] Hx Hy; simpl;
    try (split; intros H; try discriminate H; reflexivity).
  apply hash_tuple_cons in Hx, Hy. destruct Hx as [Ha Hx], Hy as [Hb Hy].
  rewrite andb_true_iff, (py_eq_norm _ _ Ha Hb), (IH y Hx Hy).
  split.
  - intros [-> ->]. reflexivity.
  - intros H. injection H as H1 H2. auto.
Qed.

Lemma same_group_keyed (n n' : list value) (x y : value) :
  keyed n x -> keyed n' y -> same_group x y = true -> n = n'.
Proof.
  intros (kx & Hx & Hhx & <-) (ky & Hy & Hhy & <-). unfold same_group.
  rewrite Hx, Hy. now apply tuple_eq_norm.
Qed.

Lemma subscript_dict_set_other (k : string) (v : value) (d : dict) :
  k <> "period_length" ->
  subscript (VDict (dict_set "period_length" v d)) k = subscript (VDict d) k.
Proof.
  intros Hk. unfold subscript. rewrite lookup_dict_set.
  apply String.eqb_neq in Hk. now rewrite Hk.
Qed.

Lemma keyed_dict_set (n : list value) (v : value) (d : dict) :
  keyed n (VDict d) -> keyed n (VDict (dict_set "period_length" v d)).
Proof.
  intros (key & Hkey & Hh & Hn). exists key. split; [|auto].
  rewrite <- Hkey. unfold Grouping.fields_of, group_fields. cbn [map_m].
  rewrite !subscript_dict_set_other by discriminate. reflexivity.
Qed.

Lemma starts_at_dict_set (v : value) (d : dict) :
  starts_at (VDict (dict_set "period_length" v d)) = starts_at (VDict d).
Proof.
  unfold starts_at. now rewrite subscript_dict_set_other by discriminate.
Qed.

Lemma ends_with_snoc (l : list value) (a x : value) :
  ends_with (l ++ [a])%list x -> x = a.
Proof.
  intros (l1 & H). apply app_inj_tail in H. now destruct H.
Qed.

Lemma chained_snoc (l : list value) (a : value) :
  chained l -> (forall x, ends_with l x -> apart x a) ->
  chained (l ++ [a])%list.
Proof.
  intros Hl Ha l1 x y l2 Heq.
  destruct (rev l2) as [|z l2'] eqn:Hr.
  - apply (f_equal (@rev value)) in Hr. rewrite rev_involutive in Hr.
    simpl in Hr. subst l2.
    change (l1 ++ [x; y])%list with (l1 ++ [x] ++ [y])%list in Heq.
    rewrite app_assoc in Heq. apply app_inj_tail in Heq.
    destruct Heq as [-> ->]. apply Ha. now exists l1.
  - apply (f_equal (@rev value)) in Hr. rewrite rev_involutive in Hr.
    simpl in Hr. subst l2.
    change (l1 ++ x :: y :: rev l2' ++ [z])%list
      with (l1 ++ (x :: y :: rev l2') ++ [z])%list in Heq.
    rewrite app_assoc in Heq. apply app_inj_tail in Heq.
    destruct Heq as [-> _]. apply (Hl l1 x y (rev l2')). reflexivity.
Qed.

Lemma chained_nil : chained [].
Proof. intros [|? ?] x y l2 H; discriminate H. Qed.

Lemma insert_by_key_sorted (x : Z * value) (sorted : list (Z * value)) :
  StronglySorted key_le sorted ->
  StronglySorted key_le (Grouping.insert_by_key x sorted).
Proof.
  induction 1 as [|y rest Hrest IH Hy]; simpl.
  - constructor; constructor.
  - destruct (fst x <? fst y)%Z eqn:Hlt.
    + apply Z.ltb_lt in Hlt. constructor.
      * now constructor.
      * constructor.
        -- unfold key_le. lia.
        -- eapply Forall_impl; [|exact Hy]. unfold key_le. intros; lia.
    + apply Z.ltb_ge in Hlt. constructor; [assumption|].
      rewrite Forall_forall in *. intros p Hp.
      apply (Permutation_in _ (insert_by_key_perm x rest)) in Hp.
      destruct Hp as [<-|Hp]; [exact Hlt|now apply Hy].
Qed.

Lemma stable_sort_sorted (keyed : list (Z * value)) :
  StronglySorted key_le (Grouping.stable_sort keyed).
Proof.
  unfold Grouping.stable_sort.
  assert (G : forall acc, StronglySorted key_le acc ->
            StronglySorted key_le
              (fold_left (fun sorted x => Grouping.insert_by_key x sorted) keyed acc)).
  { induction keyed as [|x rest IH]; simpl; intros acc Hacc; [assumption|].
    apply IH. now apply insert_by_key_sorted. }
  apply G. constructor.
Qed.

Lemma keys_of_group (group keys : list value) (zs : list Z) :
  map_m (fun x => subscript x "period_start") group = Ok keys ->
  Grouping.numbers keys = Some zs ->
  Forall (fun p => starts_at (snd p) = Some (fst p)) (combine zs group).
Proof.
  revert keys zs. induction group as [|a rest IH]; intros keys zs Hk Hz.
  - destruct zs; constructor.
  - simpl in Hk.
    apply bind_ok_inv in Hk. destruct Hk as (k & Hk1 & Hk).
    apply bind_ok_inv in Hk. destruct Hk as (ks & Hks & Hk).
    apply Ok_inj in Hk. subst keys. simpl in Hz.
    destruct (as_int k) as [z|] eqn:Hzk; [|discriminate Hz].
    destruct (Grouping.numbers ks) as [zs'|] eqn:Hzs; [|discriminate Hz].
    injection Hz as <-. simpl. constructor.
    + simpl. unfold starts_at. now rewrite Hk1.
    + now apply (IH ks).
Qed.

Lemma sorted_starts (l : list (Z * value)) :
  StronglySorted key_le l ->
  Forall (fun p => starts_at (snd p) = Some (fst p)) l ->
  StronglySorted start_le (map snd l).
Proof.
  induction 1 as [|p rest Hrest IH Hp]; simpl; intros Hall; [constructor|].
  inversion Hall as [|? ? Hp0 Hrest0]; subst.
  constructor; [now apply IH|].
  rewrite Forall_forall in *. intros b Hb.
  apply in_map_iff in Hb. destruct Hb as (q & <- & Hq).
  exists (fst p), (fst q). repeat split; auto. now apply Hp.
Qed.

Lemma sort_group_sorted (t : list value -> string) (group sorted : list value) :
  Grouping.sort_group t group = Ok sorted -> StronglySorted start_le sorted.
Proof.
  unfold Grouping.sort_group. intros H.
  apply bind_ok_inv in H. destruct H as (keys & Hkeys & H).
  destruct group as [|a [|b rest]].
  - apply Ok_inj in H. subst. constructor.
  - apply Ok_inj in H. subst. constructor; constructor.
  - destruct (Grouping.numbers keys) as [zs|] eqn:Hz; [|discriminate H].
    apply Ok_inj in H. subst sorted.
    apply sorted_starts; [apply stable_sort_sorted|].
    pose proof (keys_of_group _ _ _ Hkeys Hz) as Hall.
    rewrite Forall_forall in *. intros p Hp. apply Hall.
    apply (Permutation_in _ (stable_sort_perm _)). exact Hp.
Qed.

Lemma py_eq_int_false (v : value) (n e : Z) :
  as_int v = Some n -> py_eq v (VInt e) = false -> n <> e.
Proof.
  destruct v; simpl; intros Hn H; try discriminate Hn;
    injection Hn as <-; now apply Z.eqb_neq in H.
Qed.

Lemma starts_at_lookup (d : dict) (v : value) (z : Z) :
  lookup "period_start" d = Some v -> as_int v = Some z ->
  starts_at (VDict d) = Some z.
Proof. intros Hl Hz. unfold starts_at, subscript. now rewrite Hl. Qed.

Lemma subscript_lookup (d : dict) (k : string) (v : value) :
  subscript (VDict d) k = Ok v -> lookup k d = Some v.
Proof.
  unfold subscript. destruct (lookup k d); intros H; [|discriminate H].
  apply Ok_inj in H. now subst.
Qed.

Lemma apart_closed (d ca : dict) (cs : value) (s e n : Z) (y : value) :
  lookup "period_start" ca = Some cs -> as_int cs = Some s ->
  starts_at y = Some n -> (s <= n)%Z -> n <> e ->
  apart (VDict (dict_set "period_length" (VInt (e - s)) ca)) y.
Proof.
  intros Hl Hs Hy Hle Hne _. exists s, n.
  rewrite starts_at_dict_set, (starts_at_lookup _ _ _ Hl Hs), periods_of_dict_set.
  repeat split; auto. lia.
Qed.

Lemma merge_loop_chain (n : list value) (rest : list value) :
  forall (cs : value) (e s : Z) (ca : dict) (merged out : list value)
         (cs' ce' : value) (ca' : dict),
    Forall counted rest ->
    Forall (keyed n) rest ->
    StronglySorted start_le rest ->
    Forall (fun a => exists z, starts_at a = Some z /\ (s <= z)%Z) rest ->
    as_int cs = Some s ->
    lookup "period_start" ca = Some cs ->
    keyed n (VDict ca) ->
    chained merged ->
    (forall x y, ends_with merged x -> keyed n y -> starts_at y = Some s ->
                 apart x y) ->
    Grouping.merge_loop rest cs (VInt e) ca merged = Ok (out, cs', ce', ca') ->
    exists s' e' new,
      as_int cs' = Some s' /\ ce' = VInt e' /\
      lookup "period_start" ca' = Some cs' /\
      keyed n (VDict ca') /\
      out = (merged ++ new)%list /\
      Forall (keyed n) new /\
      chained out /\
      (forall x y, ends_with out x -> keyed n y -> starts_at y = Some s' ->
                   apart x y).
Proof.
  induction rest as [|item rest IH];
    intros cs e s ca merged out cs' ce' ca'
           Hall Hkeys Hsorted Hge Hs Hl Hca Hch Hend H.
  - simpl in H. injection H as <- <- <- <-.
    exists s, e, []. rewrite app_nil_r. repeat split; auto.
  - inversion Hall as [|? ? Hitem Hrest]; subst.
    inversion Hkeys as [|? ? Hkitem Hkrest]; subst.
    inversion Hsorted as [|? ? Hsrest Hsitem]; subst.
    inversion Hge as [|? ? Hgitem Hgrest]; subst.
    destruct (counted_inv _ Hitem) as (d & z & -> & Hget & Hz & Hp).
    cbn [Grouping.merge_loop] in H.
    apply bind_ok_inv in H. destruct H as (ns & Hns & H).
    rewrite Hget in H. cbn [bind] in H.
    destruct (py_eq ns (VInt e)) eqn:Heq.
    + apply bind_ok_inv in H. destruct H as (ce1 & Hadd & H).
      destruct (py_add_number _ _ _ _ Hz Hadd) as (m & Hm & ->).
      unfold Grouping.py_sub in H. simpl in H. rewrite Hs in H. simpl in H.
      apply (IH cs _ s) in H; auto.
      * rewrite lookup_dict_set. simpl. exact Hl.
      * now apply keyed_dict_set.
    + apply bind_ok_inv in H. destruct H as (closed & Hclosed & H).
      apply (close_assignment_number _ _ _ _ _ Hs) in Hclosed. subst closed.
      apply bind_ok_inv in H. destruct H as (ce1 & Hadd & H).
      destruct (py_add_number _ _ _ _ Hz Hadd) as (m & Hm & ->).
      pose proof (subscript_lookup _ _ _ Hns) as Hld.
      pose proof (starts_at_lookup _ _ _ Hld Hm) as Hstart.
      destruct Hgitem as (z0 & Hz0 & Hle). rewrite Hstart in Hz0.
      injection Hz0 as <-.
      pose proof (py_eq_int_false _ _ _ Hm Heq) as Hne.
      apply (IH ns _ m) in H; auto.
      * destruct H as (s' & e' & new & H1 & H2 & H3 & H4 & H5 & H6 & H7 & H8).
        exists s', e',
          (VDict (dict_set "period_length" (VInt (e - s)) ca) :: new).
        repeat split; auto.
        -- rewrite H5, <- app_assoc. reflexivity.
        -- constructor; [now apply keyed_dict_set|assumption].
      * rewrite Forall_forall in *. intros a Ha.
        destruct (Hsitem a Ha) as (za & zb & Hza & Hzb & Hab).
        rewrite Hstart in Hza. injection Hza as <-. eauto.
      * apply chained_snoc; [assumption|].
        intros x Hx. apply Hend; auto.
        -- now apply keyed_dict_set.
        -- rewrite starts_at_dict_set. now apply (starts_at_lookup _ cs).
      * intros x y Hx Hy Hsy. apply ends_with_snoc in Hx. subst x.
        now apply (apart_closed d ca cs s e m).
Qed.

Lemma merge_group_chain (t : list value -> string) (n : list value)
    (group merged out : list value) :
  Forall counted group ->
  Forall (keyed n) group ->
  chained merged ->
  (forall x y, ends_with merged x -> keyed n y -> apart x y) ->
  Grouping.merge_group t group merged = Ok out ->
  chained out /\
  exists new, out = (merged ++ new)%list /\ Forall (keyed n) new.
Proof.
  intros Hall Hkeys Hch Hend H. unfold Grouping.merge_group in H.
  apply bind_ok_inv in H. destruct H as (sorted & Hsorted & H).
  pose proof (sort_group_sorted _ _ _ Hsorted) as Hss.
  apply sort_group_perm in Hsorted.
  assert (Hall' : Forall counted sorted).
  { rewrite Forall_forall in *. intros x Hx. apply Hall.
    eapply Permutation_in; eauto. }
  assert (Hkeys' : Forall (keyed n) sorted).
  { rewrite Forall_forall in *. intros x Hx. apply Hkeys.
    eapply Permutation_in; eauto. }
  clear Hall Hkeys Hsorted.
  destruct sorted as [|first rest]; [discriminate H|].
  inversion Hall' as [|? ? Hfirst Hrest]; subst.
  inversion Hkeys' as [|? ? Hkfirst Hkrest]; subst.
  inversion Hss as [|? ? Hsrest Hsfirst]; subst.
  destruct (counted_inv _ Hfirst) as (d & z & -> & Hget & Hz & Hp).
  apply bind_ok_inv in H. destruct H as (cs & Hcs & H).
  rewrite Hget in H. cbn [bind] in H.
  apply bind_ok_inv in H. destruct H as (ce & Hadd & H).
  destruct (py_add_number _ _ _ _ Hz Hadd) as (s & Hs & ->).
  pose proof (subscript_lookup _ _ _ Hcs) as Hld.
  pose proof (starts_at_lookup _ _ _ Hld Hs) as Hstart.
  apply bind_ok_inv in H. destruct H as ([[[m cs'] ce'] ca'] & Hloop & H).
  apply (merge_loop_chain n rest cs _ s) in Hloop; auto.
  - destruct Hloop as (s' & e' & new & Hs' & -> & Hl' & Hca' & -> & Hnew & Hch' & Hend').
    apply bind_ok_inv in H. destruct H as (closed & Hclosed & H).
    apply (close_assignment_number _ _ _ _ _ Hs') in Hclosed. subst closed.
    apply Ok_inj in H. subst out. split.
    + apply chained_snoc; [assumption|].
      intros x Hx. apply Hend'; auto.
      * now apply keyed_dict_set.
      * rewrite starts_at_dict_set. now apply (starts_at_lookup _ cs').
    + exists (new ++ [VDict (dict_set "period_length" (VInt (e' - s')) ca')])%list.
      rewrite app_assoc. split; [reflexivity|].
      apply Forall_app. split; [assumption|].
      constructor; [now apply keyed_dict_set|constructor].
  - rewrite Forall_forall in *. intros a Ha.
    destruct (Hsfirst a Ha) as (za & zb & Hza & Hzb & Hab).
    rewrite Hstart in Hza. injection Hza as <-. eauto.
Qed.

Lemma merge_groups_chain (t : list value -> string) (grouped : Grouping.groups) :
  forall (merged out : list value) (done : list (list value)),
    Forall (fun kg => Forall counted (snd kg)) grouped ->
    well_grouped grouped ->
    Forall (fun x => exists n', In n' done /\ keyed n' x) merged ->
    (forall n', In n' done -> ~ In n' (group_keys grouped)) ->
    chained merged ->
    Grouping.merge_groups t grouped merged = Ok out ->
    chained out.
Proof.
  induction grouped as [|[k g] rest IH]; simpl;
    intros merged out done Hall [Hwg Hnd] Hdone Hfresh Hch H.
  - apply Ok_inj in H. now subst.
  - apply bind_ok_inv in H. destruct H as (m & Hm & H).
    inversion Hall as [|? ? Hg Hrest]; subst.
    inversion Hwg as [|? ? Hkg Hkrest]; subst.
    inversion Hnd as [|? ? Hnotin Hnd']; subst.
    simpl in Hg, Hkg.
    apply (merge_group_chain t (map norm k)) in Hm; auto.
    + destruct Hm as (Hch' & new & -> & Hnew).
      apply (IH _ _ (map norm k :: done)) in H; auto.
      * split; assumption.
      * apply Forall_app. split.
        -- eapply Forall_impl; [|exact Hdone].
           intros x (n' & Hn' & Hx). exists n'. split; [now right|assumption].
        -- eapply Forall_impl; [|exact Hnew].
           intros x Hx. exists (map norm k). split; [now left|assumption].
      * intros n' [<-|Hn']; [assumption|].
        intros Hin. apply (Hfresh n' Hn'). now right.
    + intros x y (l1 & ->) Hy Hsame.
      rewrite Forall_forall in Hdone.
      destruct (Hdone x) as (n' & Hn' & Hx);
        [apply in_or_app; right; now left|].
      pose proof (same_group_keyed _ _ _ _ Hx Hy Hsame) as Heq. subst n'.
      exfalso. apply (Hfresh _ Hn'). now left.
Qed.

Lemma group_keys_add (key : list value) (a : value) (grouped : Grouping.groups) :
  forall n, In n (group_keys (Grouping.group_add key a grouped)) ->
            In n (group_keys grouped) \/ n = map norm key.
Proof.
  induction grouped as [|[k g] rest IH]; simpl; intros n Hn.
  - destruct Hn as [<-|[]]. now right.
  - destruct (Grouping.tuple_eq k key); simpl in Hn.
    + left. exact Hn.
    + destruct Hn as [<-|Hn]; [left; now left|].
      destruct (IH n Hn) as [H|H]; [left; now right|now right].
Qed.

Lemma group_add_well_grouped (key : list value) (a : value) (grouped : Grouping.groups) :
  Forall (fun kg => Grouping.hash_tuple (fst kg) = Ok tt) grouped ->
  well_grouped grouped ->
  Grouping.fields_of a group_fields = Ok key ->
  Grouping.hash_tuple key = Ok tt ->
  Forall (fun kg => Grouping.hash_tuple (fst kg) = Ok tt)
         (Grouping.group_add key a grouped) /\
  well_grouped (Grouping.group_add key a grouped).
Proof.
  intros Hh [Hwg Hnd] Hkey Hhash.
  induction grouped as [|[k g] rest IH]; simpl.
  - split; [repeat constructor; assumption|]. split.
    + constructor; [|constructor]. simpl. constructor; [|constructor].
      exists key. auto.
    + simpl. constructor; [intros []|constructor].
  - inversion Hh as [|? ? Hk Hhrest]; subst.
    inversion Hwg as [|? ? Hg Hwrest]; subst.
    inversion Hnd as [|? ? Hnotin Hnd']; subst.
    simpl in Hk, Hg.
    destruct (Grouping.tuple_eq k key) eqn:Heq.
    + split; [constructor; assumption|]. split.
      * constructor; [|assumption]. simpl.
        apply Forall_app. split; [assumption|].
        constructor; [|constructor]. exists key. repeat split; auto.
        symmetry. now apply tuple_eq_norm.
      * simpl. constructor; assumption.
    + destruct (IH Hhrest Hwrest Hnd') as (IH1 & IH2 & IH3).
      split; [constructor; assumption|]. split.
      * constructor; assumption.
      * simpl. constructor; [|assumption].
        intros Hin. apply group_keys_add in Hin. destruct Hin as [Hin|Hin].
        -- now apply Hnotin.
        -- apply (tuple_eq_norm k key Hk Hhash) in Hin. congruence.
Qed.

Lemma group_loop_well_grouped (assignments : list value) :
  forall (grouped grouped' : Grouping.groups),
    Forall (fun kg => Grouping.hash_tuple (fst kg) = Ok tt) grouped ->
    well_grouped grouped ->
    Grouping.group_loop assignments grouped = Ok grouped' ->
    well_grouped grouped'.
Proof.
  induction assignments as [|a rest IH]; simpl; intros grouped grouped' Hh Hwg H.
  - apply Ok_inj in H. now subst.
  - apply bind_ok_inv in H. destruct H as (key & Hkey & H).
    apply bind_ok_inv in H. destruct H as ([] & Hhash & H).
    destruct (group_add_well_grouped key a grouped Hh Hwg Hkey Hhash) as [Hh' Hwg'].
    now apply (IH _ _ Hh' Hwg').
Qed.

Lemma Forall_members (P : value -> Prop) (grouped : Grouping.groups) :
  Forall P (members grouped) -> Forall (fun kg => Forall P (snd kg)) grouped.
Proof.
  unfold members. induction grouped as [|[k g] rest IH]; simpl; intros H.
  - constructor.
  - apply Forall_app in H. destruct H as [Hg Hrest].
    constructor; [assumption|now apply IH].
Qed.

Lemma grouping_chained (t : list value -> string) (assignments : list value)
    (input_json : dict) (out : list value) :
  Grouping.has_multi_period assignments = Ok false ->
  Grouping._group_consecutive_periods t assignments input_json = Ok out ->
  forall before x y after,
    out = (before ++ x :: y :: after)%list ->
    same_group x y = true ->
    separated x y.
Proof.
  intros Hm H. unfold Grouping._group_consecutive_periods in H.
  destruct assignments as [|a rest].
  { apply Ok_inj in H. subst. intros [|? ?] ? ? ? Heq; discriminate Heq. }
  rewrite Hm in H. cbn [bind] in H.
  apply bind_ok_inv in H. destruct H as (grouped & Hg & H).
  pose proof (group_loop_members _ _ _ Hg) as Hperm. simpl in Hperm.
  apply group_loop_well_grouped in Hg;
    [|constructor|split; constructor].
  apply (merge_groups_chain t grouped [] out []) in H; auto.
  - apply Forall_members.
    apply has_multi_period_counted in Hm; auto.
    rewrite Forall_forall in *. intros x Hx. apply Hm.
    eapply Permutation_in; eauto.
  - apply chained_nil.
Qed.

(** X22: what is left after merging is ordered and has a gap.  When no
    assignment spans more than one period, two neighbours of the result
    that agree on (course_id, week, day, room_id) have numbers as first
    periods, the second does not start before the first, and it does not
    start at the period where the first one ends: no mergeable pair of
    neighbours is left. *)
Theorem merged_runs_are_ordered_and_separated :
  forall (type_error_text : list value -> string) (assignments : list value)
         (input_json : dict) (out : list value),
    Grouping.has_multi_period assignments = Ok false ->
    Grouping._group_consecutive_periods type_error_text assignments input_json
    = Ok out ->
    forall before x y after,
      out = (before ++ x :: y :: after)%list ->
      same_group x y = true ->
      separated x y.
Proof. exact grouping_chained. Qed.

Lemma is_number_hashable (v : value) : is_number v = true -> hashable v = true.
Proof. destruct v; simpl; intros H; try discriminate H; reflexivity. Qed.

Lemma well_formed_placed (a : value) :
  well_formed_assignment a = true -> placed a.
Proof.
  destruct a as [| | | | |d]; simpl; intros H; try discriminate H.
  destruct (lookup "course_id" d) as [c|] eqn:Hc; [|discriminate H].
  destruct (lookup "week" d) as [w|] eqn:Hw; [|discriminate H].
  destruct (lookup "day" d) as [dy|] eqn:Hd; [|discriminate H].
  destruct (lookup "room_id" d) as [r|] eqn:Hr; [|discriminate H].
  destruct (lookup "period_start" d) as [p|] eqn:Hp; [|discriminate H].
  rewrite !andb_true_iff in H.
  destruct H as (((((H1 & H2) & H3) & H4) & H5) & H6).
  unfold is_number in H5, H6.
  destruct (as_int p) as [z|] eqn:Hz; [|discriminate H5].
  destruct (as_int (get d "period_length" (VInt 1))) as [l|] eqn:Hl;
    [|discriminate H6].
  assert (Hhp : hashable p = true)
    by (apply is_number_hashable; unfold is_number; now rewrite Hz).
  split; [exists d, l; auto|].
  split; [|split].
  - exists [c; w; dy; r; p]. unfold Grouping.fields_of, slot_fields.
    cbn [map_m subscript]. rewrite Hc, Hw, Hd, Hr, Hp. split; [reflexivity|].
    unfold Grouping.hash_tuple, hash_value. cbn [map_m].
    rewrite H1, H2, H3, H4, Hhp. reflexivity.
  - exists [c; w; dy; r]. unfold Grouping.fields_of, group_fields.
    cbn [map_m subscript]. rewrite Hc, Hw, Hd, Hr. split; [reflexivity|].
    unfold Grouping.hash_tuple, hash_value. cbn [map_m].
    rewrite H1, H2, H3, H4. reflexivity.
  - exists p, z. unfold subscript. rewrite Hp. auto.
Qed.

Lemma has_multi_period_total (assignments : list value) :
  Forall placed assignments ->
  exists b, Grouping.has_multi_period assignments = Ok b.
Proof.
  induction 1 as [|a rest Ha Hrest IH]; simpl; [eauto|].
  destruct Ha as (Hc & _).
  destruct (counted_inv _ Hc) as (d & z & -> & Hget & Hz & _).
  rewrite Hget. cbn [bind]. unfold Explain.gt_int. rewrite Hz. cbn [bind].
  destruct (z >? 1)%Z; eauto.
Qed.

Lemma dedupe_loop_total (assignments : list value) :
  Forall placed assignments ->
  forall seen deduplicated,
  exists out, Grouping.dedupe_loop assignments seen deduplicated = Ok out.
Proof.
  induction 1 as [|a rest Ha Hrest IH]; intros seen ded; [simpl; eauto|].
  destruct Ha as (_ & (key & Hkey & Hhash) & _).
  cbn [Grouping.dedupe_loop]. fold slot_fields.
  rewrite Hkey. cbn [bind]. rewrite Hhash. cbn [bind].
  destruct (existsb (fun k => Grouping.tuple_eq k key) seen); apply IH.
Qed.

Lemma group_loop_total (assignments : list value) :
  Forall placed assignments ->
  forall grouped,
  exists grouped', Grouping.group_loop assignments grouped = Ok grouped'.
Proof.
  induction 1 as [|a rest Ha Hrest IH]; intros grouped; [simpl; eauto|].
  destruct Ha as (_ & _ & (key & Hkey & Hhash) & _).
  cbn [Grouping.group_loop]. fold group_fields.
  rewrite Hkey. cbn [bind]. rewrite Hhash. cbn [bind]. apply IH.
Qed.

Lemma starts_total (group : list value) :
  Forall placed group ->
  exists keys zs,
    map_m (fun x => subscript x "period_start") group = Ok keys /\
    Grouping.numbers keys = Some zs.
Proof.
  induction 1 as [|a rest Ha Hrest IH]; [exists [], []; auto|].
  destruct Ha as (_ & _ & _ & (p & z & Hp & Hz)).
  destruct IH as (keys & zs & Hkeys & Hzs).
  exists (p :: keys), (z :: zs). simpl. rewrite Hp. cbn [bind].
  rewrite Hkeys. cbn [bind]. rewrite Hz, Hzs. auto.
Qed.

Lemma sort_group_total (group : list value) :
  Forall placed group ->
  exists sorted, forall t, Grouping.sort_group t group = Ok sorted.
Proof.
  intros Hall. destruct (starts_total _ Hall) as (keys & zs & Hkeys & Hzs).
  unfold Grouping.sort_group. rewrite Hkeys. cbn [bind].
  destruct group as [|a [|b rest]]; eauto.
  rewrite Hzs. eauto.
Qed.

Lemma py_add_total (a b : value) (x y : Z) :
  as_int a = Some x -> as_int b = Some y ->
  Grouping.py_add a b = Ok (VInt (x + y)).
Proof. intros Ha Hb. unfold Grouping.py_add. now rewrite Ha, Hb. Qed.

Lemma merge_loop_total_run (rest : list value) :
  Forall placed rest ->
  forall (cs : value) (e s : Z) (ca : dict) (merged : list value),
    as_int cs = Some s ->
    exists out cs' s' e' ca',
      Grouping.merge_loop rest cs (VInt e) ca merged = Ok (out, cs', VInt e', ca')
      /\ as_int cs' = Some s'.
Proof.
  induction 1 as [|item rest Hitem Hrest IH]; intros cs e s ca merged Hs.
  - simpl. exists merged, cs, s, e, ca. auto.
  - destruct Hitem as (Hc & _ & _ & (p & z & Hp & Hz)).
    destruct (counted_inv _ Hc) as (d & l & -> & Hget & Hl & _).
    cbn [Grouping.merge_loop]. rewrite Hp, Hget. cbn [bind].
    rewrite (py_add_total _ _ _ _ Hz Hl).
    unfold Grouping.close_assignment, Grouping.py_sub.
    cbn [bind as_int]. rewrite Hs. cbn [bind].
    destruct (py_eq p (VInt e)).
    + apply (IH cs _ s). exact Hs.
    + apply (IH p _ z). exact Hz.
Qed.

Lemma merge_group_total_run (group merged : list value) :
  Forall placed group -> group <> [] ->
  exists out, forall t, Grouping.merge_group t group merged = Ok out.
Proof.
  intros Hall Hne.
  destruct (sort_group_total _ Hall) as (sorted & Hsorted).
  pose proof (sort_group_perm (fun _ => EmptyString) _ _ (Hsorted _)) as Hperm.
  assert (Hall' : Forall placed sorted).
  { rewrite Forall_forall in *. intros x Hx. apply Hall.
    eapply Permutation_in; eauto. }
  destruct sorted as [|first rest].
  { apply Permutation_nil in Hperm. contradiction. }
  inversion Hall' as [|? ? Hfirst Hrest]; subst.
  destruct Hfirst as (Hc & _ & _ & (p & z & Hp & Hz)).
  destruct (counted_inv _ Hc) as (d & l & -> & Hget & Hl & _).
  destruct (merge_loop_total_run rest Hrest p (z + l) z (Grouping.copy (VDict d))
              merged Hz) as (out & cs' & s' & e' & ca' & Hloop & Hs').
  eexists. intros t. unfold Grouping.merge_group.
  rewrite Hsorted. cbn [bind]. rewrite Hp, Hget. cbn [bind].
  rewrite (py_add_total _ _ _ _ Hz Hl). cbn [bind].
  rewrite Hloop. cbn [bind].
  unfold Grouping.close_assignment, Grouping.py_sub.
  cbn [as_int]. rewrite Hs'. cbn [bind]. reflexivity.
Qed.

Lemma merge_groups_total_run (grouped : Grouping.groups) :
  Forall (fun kg => Forall placed (snd kg) /\ snd kg <> []) grouped ->
  forall merged,
  exists out, forall t, Grouping.merge_groups t grouped merged = Ok out.
Proof.
  induction 1 as [|[k g] rest [Hg Hne] Hrest IH]; intros merged.
  - simpl. eauto.
  - simpl in Hg, Hne.
    destruct (merge_group_total_run g merged Hg Hne) as (m & Hm).
    destruct (IH m) as (out & Hout).
    exists out. intros t. simpl. rewrite Hm. cbn [bind]. apply Hout.
Qed.

Lemma group_add_nonempty (key : list value) (a : value) (grouped : Grouping.groups) :
  Forall (fun kg => snd kg <> []) grouped ->
  Forall (fun kg => snd kg <> []) (Grouping.group_add key a grouped).
Proof.
  induction 1 as [|[k g] rest Hg Hrest IH]; simpl.
  - constructor; [discriminate|constructor].
  - destruct (Grouping.tuple_eq k key).
    + constructor; [|assumption]. simpl. intros H.
      apply app_eq_nil in H. destruct H as [_ H]. discriminate H.
    + constructor; assumption.
Qed.

Lemma group_loop_nonempty (assignments : list value) :
  forall (grouped grouped' : Grouping.groups),
    Forall (fun kg => snd kg <> []) grouped ->
    Grouping.group_loop assignments grouped = Ok grouped' ->
    Forall (fun kg => snd kg <> []) grouped'.
Proof.
  induction assignments as [|a rest IH]; simpl; intros grouped grouped' Hne H.
  - apply Ok_inj in H. now subst.
  - apply bind_ok_inv in H. destruct H as (key & _ & H).
    apply bind_ok_inv in H. destruct H as (u & _ & H).
    apply (IH _ _ (group_add_nonempty key a grouped Hne) H).
Qed.

Lemma grouping_total_run (assignments : list value) (input_json : dict) :
  Forall placed assignments ->
  exists out,
    forall t, Grouping._group_consecutive_periods t assignments input_json = Ok out.
Proof.
  intros Hall. unfold Grouping._group_consecutive_periods.
  destruct assignments as [|a rest]; [eauto|].
  destruct (has_multi_period_total _ Hall) as (b & Hb). rewrite Hb. cbn [bind].
  destruct b.
  - destruct (dedupe_loop_total _ Hall [] []) as (out & Hout). eauto.
  - destruct (group_loop_total _ Hall []) as (grouped & Hg). rewrite Hg. cbn [bind].
    apply merge_groups_total_run.
    pose proof (group_loop_members _ _ _ Hg) as Hperm. simpl in Hperm.
    pose proof (group_loop_nonempty _ _ _ (Forall_nil _) Hg) as Hne.
    assert (Hp : Forall placed (members grouped)).
    { rewrite Forall_forall in *. intros x Hx. apply Hall.
      eapply Permutation_in; eauto. }
    apply Forall_members in Hp.
    rewrite Forall_forall in *. intros kg Hkg. auto.
Qed.

(** X23: _group_consecutive_periods never raises on well-formed solver
    output.  When every assignment is a record with hashable course_id,
    week, day and room_id, a number as period_start and a number, or
    nothing, as period_length, the function returns a list; the result
    is the same whatever the wording of the TypeError that list.sort
    would raise on other inputs. *)
Theorem grouping_accepts_well_formed_assignments :
  forall (assignments : list value) (input_json : dict),
    forallb well_formed_assignment assignments = true ->
    exists out,
      forall type_error_text,
        Grouping._group_consecutive_periods type_error_text assignments input_json
        = Ok out.
Proof.
  intros assignments input_json H. apply grouping_total_run.
  rewrite forallb_forall in H. apply Forall_forall.
  intros a Ha. apply well_formed_placed. now apply H.
Qed.

(* ================================================================== *)
(** ** The theorems on the grouping of periods at sample inputs *)
(* ================================================================== *)

Lemma merging_preserves_the_number_of_periods_witness :
  total_periods
    [example_period "C1" 3 1; example_period "C1" 3 4; example_period "C1" 9 1;
     example_period "C2" 7 1]
  = total_periods example_single_periods.
Proof.
  apply (merging_preserves_the_number_of_periods (fun _ => EmptyString)
           example_single_periods []); reflexivity.
Defined.

Lemma deduplication_keeps_the_first_of_each_slot_witness :
  subsequence [example_period "C1" 3 2; example_period "C2" 5 1]
    example_long_periods.
Proof.
  apply (proj1 (deduplication_keeps_the_first_of_each_slot (fun _ => EmptyString)
                  example_long_periods [] _ eq_refl eq_refl)).
Defined.

Lemma merging_only_rewrites_period_length_witness :
  Forall (relabels example_single_periods)
    [example_period "C1" 3 1; example_period "C1" 3 4; example_period "C1" 9 1;
     example_period "C2" 7 1].
Proof.
  apply (proj1 (merging_only_rewrites_period_length (fun _ => EmptyString)
                  example_single_periods [] _ eq_refl eq_refl)).
Defined.

Lemma merged_runs_are_ordered_and_separated_witness :
  separated (example_period "C1" 3 4) (example_period "C1" 9 1).
Proof.
  apply (merged_runs_are_ordered_and_separated (fun _ => EmptyString)
           example_single_periods [] _ eq_refl eq_refl
           [example_period "C1" 3 1] _ _ [example_period "C2" 7 1]);
    reflexivity.
Defined.

Lemma grouping_accepts_well_formed_assignments_witness :
  exists out,
    forall type_error_text,
      Grouping._group_consecutive_periods type_error_text example_single_periods []
      = Ok out.
Proof.
  apply (grouping_accepts_well_formed_assignments example_single_periods []).
  reflexivity.
Defined.

(* ================================================================== *)
(** ** Properties of the check of consecutive availability *)
(* ================================================================== *)

Lemma periods_on_app (k : value) (l1 l2 : list value) :
  periods_on k (l1 ++ l2)%list = (periods_on k l1 ++ periods_on k l2)%list.
Proof.
  induction l1 as [|slot l1 IH]; simpl; [reflexivity|].
  destruct (subscript slot "day") as [d| |]; try exact IH.
  destruct (subscript slot "period") as [v| |]; try exact IH.
  destruct (py_eq k d); [|exact IH]. simpl. now rewrite IH.
Qed.

Lemma periods_on_one (k : value) (slot d v : value) :
  subscript slot "day" = Ok d -> subscript slot "period" = Ok v ->
  periods_on k [slot] = if py_eq k d then [v] else [].
Proof. intros Hd Hv. simpl. rewrite Hd, Hv. now destruct (py_eq k d). Qed.

Lemma periods_on_in (k v : value) (slots : list value) :
  In v (periods_on k slots) ->
  exists slot d,
    In slot slots /\ subscript slot "day" = Ok d /\ py_eq k d = true /\
    subscript slot "period" = Ok v.
Proof.
  induction slots as [|slot rest IH]; simpl; intros H; [contradiction|].
  assert (G : In v (periods_on k rest) ->
              exists slot0 d, (slot = slot0 \/ In slot0 rest)
                /\ subscript slot0 "day" = Ok d /\ py_eq k d = true
                /\ subscript slot0 "period" = Ok v).
  { intros H'. destruct (IH H') as (s & d & Hs & Hd & He & Hv).
    exists s, d. auto. }
  destruct (subscript slot "day") as [d| |] eqn:Hd; try (now apply G).
  destruct (subscript slot "period") as [v'| |] eqn:Hv; try (now apply G).
  destruct (py_eq k d) eqn:He; [|now apply G].
  destruct H as [<-|H]; [|now apply G].
  exists slot, d. auto.
Qed.

Lemma in_periods_on (k : value) (slots : list value) (slot d v : value) :
  In slot slots -> subscript slot "day" = Ok d -> py_eq k d = true ->
  subscript slot "period" = Ok v ->
  In v (periods_on k slots).
Proof.
  intros Hin Hd He Hv. induction slots as [|s rest IH]; [contradiction|].
  simpl. destruct Hin as [->|Hin].
  - rewrite Hd, Hv, He. now left.
  - specialize (IH Hin).
    destruct (subscript s "day") as [d'| |]; try exact IH.
    destruct (subscript s "period") as [v'| |]; try exact IH.
    destruct (py_eq k d'); [now right|exact IH].
Qed.

Lemma periods_on_fresh (d : value) (done : list value) (by_day : Availability.days) :
  hashable d = true ->
  Forall readable done ->
  Forall (fun kp => hashable (fst kp) = true) by_day ->
  covered done by_day ->
  existsb (fun kp => py_eq (fst kp) d) by_day = false ->
  periods_on d done = [].
Proof.
  intros Hd Hread Hh Hcov Hnone.
  destruct (periods_on d done) as [|v l] eqn:Hp; [reflexivity|exfalso].
  assert (Hin : In v (periods_on d done)) by (rewrite Hp; now left).
  apply periods_on_in in Hin.
  destruct Hin as (slot & d' & Hslot & Hd' & He & _).
  destruct (Hcov slot d' Hslot Hd') as (kp & Hkp & Hk).
  rewrite Forall_forall in Hread, Hh.
  destruct (Hread slot Hslot) as (d0 & v0 & Hd0 & _ & Hh0).
  rewrite Hd' in Hd0. apply Ok_inj in Hd0. subst d0.
  pose proof (Hh kp Hkp) as Hhk.
  apply (py_eq_norm _ _ Hd Hh0) in He.
  apply (py_eq_norm _ _ Hhk Hh0) in Hk.
  assert (Hkd : py_eq (fst kp) d = true)
    by (apply (py_eq_norm _ _ Hhk Hd); congruence).
  assert (Hex : existsb (fun kp => py_eq (fst kp) d) by_day = true)
    by (apply existsb_exists; eauto).
  congruence.
Qed.

Lemma day_add_filed (done : list value) (slot d v : value) (by_day : Availability.days) :
  subscript slot "day" = Ok d -> subscript slot "period" = Ok v ->
  hashable d = true ->
  filed done by_day ->
  NoDup (day_keys by_day) ->
  (existsb (fun kp => py_eq (fst kp) d) by_day = false -> periods_on d done = []) ->
  filed (done ++ [slot])%list (Availability.day_add d v by_day).
Proof.
  intros Hd Hv Hh. unfold filed.
  induction by_day as [|[k ps] rest IH]; simpl; intros Hf Hnd Hfresh.
  - constructor; [|constructor]. simpl. split; [assumption|].
    rewrite periods_on_app, (periods_on_one _ _ _ _ Hd Hv), Hfresh by reflexivity.
    now rewrite (py_eq_refl_hashable _ Hh).
  - inversion Hf as [|? ? [Hk Hps] Hrest]; subst.
    inversion Hnd as [|? ? Hnotin Hnd']; subst. simpl in Hk, Hps, Hnotin.
    destruct (py_eq k d) eqn:He.
    + constructor.
      * simpl. split; [assumption|].
        now rewrite periods_on_app, (periods_on_one _ _ _ _ Hd Hv), He, <- Hps.
      * rewrite Forall_forall in *. intros kp Hkp.
        destruct (Hrest kp Hkp) as [Hk' Hps']. split; [assumption|].
        rewrite periods_on_app, (periods_on_one _ _ _ _ Hd Hv), <- Hps'.
        destruct (py_eq (fst kp) d) eqn:He'; [|now rewrite app_nil_r].
        exfalso. apply Hnotin. unfold day_keys. apply in_map_iff.
        exists kp. split; [|assumption].
        apply (py_eq_norm _ _ Hk Hh) in He.
        apply (py_eq_norm _ _ Hk' Hh) in He'. congruence.
    + constructor.
      * simpl. split; [assumption|].
        rewrite periods_on_app, (periods_on_one _ _ _ _ Hd Hv), He, <- Hps.
        now rewrite app_nil_r.
      * apply IH; auto.
Qed.

Lemma day_add_keys (d v : value) (by_day : Availability.days) :
  map fst (Availability.day_add d v by_day)
  = if existsb (fun kp => py_eq (fst kp) d) by_day
    then map fst by_day
    else (map fst by_day ++ [d])%list.
Proof.
  induction by_day as [|[k ps] rest IH]; simpl; [reflexivity|].
  destruct (py_eq k d); simpl; [reflexivity|].
  rewrite IH. now destruct (existsb _ rest).
Qed.

Lemma day_keys_fst (by_day : Availability.days) :
  day_keys by_day = map norm (map fst by_day).
Proof. unfold day_keys. now rewrite map_map. Qed.

Lemma day_add_nodup (d v : value) (by_day : Availability.days) :
  hashable d = true ->
  Forall (fun kp => hashable (fst kp) = true) by_day ->
  NoDup (day_keys by_day) ->
  NoDup (day_keys (Availability.day_add d v by_day)).
Proof.
  intros Hh Hall Hnd. rewrite day_keys_fst, day_add_keys.
  destruct (existsb (fun kp => py_eq (fst kp) d) by_day) eqn:Hex.
  - now rewrite <- day_keys_fst.
  - rewrite map_app. simpl.
    apply NoDup_app_remove_l with (l := []). simpl.
    apply Permutation_NoDup with (l := norm d :: map norm (map fst by_day)).
    + apply Permutation_cons_append.
    + constructor; [|now rewrite <- day_keys_fst].
      intros Hin. rewrite <- day_keys_fst in Hin. unfold day_keys in Hin.
      apply in_map_iff in Hin. destruct Hin as (kp & Hn & Hkp).
      rewrite Forall_forall in Hall.
      assert (He : py_eq (fst kp) d = true)
        by (apply (py_eq_norm _ _ (Hall kp Hkp) Hh); exact Hn).
      assert (Hex' : existsb (fun kp => py_eq (fst kp) d) by_day = true)
        by (apply existsb_exists; eauto).
      congruence.
Qed.

Lemma day_add_covered (done : list value) (slot d v : value) (by_day : Availability.days) :
  subscript slot "day" = Ok d ->
  hashable d = true ->
  covered done by_day ->
  covered (done ++ [slot])%list (Availability.day_add d v by_day).
Proof.
  intros Hd Hh Hcov.
  assert (Hkeys : forall k, In k (map fst by_day) ->
                            In k (map fst (Availability.day_add d v by_day))).
  { intros k Hk. rewrite day_add_keys.
    destruct (existsb _ by_day); [assumption|apply in_or_app; now left]. }
  assert (Hfind : forall k d', In k (map fst (Availability.day_add d v by_day)) ->
                    py_eq k d' = true ->
                    exists kp, In kp (Availability.day_add d v by_day)
                               /\ py_eq (fst kp) d' = true).
  { intros k d' Hk He. apply in_map_iff in Hk.
    destruct Hk as (kp & <- & Hkp). eauto. }
  intros s d' Hs Hd'. apply in_app_or in Hs. destruct Hs as [Hs|[<-|[]]].
  - destruct (Hcov s d' Hs Hd') as (kp & Hkp & He).
    apply (Hfind (fst kp)); [|assumption].
    apply Hkeys, in_map. assumption.
  - rewrite Hd in Hd'. apply Ok_inj in Hd'. subst d'.
    destruct (existsb (fun kp => py_eq (fst kp) d) by_day) eqn:Hex.
    + apply existsb_exists in Hex. destruct Hex as (kp & Hkp & He).
      apply (Hfind (fst kp)); [|assumption].
      apply Hkeys, in_map. assumption.
    + apply (Hfind d); [|now apply py_eq_refl_hashable].
      rewrite day_add_keys, Hex. apply in_or_app. right. now left.
Qed.

Lemma day_add_hashable (d v : value) (by_day : Availability.days) :
  hashable d = true ->
  Forall (fun kp => hashable (fst kp) = true) by_day ->
  Forall (fun kp => hashable (fst kp) = true) (Availability.day_add d v by_day).
Proof.
  intros Hh. induction 1 as [|[k ps] rest Hk Hrest IH]; simpl.
  - constructor; [assumption|constructor].
  - destruct (py_eq k d); constructor; assumption.
Qed.

Lemma filed_hashable (done : list value) (by_day : Availability.days) :
  filed done by_day -> Forall (fun kp => hashable (fst kp) = true) by_day.
Proof. apply Forall_impl. intros kp [H _]. exact H. Qed.

Lemma by_day_loop_spec (rest : list value) :
  forall (done : list value) (by_day by_day' : Availability.days),
    Forall readable done ->
    filed done by_day -> NoDup (day_keys by_day) -> covered done by_day ->
    Availability.by_day_loop rest by_day = Ok by_day' ->
    Forall readable (done ++ rest)%list /\
    filed (done ++ rest)%list by_day' /\ NoDup (day_keys by_day') /\
    covered (done ++ rest)%list by_day'.
Proof.
  induction rest as [|slot rest IH]; intros done by_day by_day' Hr Hf Hnd Hc H.
  - simpl in H. apply Ok_inj in H. subst. rewrite app_nil_r. auto.
  - cbn [Availability.by_day_loop] in H.
    apply bind_ok_inv in H. destruct H as (d & Hd & H).
    apply bind_ok_inv in H. destruct H as (v & Hv & H).
    apply bind_ok_inv in H. destruct H as ([] & Hh & H).
    unfold hash_value in Hh.
    destruct (hashable d) eqn:Hhd; [|discriminate Hh].
    pose proof (filed_hashable _ _ Hf) as Hall.
    apply (IH (done ++ [slot])%list) in H.
    + rewrite <- app_assoc in H. exact H.
    + apply Forall_app. split; [assumption|].
      constructor; [|constructor]. exists d, v. auto.
    + apply day_add_filed; auto.
      intros Hnone. now apply (periods_on_fresh d done by_day).
    + now apply day_add_nodup.
    + now apply day_add_covered.
Qed.

Lemma numbers_Forall2 (periods : list value) (zs : list Z) :
  Grouping.numbers periods = Some zs <-> Forall2 number_of periods zs.
Proof.
  revert zs. induction periods as [|v rest IH]; intros zs; simpl.
  - split; intros H; [injection H as <-; constructor|].
    inversion H. reflexivity.
  - split; intros H.
    + destruct (as_int v) as [z|] eqn:Hz; [|discriminate H].
      destruct (Grouping.numbers rest) as [zs'|] eqn:Hzs; [|discriminate H].
      injection H as <-. constructor; [exact Hz|]. now apply IH.
    + inversion H as [|? z ? zs' Hz Hrest]; subst.
      unfold number_of in Hz. rewrite Hz.
      apply IH in Hrest. now rewrite Hrest.
Qed.

Lemma Forall2_number_in (periods : list value) (zs : list Z) (z : Z) :
  Forall2 number_of periods zs -> In z zs ->
  exists v, In v periods /\ as_int v = Some z.
Proof.
  induction 1 as [|v z' rest zs' Hz Hrest IH]; simpl; intros Hin; [contradiction|].
  destruct Hin as [<-|Hin]; [exists v; auto|].
  destruct (IH Hin) as (v' & Hv' & Hz'). exists v'. auto.
Qed.

Lemma Forall2_number_in_l (periods : list value) (zs : list Z) (v : value) (z : Z) :
  Forall2 number_of periods zs -> In v periods -> as_int v = Some z -> In z zs.
Proof.
  induction 1 as [|v' z' rest zs' Hz Hrest IH]; simpl; intros Hin Hv; [contradiction|].
  destruct Hin as [<-|Hin].
  - unfold number_of in Hz. rewrite Hv in Hz. injection Hz as <-. now left.
  - right. now apply IH.
Qed.

Lemma map_fst_combine {A B : Type} (xs : list A) (ys : list B) :
  List.length xs = List.length ys -> map fst (combine xs ys) = xs.
Proof.
  revert ys. induction xs as [|x xs IH]; destruct ys as [|y ys]; simpl;
    intros H; try discriminate H; [reflexivity|].
  f_equal. apply IH. now injection H.
Qed.

Lemma combine_numbers (periods : list value) (zs : list Z) :
  Forall2 number_of periods zs ->
  Forall (fun p => as_int (snd p) = Some (fst p)) (combine zs periods).
Proof. induction 1; simpl; constructor; assumption. Qed.

Lemma numbered_pairs (l : list (Z * value)) :
  Forall (fun p => as_int (snd p) = Some (fst p)) l ->
  Forall2 number_of (map snd l) (map fst l).
Proof. induction 1; simpl; constructor; assumption. Qed.

Lemma sorted_keys (l : list (Z * value)) :
  StronglySorted key_le l -> StronglySorted Z.le (map fst l).
Proof.
  induction 1 as [|p rest Hrest IH Hp]; simpl; constructor; [assumption|].
  rewrite Forall_forall in *. intros z Hz. apply in_map_iff in Hz.
  destruct Hz as (q & <- & Hq). now apply Hp.
Qed.

Lemma Forall2_length_numbers (periods : list value) (zs : list Z) :
  Forall2 number_of periods zs -> List.length zs = List.length periods.
Proof. induction 1; simpl; congruence. Qed.

Lemma sorted_numbers (t : list value -> string) (periods : list value) (zs : list Z) :
  Forall2 number_of periods zs ->
  exists sp zs',
    Availability.sorted t periods = Ok sp /\
    Forall2 number_of sp zs' /\
    StronglySorted Z.le zs' /\
    Permutation zs' zs.
Proof.
  intros H. unfold Availability.sorted.
  destruct periods as [|a [|b rest]].
  - inversion H; subst. exists [], []. repeat split; auto; constructor.
  - inversion H as [|? z ? zs' Hz Hrest]; subst. inversion Hrest; subst.
    exists [a], [z]. repeat split; auto. repeat constructor.
  - pose proof (proj2 (numbers_Forall2 _ _) H) as Hn. rewrite Hn.
    pose proof (Forall2_length_numbers _ _ H) as Hlen.
    set (l := Grouping.stable_sort (combine zs (a :: b :: rest))).
    exists (map snd l), (map fst l). split; [reflexivity|].
    split; [|split].
    + apply numbered_pairs. pose proof (combine_numbers _ _ H) as Hall.
      rewrite Forall_forall in *. intros p Hp. apply Hall.
      apply (Permutation_in _ (stable_sort_perm _)). exact Hp.
    + apply sorted_keys, stable_sort_sorted.
    + apply Permutation_trans with (map fst (combine zs (a :: b :: rest))).
      * apply Permutation_map, stable_sort_perm.
      * rewrite (map_fst_combine zs (a :: b :: rest) Hlen). apply Permutation_refl.
Qed.

Lemma sorted_inv (t : list value -> string) (periods sp : list value) :
  Availability.sorted t periods = Ok sp ->
  (sp = periods /\ (List.length periods <= 1)%nat) \/
  (exists zs, Forall2 number_of periods zs).
Proof.
  unfold Availability.sorted. intros H.
  destruct periods as [|a [|b rest]].
  - apply Ok_inj in H. subst. left. auto.
  - apply Ok_inj in H. subst. left. auto.
  - destruct (Grouping.numbers (a :: b :: rest)) as [zs|] eqn:Hn; [|discriminate H].
    right. exists zs. now apply numbers_Forall2.
Qed.

Lemma strictly_sorted (zs : list Z) :
  StronglySorted Z.le zs -> NoDup zs -> StronglySorted Z.lt zs.
Proof.
  induction 1 as [|z rest Hrest IH Hz]; intros Hnd; [constructor|].
  inversion Hnd as [|? ? Hnotin Hnd']; subst.
  constructor; [now apply IH|].
  rewrite Forall_forall in *. intros y Hy.
  assert (z <> y) by (intros ->; contradiction).
  specialize (Hz y Hy). lia.
Qed.

Lemma py_eq_number (v : value) (z e : Z) :
  as_int v = Some z -> py_eq v (VInt e) = (z =? e)%Z.
Proof.
  destruct v; simpl; intros H; try discriminate H; injection H as <-; reflexivity.
Qed.

Lemma scan_numbers_eq (rest : list value) (zs : list Z) :
  Forall2 number_of rest zs ->
  forall (previous : value) (q c required : Z),
    as_int previous = Some q ->
    Availability.scan previous rest c required
    = Ok (scan_numbers q zs c required).
Proof.
  induction 1 as [|v z rest zs Hz Hrest IH]; intros previous q c required Hq;
    [reflexivity|].
  cbn [Availability.scan scan_numbers].
  rewrite (py_add_total previous (VInt 1) q 1 Hq eq_refl). cbn [bind].
  rewrite (py_eq_number _ _ _ Hz).
  destruct (z =? q + 1)%Z.
  - destruct (c + 1 >=? required)%Z; [reflexivity|]. now apply IH.
  - now apply IH.
Qed.

Lemma scan_numbers_sound (S : Z -> Prop) (required : Z) (zs : list Z) :
  forall (q c : Z),
    (1 <= c)%Z ->
    (forall j, (0 <= j < c)%Z -> S (q - j)%Z) ->
    (forall z, In z zs -> S z) ->
    scan_numbers q zs c required = true ->
    exists p m, (2 <= m)%Z /\ (required <= m)%Z /\
                forall j, (0 <= j < m)%Z -> S (p + j)%Z.
Proof.
  induction zs as [|z zs IH]; intros q c Hc Hrun Hzs H; [discriminate H|].
  cbn [scan_numbers] in H.
  assert (Hz : S z) by (apply Hzs; now left).
  assert (Hzs' : forall y, In y zs -> S y) by (intros y Hy; apply Hzs; now right).
  destruct (z =? q + 1)%Z eqn:Heq.
  - apply Z.eqb_eq in Heq. subst z.
    assert (Hrun' : forall j, (0 <= j < c + 1)%Z -> S (q + 1 - j)%Z).
    { intros j Hj. destruct (Z.eq_dec j 0) as [->|Hne].
      - now rewrite Z.sub_0_r.
      - replace (q + 1 - j)%Z with (q - (j - 1))%Z by lia. apply Hrun. lia. }
    destruct (c + 1 >=? required)%Z eqn:Hge.
    + exists (q + 1 - c)%Z, (c + 1)%Z. split; [lia|]. split; [lia|].
      intros j Hj. replace (q + 1 - c + j)%Z with (q + 1 - (c - j))%Z by lia.
      apply Hrun'. lia.
    + apply (IH (q + 1)%Z (c + 1)%Z); auto. lia.
  - apply (IH z 1%Z); auto; [lia|].
    intros j Hj. replace j with 0%Z by lia. now rewrite Z.sub_0_r.
Qed.

Lemma scan_numbers_complete (required p m : Z) (zs : list Z) :
  (2 <= m)%Z -> (required <= m)%Z ->
  forall (q c : Z),
    StronglySorted Z.lt (q :: zs) ->
    (1 <= c)%Z ->
    (forall i, (0 <= i < m)%Z -> (q <= p + i)%Z -> In (p + i)%Z (q :: zs)) ->
    ((q < p)%Z \/ exists j, (0 <= j < m - 1)%Z /\ q = (p + j)%Z /\ (j + 1 <= c)%Z) ->
    scan_numbers q zs c required = true.
Proof.
  intros Hm Hreq.
  induction zs as [|z zs IH]; intros q c Hsorted Hc Hblock Hpos.
  - exfalso. destruct Hpos as [Hlt|(j & Hj & -> & _)].
    + destruct (Hblock 0%Z) as [H|[]]; lia.
    + destruct (Hblock (j + 1)%Z) as [H|[]]; lia.
  - inversion Hsorted as [|? ? Hsorted' Hq]; subst.
    inversion Hq as [|? ? Hqz Hqzs]; subst.
    inversion Hsorted' as [|? ? _ Hz]; subst.
    assert (Hblock' : forall i, (0 <= i < m)%Z -> (z <= p + i)%Z ->
                                In (p + i)%Z (z :: zs)).
    { intros i Hi Hle. destruct (Hblock i Hi) as [H|H]; [lia|lia|exact H]. }
    assert (Hmin : forall y, In y (z :: zs) -> (z <= y)%Z).
    { intros y [<-|Hy]; [lia|]. rewrite Forall_forall in Hz.
      specialize (Hz y Hy). lia. }
    cbn [scan_numbers].
    destruct Hpos as [Hlt|(j & Hj & -> & Hcj)].
    + assert (Hzp : (z <= p)%Z).
      { apply Hmin. replace p with (p + 0)%Z by lia.
        destruct (Hblock 0%Z) as [H|H]; [lia|lia|lia|].
        now rewrite Z.add_0_r in *. }
      assert (Hpos' : forall c', (1 <= c')%Z ->
                (z < p)%Z \/ exists j, (0 <= j < m - 1)%Z /\ z = (p + j)%Z
                                       /\ (j + 1 <= c')%Z).
      { intros c' Hc'. destruct (Z.eq_dec z p) as [->|Hne]; [|left; lia].
        right. exists 0%Z. repeat split; lia. }
      destruct (z =? q + 1)%Z.
      * destruct (c + 1 >=? required)%Z; [reflexivity|].
        apply IH; auto; [lia|apply Hpos'; lia].
      * apply IH; auto; [lia|apply Hpos'; lia].
    + assert (Hnext : z = (p + j + 1)%Z).
      { assert (Hin : In (p + (j + 1))%Z (z :: zs)).
        { destruct (Hblock (j + 1)%Z) as [H|H]; [lia|lia|lia|exact H]. }
        pose proof (Hmin _ Hin). lia. }
      subst z. rewrite Z.eqb_refl.
      destruct (c + 1 >=? required)%Z eqn:Hge; [reflexivity|].
      rewrite Z.geb_leb in Hge. apply Z.leb_gt in Hge.
      apply IH; auto; [lia|].
      right. exists (j + 1)%Z. repeat split; lia.
Qed.

Lemma day_result_sound (t : list value -> string) (required : Z) (periods : list value) :
  day_result t required periods = Ok true ->
  exists p m, (2 <= m)%Z /\ (required <= m)%Z /\
    forall j, (0 <= j < m)%Z ->
      exists v, In v periods /\ as_int v = Some (p + j)%Z.
Proof.
  unfold day_result. intros H.
  apply bind_ok_inv in H. destruct H as (sp & Hsp & H).
  destruct (sorted_inv _ _ _ Hsp) as [[-> Hlen]|(zs & Hzs)].
  - destruct periods as [|a [|b rest]]; simpl in *; try discriminate H; lia.
  - destruct (sorted_numbers t _ _ Hzs) as (sp' & zs' & Hsp' & H2 & _ & Hperm).
    rewrite Hsp in Hsp'. apply Ok_inj in Hsp'. subst sp'.
    destruct H2 as [|first q others zs'' Hq Hothers]; [discriminate H|].
    rewrite (scan_numbers_eq _ _ Hothers _ q 1 required Hq) in H.
    apply Ok_inj in H.
    apply (scan_numbers_sound
             (fun z => exists v, In v periods /\ as_int v = Some z)) in H.
    + exact H.
    + lia.
    + intros j Hj. replace j with 0%Z by lia. rewrite Z.sub_0_r.
      apply (Forall2_number_in _ _ _ Hzs).
      apply (Permutation_in _ Hperm). now left.
    + intros z Hz. apply (Forall2_number_in _ _ _ Hzs).
      apply (Permutation_in _ Hperm). now right.
Qed.

Lemma sorted_independent (periods : list value) (zs : list Z) :
  Forall2 number_of periods zs ->
  forall t t', Availability.sorted t periods = Availability.sorted t' periods.
Proof.
  intros Hzs t t'. unfold Availability.sorted.
  destruct periods as [|a [|b rest]]; try reflexivity.
  now rewrite (proj2 (numbers_Forall2 _ _) Hzs).
Qed.

Lemma day_result_total (t : list value -> string) (required : Z)
    (periods : list value) (zs : list Z) :
  Forall2 number_of periods zs ->
  exists b, forall t, day_result t required periods = Ok b.
Proof.
  intros Hzs.
  destruct (sorted_numbers (fun _ => EmptyString) _ _ Hzs)
    as (sp & zs' & Hsp & H2 & _ & _).
  destruct H2 as [|first q others zs'' Hq Hothers].
  - exists false. intros t'. unfold day_result.
    now rewrite (sorted_independent _ _ Hzs t' (fun _ => EmptyString)), Hsp.
  - exists (scan_numbers q zs'' 1 required). intros t'. unfold day_result.
    rewrite (sorted_independent _ _ Hzs t' (fun _ => EmptyString)), Hsp.
    cbn [bind]. now apply scan_numbers_eq.
Qed.

Lemma day_result_complete (t : list value -> string) (required p m : Z)
    (periods : list value) (zs : list Z) :
  Forall2 number_of periods zs -> NoDup zs ->
  (2 <= m)%Z -> (required <= m)%Z ->
  (forall j, (0 <= j < m)%Z -> In (p + j)%Z zs) ->
  day_result t required periods = Ok true.
Proof.
  intros Hzs Hnd Hm Hreq Hblock. unfold day_result.
  destruct (sorted_numbers t _ _ Hzs) as (sp & zs' & Hsp & H2 & Hsorted & Hperm).
  rewrite Hsp. cbn [bind].
  assert (Hstrict : StronglySorted Z.lt zs').
  { apply strictly_sorted; [assumption|].
    apply (Permutation_NoDup (Permutation_sym Hperm) Hnd). }
  assert (Hblock' : forall j, (0 <= j < m)%Z -> In (p + j)%Z zs').
  { intros j Hj. apply (Permutation_in _ (Permutation_sym Hperm)). now apply Hblock. }
  destruct H2 as [|first q others zs'' Hq Hothers].
  - exfalso. destruct (Hblock' 0%Z); lia.
  - rewrite (scan_numbers_eq _ _ Hothers _ q 1 required Hq). f_equal.
    apply (scan_numbers_complete required p m); auto; [lia|].
    assert (Hmin : (q <= p)%Z).
    { inversion Hstrict as [|? ? _ Hq']; subst.
      destruct (Hblock' 0%Z) as [H|H]; [lia|lia|].
      rewrite Z.add_0_r in H. rewrite Forall_forall in Hq'.
      specialize (Hq' p H). lia. }
    destruct (Z.eq_dec q p) as [->|Hne]; [|left; lia].
    right. exists 0%Z. repeat split; lia.
Qed.

Lemma days_loop_cons (t : list value -> string) (k : value) (periods : list value)
    (rest : Availability.days) (required : Z) :
  Availability.days_loop t ((k, periods) :: rest) required
  = (found <- day_result t required periods ;;
     if found then Ok true else Availability.days_loop t rest required).
Proof.
  cbn [Availability.days_loop]. unfold day_result.
  destruct (Availability.sorted t periods); reflexivity.
Qed.

Lemma days_loop_sound (t : list value -> string) (required : Z)
    (by_day : Availability.days) :
  Availability.days_loop t by_day required = Ok true ->
  exists kp, In kp by_day /\ day_result t required (snd kp) = Ok true.
Proof.
  induction by_day as [|[k ps] rest IH]; intros H; [discriminate H|].
  rewrite days_loop_cons in H.
  apply bind_ok_inv in H. destruct H as (found & Hfound & H).
  destruct found.
  - exists (k, ps). split; [now left|exact Hfound].
  - destruct (IH H) as (kp & Hkp & Hres). exists kp. split; [now right|exact Hres].
Qed.

Lemma days_loop_total (required : Z) (by_day : Availability.days) :
  Forall (fun kp => exists zs, Forall2 number_of (snd kp) zs) by_day ->
  exists b, forall t, Availability.days_loop t by_day required = Ok b.
Proof.
  induction 1 as [|[k ps] rest [zs Hzs] Hrest IH]; [exists false; reflexivity|].
  destruct (day_result_total (fun _ => EmptyString) required ps zs Hzs) as (b & Hb).
  destruct IH as (b' & Hb').
  exists (if b then true else b'). intros t.
  rewrite days_loop_cons, Hb. cbn [bind]. destruct b; [reflexivity|apply Hb'].
Qed.

Lemma days_loop_complete (t : list value -> string) (required : Z)
    (by_day : Availability.days) :
  Forall (fun kp => exists zs, Forall2 number_of (snd kp) zs) by_day ->
  (exists kp, In kp by_day /\ day_result t required (snd kp) = Ok true) ->
  Availability.days_loop t by_day required = Ok true.
Proof.
  induction 1 as [|[k ps] rest [zs Hzs] Hrest IH]; intros (kp & Hkp & Hres);
    [contradiction|].
  rewrite days_loop_cons.
  destruct (day_result_total t required ps zs Hzs) as (b & Hb).
  rewrite Hb. cbn [bind]. destruct b; [reflexivity|].
  apply IH. destruct Hkp as [<-|Hkp].
  - simpl in Hres. rewrite Hb in Hres. discriminate Hres.
  - eauto.
Qed.

Lemma well_formed_slot_inv (slot : value) :
  well_formed_slot slot = true ->
  exists d v z,
    subscript slot "day" = Ok d /\ subscript slot "period" = Ok v /\
    hashable d = true /\ as_int v = Some z.
Proof.
  unfold well_formed_slot, is_number. intros H.
  destruct (subscript slot "day") as [d| |]; try discriminate H.
  destruct (subscript slot "period") as [v| |]; try discriminate H.
  apply andb_true_iff in H. destruct H as [Hh Hn].
  destruct (as_int v) as [z|] eqn:Hz; [|discriminate Hn].
  exists d, v, z. auto.
Qed.

Lemma by_day_loop_total (slots : list value) :
  Forall (fun slot => well_formed_slot slot = true) slots ->
  forall by_day, exists by_day', Availability.by_day_loop slots by_day = Ok by_day'.
Proof.
  induction 1 as [|slot rest Hslot Hrest IH]; intros by_day; [simpl; eauto|].
  destruct (well_formed_slot_inv _ Hslot) as (d & v & z & Hd & Hv & Hh & _).
  cbn [Availability.by_day_loop]. rewrite Hd, Hv. cbn [bind].
  unfold hash_value. rewrite Hh. cbn [bind]. apply IH.
Qed.

Lemma periods_on_numbers (k : value) (slots : list value) :
  Forall (fun slot => well_formed_slot slot = true) slots ->
  exists zs, Forall2 number_of (periods_on k slots) zs.
Proof.
  induction 1 as [|slot rest Hslot Hrest IH]; [exists []; constructor|].
  destruct IH as (zs & Hzs).
  destruct (well_formed_slot_inv _ Hslot) as (d & v & z & Hd & Hv & _ & Hz).
  simpl. rewrite Hd, Hv. destruct (py_eq k d); [|eauto].
  exists (z :: zs). constructor; assumption.
Qed.

Lemma periods_on_nodup (k : value) (slots : list value) :
  hashable k = true ->
  Forall (fun slot => well_formed_slot slot = true) slots ->
  NoDup (map slot_pair slots) ->
  forall zs, Forall2 number_of (periods_on k slots) zs -> NoDup zs.
Proof.
  intros Hk. induction 1 as [|slot rest Hslot Hrest IH]; intros Hnd zs Hzs.
  - inversion Hzs. constructor.
  - simpl in Hnd. inversion Hnd as [|? ? Hnotin Hnd']; subst.
    destruct (well_formed_slot_inv _ Hslot) as (d & v & z & Hd & Hv & Hh & Hz).
    simpl in Hzs. rewrite Hd, Hv in Hzs.
    destruct (py_eq k d) eqn:He; [|now apply IH].
    inversion Hzs as [|? z' ? zs' Hz' Hzs']; subst.
    unfold number_of in Hz'. rewrite Hz in Hz'. injection Hz' as <-.
    constructor; [|now apply IH].
    intros Hin. apply Hnotin.
    destruct (Forall2_number_in _ _ _ Hzs' Hin) as (v' & Hv' & Hzv').
    apply periods_on_in in Hv'.
    destruct Hv' as (slot' & d' & Hslot' & Hd' & He' & Hp').
    apply in_map_iff. exists slot'. split; [|assumption].
    rewrite Forall_forall in Hrest.
    destruct (well_formed_slot_inv _ (Hrest slot' Hslot'))
      as (d0 & v0 & z0 & Hd0 & Hv0 & Hh0 & Hz0).
    rewrite Hd' in Hd0. apply Ok_inj in Hd0. subst d0.
    rewrite Hp' in Hv0. apply Ok_inj in Hv0. subst v0.
    unfold slot_pair. rewrite Hd', Hp', Hzv', Hd, Hv, Hz.
    apply (py_eq_norm _ _ Hk Hh) in He.
    apply (py_eq_norm _ _ Hk Hh0) in He'. congruence.
Qed.

Lemma free_block_shorter (slots : list value) (day : value) (p m m' : Z) :
  (m' <= m)%Z -> free_block slots day p m -> free_block slots day p m'.
Proof. intros Hle H j Hj. apply H. lia. Qed.

Lemma check_sound (t : list value -> string) (available_slots : value) (required : Z) :
  Availability._check_consecutive_availability t available_slots required = Ok true ->
  exists slots day p,
    iterate available_slots = Ok slots /\
    hashable day = true /\
    free_block slots day p (Z.max required 2).
Proof.
  unfold Availability._check_consecutive_availability. intros H.
  apply bind_ok_inv in H. destruct H as (slots & Hslots & H).
  apply bind_ok_inv in H. destruct H as (by_day & Hby & H).
  apply (by_day_loop_spec slots []) in Hby;
    [|constructor|constructor|constructor|intros ? ? []].
  simpl in Hby. destruct Hby as (_ & Hfiled & _ & _).
  apply days_loop_sound in H. destruct H as ([k ps] & Hkp & Hres).
  unfold filed in Hfiled. rewrite Forall_forall in Hfiled.
  destruct (Hfiled _ Hkp) as [Hk Hps]. simpl in Hk, Hps, Hres.
  apply day_result_sound in Hres. destruct Hres as (p & m & Hm & Hreq & Hblock).
  exists slots, k, p. split; [assumption|]. split; [assumption|].
  apply (free_block_shorter _ _ _ m); [lia|].
  intros j Hj. destruct (Hblock j Hj) as (v & Hv & Hz).
  rewrite Hps in Hv. apply periods_on_in in Hv.
  destruct Hv as (slot & d & Hslot & Hd & He & Hp).
  exists slot. split; [assumption|]. exists d, v. auto.
Qed.

Lemma check_characterized (slots : list value) (required : Z) :
  forallb well_formed_slot slots = true ->
  NoDup (map slot_pair slots) ->
  exists b,
    (forall t, Availability._check_consecutive_availability t (VList slots) required
               = Ok b) /\
    (b = true <->
     exists day p, hashable day = true
                   /\ free_block slots day p (Z.max required 2)).
Proof.
  intros Hwf Hnd.
  assert (Hall : Forall (fun slot => well_formed_slot slot = true) slots).
  { apply Forall_forall. now apply forallb_forall. }
  clear Hwf.
  destruct (by_day_loop_total slots Hall []) as (by_day & Hby).
  pose proof (by_day_loop_spec slots [] [] by_day (Forall_nil _) (Forall_nil _)
                (NoDup_nil _) (fun _ _ (H : In _ []) => match H with end) Hby) as Hspec.
  simpl in Hspec. destruct Hspec as (Hread & Hfiled & Hkeys & Hcov).
  assert (Hnum : Forall (fun kp => exists zs, Forall2 number_of (snd kp) zs) by_day).
  { unfold filed in Hfiled. rewrite Forall_forall in Hfiled.
    apply Forall_forall. intros kp Hkp.
    destruct (Hfiled kp Hkp) as [_ ->]. now apply periods_on_numbers. }
  destruct (days_loop_total required by_day Hnum) as (b & Hb).
  assert (Hrun : forall t, Availability._check_consecutive_availability t
                             (VList slots) required = Ok b).
  { intros t. unfold Availability._check_consecutive_availability.
    cbn [iterate bind]. rewrite Hby. cbn [bind]. apply Hb. }
  exists b. split; [exact Hrun|]. split.
  - intros ->. specialize (Hrun (fun _ => EmptyString)).
    apply check_sound in Hrun.
    destruct Hrun as (slots' & day & p & Hit & Hh & Hblock).
    simpl in Hit. apply Ok_inj in Hit. subst slots'. eauto.
  - intros (day & p & Hh & Hblock).
    assert (Htrue : Availability.days_loop (fun _ => EmptyString) by_day required
                    = Ok true).
    { apply days_loop_complete; [assumption|].
      assert (H0 : (0 <= 0 < Z.max required 2)%Z) by lia.
      destruct (Hblock 0%Z H0) as (s0 & Hs0 & d0 & v0 & Hd0 & He0 & _).
      destruct (Hcov s0 d0 Hs0 Hd0) as ([k ps] & Hkp & Hk). simpl in Hk.
      exists (k, ps). split; [assumption|]. simpl.
      unfold filed in Hfiled. rewrite Forall_forall in Hfiled, Hread.
      destruct (Hfiled _ Hkp) as [Hhk Hps]. simpl in Hhk, Hps.
      destruct (Hread s0 Hs0) as (d0' & v0' & Hd0' & _ & Hh0).
      rewrite Hd0 in Hd0'. apply Ok_inj in Hd0'. subst d0'.
      assert (Hnorm : norm k = norm day).
      { apply (py_eq_norm _ _ Hhk Hh0) in Hk.
        apply (py_eq_norm _ _ Hh Hh0) in He0. congruence. }
      destruct (periods_on_numbers k slots Hall) as (zs & Hzs).
      subst ps.
      apply (day_result_complete _ required p (Z.max required 2) _ zs);
        auto; try lia.
      - now apply (periods_on_nodup k slots).
      - intros j Hj.
        destruct (Hblock j Hj) as (s & Hs & d & v & Hd & He & Hv & Hz).
        apply (Forall2_number_in_l _ _ v _ Hzs); [|assumption].
        apply (in_periods_on k slots s d v); auto.
        destruct (Hread s Hs) as (d' & v' & Hd' & _ & Hhd).
        rewrite Hd in Hd'. apply Ok_inj in Hd'. subst d'.
        apply (py_eq_norm _ _ Hhk Hhd).
        apply (py_eq_norm _ _ Hh Hhd) in He. congruence. }
    rewrite Hb in Htrue. now apply Ok_inj in Htrue.
Qed.

(** X24: a block that is found is real, and at least two periods long.
    When _check_consecutive_availability answers True, the slots offer,
    on one day, the consecutive periods p, p+1, ... for a length of
    max(required_periods, 2).  True is never answered on the strength of
    a single period, also when required_periods is 1 or less. *)
Theorem consecutive_availability_is_sound :
  forall (type_error_text : list value -> string) (available_slots : value)
         (required_periods : Z),
    Availability._check_consecutive_availability type_error_text available_slots
      required_periods = Ok true ->
    exists slots day p,
      iterate available_slots = Ok slots /\
      hashable day = true /\
      free_block slots day p (Z.max required_periods 2).
Proof. exact check_sound. Qed.

(** X25: on well-formed slots without a repeated (day, period) the check
    never raises and answers True exactly when one day offers
    max(required_periods, 2) consecutive periods.  With required_periods
    at 1, an instructor all of whose free periods are isolated is
    therefore reported to have no block. *)
Theorem consecutive_availability_decides_blocks :
  forall (slots : list value) (required_periods : Z),
    forallb well_formed_slot slots = true ->
    NoDup (map slot_pair slots) ->
    exists b,
      (forall type_error_text,
          Availability._check_consecutive_availability type_error_text
            (VList slots) required_periods = Ok b) /\
      (b = true <->
       exists day p, hashable day = true
                     /\ free_block slots day p (Z.max required_periods 2)).
Proof. exact check_characterized. Qed.

(* ================================================================== *)
(** ** The theorems on consecutive availability at sample inputs *)
(* ================================================================== *)

Lemma consecutive_availability_is_sound_witness :
  exists slots day p,
    iterate (VList example_slots) = Ok slots /\
    hashable day = true /\
    free_block slots day p (Z.max 3 2).
Proof.
  apply (consecutive_availability_is_sound (fun _ => EmptyString)
           (VList example_slots) 3).
  reflexivity.
Defined.

Lemma consecutive_availability_decides_blocks_witness :
  exists b,
    (forall type_error_text,
        Availability._check_consecutive_availability type_error_text
          (VList [example_slot "Mon" 3]) 1 = Ok b) /\
    (b = true <->
     exists day p, hashable day = true
                   /\ free_block [example_slot "Mon" 3] day p (Z.max 1 2)).
Proof.
  apply (consecutive_availability_decides_blocks [example_slot "Mon" 3] 1).
  - reflexivity.
  - simpl. repeat constructor. intros [].
Defined.
